(** * doc8: the check-execution engine of [doc8/main.py]

    A shallow embedding of [main], [fetch_checks], [extract_config],
    [merge_sets] and [split_set_type], and the properties of the dispatch
    loop, of the error counts and of the exit status.

    Python dictionaries are [gmap]s, Python sets are [gset]s, Python
    integers are [Z].  The effects of [main] (what it prints, the
    [error_counts] dictionary, the objects it creates, the exceptions it
    raises) are threaded through a state-and-exception monad. *)

From stdpp Require Import gmap strings list fin_maps sorting.
From Stdlib Require Import ZArith.

Set Default Proof Using "Type".

(** ** Python values *)

(** The exceptions that the modelled code can raise. *)
Inductive exn :=
  | TypeError
  | KeyError
  | ValueError
  | IOError
  | AttributeError
  | NoSectionError
  | NoOptionError.

(** The values stored in the [args] and [cfg] dictionaries. *)
Inductive pyval :=
  | VBool (b : bool)
  | VInt (z : Z)
  | VList (l : list string)
  | VSet (s : gset string)
  | VSets (l : list (gset string)).

(** Python truthiness, as used by [if args.get('verbose'):]. *)
Definition truthy (v : pyval) : bool :=
  match v with
  | VBool b => b
  | VInt z => negb (z =? 0)%Z
  | VList l => negb (bool_decide (l = []))
  | VSet s => negb (bool_decide (s = ∅))
  | VSets l => negb (bool_decide (l = []))
  end.

(** [d.get(k)] followed by a truth test: a missing key gives [None],
    which is false. *)
Definition get_truthy (d : gmap string pyval) (k : string) : bool :=
  match d !! k with
  | Some v => truthy v
  | None => false
  end.

(** A dictionary object: its identity and its items.  [cfg.copy()] makes
    an object with a new identity and the same items. *)
Record pydict := { dict_id : nat; items : gmap string pyval }.

(** The handle that [file_parser.parse] returns. *)
Record ParsedFile := {
  filename : string;
  extension : string;
  lines_iter : list string
}.

(** ** Module constants *)

Definition FILE_PATTERNS : list string := [".rst"; ".txt"]%string.
Definition MAX_LINE_LENGTH : Z := 79.
Definition CONFIG_FILENAMES : list string :=
  ["doc8.ini"; "tox.ini"; "pep8.ini"; "setup.cfg"]%string.

(** ** [split_set_type] and [merge_sets] *)

(** The characters that [str.strip()] removes.  A string of the model is
    a Python 3 [str] whose characters have code points below 256, one
    [ascii] for each character.  Among these, the whitespace of Python 3
    is 9 to 13, 28 to 31, 32, 133 (U+0085) and 160 (U+00A0). *)
Definition is_space (a : Ascii.ascii) : bool :=
  let n := Ascii.nat_of_ascii a in
  (n =? 32) || ((9 <=? n) && (n <=? 13)) || ((28 <=? n) && (n <=? 31)) ||
  (n =? 133) || (n =? 160).

Fixpoint lstrip (s : string) : string :=
  match s with
  | String a s' => if is_space a then lstrip s' else s
  | EmptyString => EmptyString
  end.

Fixpoint rstrip (s : string) : string :=
  match s with
  | String a s' =>
      match rstrip s' with
      | EmptyString => if is_space a then EmptyString else String a EmptyString
      | r => String a r
      end
  | EmptyString => EmptyString
  end.

Definition strip (s : string) : string := rstrip (lstrip s).

(** [text.split(",")]: a comma is the character 44; the result is never
    empty. *)
Fixpoint split_comma (s : string) : list string :=
  match s with
  | EmptyString => [EmptyString]
  | String a s' =>
      if Ascii.eqb a (Ascii.ascii_of_nat 44) then EmptyString :: split_comma s'
      else
        match split_comma s' with
        | w :: ws => String a w :: ws
        | [] => [String a EmptyString]
        end
  end.

(** [[i.strip() for i in text.split(",") if i.strip()]] *)
Definition split_strip (text : string) : list string :=
  strip <$> filter (fun i => strip i ≠ EmptyString) (split_comma text).

Definition split_set_type (text : string) : gset string :=
  list_to_set (split_strip text).

Definition merge_sets (sets : list (gset string)) : gset string :=
  foldl (fun m s => m ∪ s) ∅ sets.

(** ** Reading dictionaries *)

(** A computation that returns a value or raises, and does nothing else;
    [x <- m ;; k] runs [k] when [m] returns. *)
Definition ebind {A B} (m : exn + A) (k : A -> exn + B) : exn + B :=
  match m with
  | inr a => k a
  | inl e => inl e
  end.

Declare Scope err_scope.
Delimit Scope err_scope with err.
Notation "x <- m ;; k" := (ebind m (fun x => k))
  (at level 100, m at next level, right associativity) : err_scope.

(** [d[k]] *)
Definition getitem (d : gmap string pyval) (k : string) : exn + pyval :=
  match d !! k with
  | Some v => inr v
  | None => inl KeyError
  end.

(** Iterating over a value that holds strings, or sets. *)
Definition iter_strings (v : pyval) : exn + list string :=
  match v with
  | VList l => inr l
  | VSet s => inr (elements s)
  | _ => inl TypeError
  end.

Definition iter_sets (v : pyval) : exn + list (gset string) :=
  match v with
  | VSets l => inr l
  | _ => inl TypeError
  end.

(** [s.update(...)] is a method of sets, [l.extend(...)] of lists. *)
Definition set_update (v more : pyval) : exn + pyval :=
  match v with
  | VSet s => (l <- iter_strings more ;; inr (VSet (s ∪ list_to_set l)))%err
  | _ => inl AttributeError
  end.

Definition list_extend (v more : pyval) : exn + pyval :=
  match v with
  | VList l => (l' <- iter_strings more ;; inr (VList (l ++ l')))%err
  | _ => inl AttributeError
  end.

(** [try: ... except (NoSectionError, NoOptionError): pass] *)
Definition try_get {A} (r : exn + A) : exn + option A :=
  match r with
  | inr a => inr (Some a)
  | inl NoSectionError | inl NoOptionError => inr None
  | inl e => inl e
  end.

Definition set_if_some (k : string) (o : option pyval)
    (cfg : gmap string pyval) : gmap string pyval :=
  match o with
  | Some v => <[k := v]> cfg
  | None => cfg
  end.

(** ** Checks *)

(** A finding of a [ContentCheck]: [(line_num, code, message)]; a finding
    of a [LineCheck]: [(code, message)]. *)
Definition file_finding : Type := Z * string * string.
Definition line_finding : Type := string * string.

(** The lines that [main] prints, one constructor for each [print]. *)
Inductive out_line :=
  | OVersion
  | OScanning
  | OIgnoring (fn : string)
  | OSelecting (fn : string)
  | OValidating (f : ParsedFile)
  | OSkipExtension (name ext : string)
  | OSkipIgnoreable (name : string)
  | ORunning (name : string)
  | OViolation (verbose : bool) (fn : string) (line_num : Z)
      (code message : string)
  | OSeparator
  | OFilesScanned (n : Z)
  | OFilesIgnored (n : Z)
  | OTotalErrors (n : Z)
  | ODetailedHeader
  | ODetail (name : string) (n : Z).

Section Types.

(** The attributes of a check object ([self.*]); [report_iter] may update
    them. *)
Context {Self : Type}.

(** Modelled from the spec: the classes [ContentCheck] and [LineCheck] of
    [doc8.checks] are not part of the sources at hand.  A check has a
    [kind] (ContentCheck | LineCheck) fixed at construction; a
    [ContentCheck] has [reportIter(file)] yielding [(lineNumber, code,
    message)], a [LineCheck] has [reportIter(line)] yielding [(code,
    message)].  [OtherCheck] stands for an object that is an instance of
    neither class, which [main] tests for. *)
Inductive check_body :=
  | ContentCheck
      (report_iter : Self -> ParsedFile -> list file_finding * Self)
  | LineCheck
      (report_iter : Self -> string -> list line_finding * Self)
  | OtherCheck.

(** A check class, as far as [main] looks at it: the name that
    [c.__class__.__qualname__] gives, the optional class attributes
    [EXT_MATCHER] (reduced to the truth value of [.match(extension)]) and
    [REPORTS], the constructor and [report_iter]. *)
Record check_class := {
  check_name : string;
  EXT_MATCHER : option (string -> bool);
  REPORTS : option (list string);
  init : gmap string pyval -> Self;
  body : check_body
}.

(** A check object: its class, its identity, the dictionary it was
    constructed with and its attributes. *)
Record instance := {
  cls : check_class;
  obj_id : nat;
  cfg_ref : pydict;
  self : Self
}.

(** ** Effects *)

(** What happens during a run, in order.  [Eprint] is the output; the
    other events are a record of the calls that [main] makes:
    [fetch_checks(args)], the construction of a check object,
    [error_counts.setdefault(check_name, 0)] for a check and a file, a
    [continue] that skips the check for the file (lines 248 and 259), the
    point where the check was not skipped (line 260), a call of
    [report_iter] with what it yielded, and
    [error_counts[check_name] += 1]. *)
Inductive event :=
  | Eprint (l : out_line)
  | Efetch_checks
  | Enew (c : check_class) (id : nat) (cfg : pydict)
  | Econsider (c : check_class) (id : nat) (f : ParsedFile)
  | Eskip (c : check_class) (id : nat) (f : ParsedFile)
  | Edispatch (c : check_class) (id : nat) (f : ParsedFile)
  | Ecall_file (c : check_class) (id : nat) (f : ParsedFile)
      (yielded : list file_finding)
  | Ecall_line (c : check_class) (id : nat) (f : ParsedFile)
      (line_num : Z) (line : string) (yielded : list line_finding)
  | Eincr (name : string).

Record state := {
  error_counts : gmap string Z;
  trace : list event;
  next_id : nat
}.

Definition initial_state : state :=
  {| error_counts := ∅; trace := []; next_id := 0 |}.

(** A computation changes the state and returns a value or raises. *)
Definition M (A : Type) : Type := state -> state * (exn + A).

Definition ret {A} (a : A) : M A := fun s => (s, inr a).

Definition raise {A} (e : exn) : M A := fun s => (s, inl e).

Definition bind {A B} (m : M A) (k : A -> M B) : M B :=
  fun s =>
    match m s with
    | (s', inr a) => k a s'
    | (s', inl e) => (s', inl e)
    end.

(** A computation that only raises, as a step of a run. *)
Definition lift {A} (r : exn + A) : M A := fun s => (s, r).

Definition log (e : event) : M unit :=
  fun s =>
    ({| error_counts := error_counts s;
        trace := trace s ++ [e];
        next_id := next_id s |}, inr tt).

Definition print (l : out_line) : M unit := log (Eprint l).

(** The identity of a new object. *)
Definition fresh : M nat :=
  fun s =>
    ({| error_counts := error_counts s;
        trace := trace s;
        next_id := S (next_id s) |}, inr (next_id s)).

Definition when (b : bool) (m : M unit) : M unit :=
  if b then m else ret tt.

Fixpoint for_each {A} (l : list A) (loop_body : A -> M unit) : M unit :=
  match l with
  | [] => ret tt
  | x :: l' => bind (loop_body x) (fun _ => for_each l' loop_body)
  end.

(** [error_counts.setdefault(check_name, 0)] *)
Definition setdefault (name : string) (z : Z) : M unit :=
  fun s =>
    match error_counts s !! name with
    | Some _ => (s, inr tt)
    | None =>
        ({| error_counts := <[name := z]> (error_counts s);
            trace := trace s;
            next_id := next_id s |}, inr tt)
    end.

(** [error_counts[check_name] += 1] *)
Definition incr (name : string) : M unit :=
  fun s =>
    match error_counts s !! name with
    | Some n =>
        ({| error_counts := <[name := (n + 1)%Z]> (error_counts s);
            trace := trace s ++ [Eincr name];
            next_id := next_id s |}, inr tt)
    | None => (s, inl KeyError)
    end.

Definition get_error_counts : M (gmap string Z) :=
  fun s => (s, inr (error_counts s)).

End Types.

Arguments check_body : clear implicits.
Arguments check_class : clear implicits.
Arguments instance : clear implicits.
Arguments event : clear implicits.
Arguments state : clear implicits.
Arguments M : clear implicits.

Declare Scope run_scope.
Delimit Scope run_scope with run.
Notation "x <- m ;; k" := (bind m (fun x => k))
  (at level 100, m at next level, right associativity) : run_scope.
Notation "m ;; k" := (bind m (fun _ => k))
  (at level 100, right associativity) : run_scope.
Open Scope run_scope.

(** ** Collaborators *)

(** [configparser.RawConfigParser], once the files are read: the three
    methods that [extract_config] calls. *)
Record RawConfigParser := {
  get : string -> string -> exn + string;
  getint : string -> string -> exn + Z;
  getboolean : string -> string -> exn + bool
}.

(** What [main] takes from other modules:
    - the five built-in check classes of [doc8.checks];
    - what [stevedore]'s [ExtensionManager] finds under the namespace
      ['doc8.extension.check'], in the order in which iterating over the
      manager gives it;
    - [utils.find_files(paths, extension, ignored_paths)], which yields
      [(filename, ignoreable)], and [file_parser.parse(filename)];
    - [open(fn)] and [parser.readfp(fh)] for each of the files given with
      [--config], and [parser.read(filenames)], which returns the names
      of the files it could read. *)
Class Collaborators (Self : Type) := {
  CheckValidity : check_class Self;
  CheckTrailingWhitespace : check_class Self;
  CheckIndentationNoTab : check_class Self;
  CheckCarriageReturn : check_class Self;
  CheckMaxLineLength : check_class Self;
  extensions : list (check_class Self);
  find_files :
    list string -> list string -> list string -> list (string * bool);
  parse : string -> ParsedFile;
  readfp_all : list string -> exn + RawConfigParser;
  read : list string -> RawConfigParser * list string
}.

Section Program.

Context {Self : Type} {world : Collaborators Self}.

Local Abbreviation check_class := (check_class Self).
Local Abbreviation instance := (instance Self).
Local Abbreviation M := (M Self).

(** ** [fetch_checks] *)

(** [klass(cfg)]: a new object of class [klass]. *)
Definition construct (klass : check_class) (cfg : pydict) : M instance :=
  id <- fresh ;;
  log (Enew klass id cfg) ;;
  ret {| cls := klass; obj_id := id; cfg_ref := cfg;
         self := init klass (items cfg) |}.

(** [cfg.copy()] *)
Definition copy (cfg : pydict) : M pydict :=
  id <- fresh ;;
  ret {| dict_id := id; items := items cfg |}.

(** The extension manager calls each plugin with [invoke_args]. *)
Fixpoint invoke_all (plugins : list check_class) (invoke_args : pydict)
  : M (list instance) :=
  match plugins with
  | [] => ret []
  | p :: ps =>
      obj <- construct p invoke_args ;;
      objs <- invoke_all ps invoke_args ;;
      ret (obj :: objs)
  end.

Definition fetch_checks (cfg : pydict) : M (list instance) :=
  log Efetch_checks ;;
  c1 <- construct CheckValidity cfg ;;
  c2 <- construct CheckTrailingWhitespace cfg ;;
  c3 <- construct CheckIndentationNoTab cfg ;;
  c4 <- construct CheckCarriageReturn cfg ;;
  c5 <- construct CheckMaxLineLength cfg ;;
  let base := [c1; c2; c3; c4; c5] in
  invoke_args <- copy cfg ;;
  addons <- invoke_all extensions invoke_args ;;
  ret (base ++ addons).

(** ** The dispatch loop of [main] *)

Section Loop.

(** [args] after the options that [main] pops are gone, and
    [ignoreables]. *)
Variable args : pydict.
Variable ignoreables : gset string.

Definition verbose : bool := get_truthy (items args) "verbose".

(** The body of the two innermost loops (lines 264-272 and 276-284). *)
Definition emit (name : string) (f : ParsedFile) (line_num : Z)
    (code message : string) : M unit :=
  if bool_decide (code ∈ ignoreables) then ret tt
  else
    print (OViolation verbose (filename f) line_num code message) ;;
    incr name.

(** [for line_num, line in enumerate(f.lines_iter(), 1)], from [line_num]
    on; the check object changes as [report_iter] runs. *)
Fixpoint line_loop (c : check_class) (id : nat)
    (report_iter : Self -> string -> list line_finding * Self)
    (f : ParsedFile) (line_num : Z) (lines : list string) (me : Self)
  : M unit :=
  match lines with
  | [] => ret tt
  | line :: lines' =>
      let '(yielded, me') := report_iter me line in
      log (Ecall_line c id f line_num line yielded) ;;
      for_each yielded
        (fun '(code, message) =>
           emit (check_name c) f line_num code message) ;;
      line_loop c id report_iter f (line_num + 1)%Z lines' me'
  end.

(** Lines 262-287. *)
Definition dispatch (f : ParsedFile) (c : instance) : M unit :=
  match body (cls c) with
  | ContentCheck report_iter =>
      let '(yielded, _) := report_iter (self c) f in
      log (Ecall_file (cls c) (obj_id c) f yielded) ;;
      for_each yielded
        (fun '(line_num, code, message) =>
           emit (check_name (cls c)) f line_num code message)
  | LineCheck report_iter =>
      line_loop (cls c) (obj_id c) report_iter f 1%Z (lines_iter f) (self c)
  | OtherCheck => raise TypeError
  end.

(** [extension_matcher.match(f.extension)] when the class has an
    [EXT_MATCHER]. *)
Definition extension_ok (c : check_class) (f : ParsedFile) : bool :=
  match EXT_MATCHER c with
  | Some matcher => matcher (extension f)
  | None => true
  end.

(** [set(c.REPORTS) - ignoreables] is not empty, when the class has
    [REPORTS]. *)
Definition reports_ok (c : check_class) : bool :=
  match REPORTS c with
  | Some reports =>
      negb (bool_decide (list_to_set reports ∖ ignoreables = (∅ : gset string)))
  | None => true
  end.

(** The body of [for c in fetch_checks(args)] (lines 231-287). *)
Definition run_check (f : ParsedFile) (c : instance) : M unit :=
  let name := check_name (cls c) in
  setdefault name 0 ;;
  log (Econsider (cls c) (obj_id c) f) ;;
  if negb (extension_ok (cls c) f) then
    when verbose (print (OSkipExtension name (extension f))) ;;
    log (Eskip (cls c) (obj_id c) f)
  else if negb (reports_ok (cls c)) then
    when verbose (print (OSkipIgnoreable name)) ;;
    log (Eskip (cls c) (obj_id c) f)
  else
    when verbose (print (ORunning name)) ;;
    log (Edispatch (cls c) (obj_id c) f) ;;
    dispatch f c.

(** The body of [while files] (lines 227-287). *)
Definition validate (f : ParsedFile) : M unit :=
  when verbose (print (OValidating f)) ;;
  checks <- fetch_checks args ;;
  for_each checks (run_check f).

End Loop.

(** ** The summary (lines 288-301) *)

(** [sum(six.itervalues(error_counts))] *)
Definition total (counts : gmap string Z) : Z :=
  map_fold (fun _ n acc => (acc + n)%Z) 0%Z counts.

(** [sorted(six.iterkeys(error_counts))] *)
Definition sorted_keys (counts : gmap string Z) : list string :=
  merge_sort (fun a b => Is_true (String.leb a b)) (elements (dom counts)).

Definition summary (files_selected files_ignored : Z) : M Z :=
  counts <- get_error_counts ;;
  let total_errors := total counts in
  print OSeparator ;;
  print (OFilesScanned files_selected) ;;
  print (OFilesIgnored files_ignored) ;;
  print (OTotalErrors total_errors) ;;
  when (negb (bool_decide (counts = ∅)))
    (print ODetailedHeader ;;
     for_each (sorted_keys counts)
       (fun name =>
          match counts !! name with
          | Some check_errors => print (ODetail name check_errors)
          | None => raise KeyError
          end)) ;;
  if negb (total_errors =? 0)%Z then ret 1%Z else ret 0%Z.

(** ** Scanning (lines 206-222) *)

Fixpoint scan (verbosely : bool) (file_iter : list (string * bool))
    (files : list ParsedFile) (files_ignored files_selected : Z)
  : M (list ParsedFile * Z * Z) :=
  match file_iter with
  | [] => ret (files, files_ignored, files_selected)
  | (fn, ignoreable) :: rest =>
      if ignoreable then
        when verbosely (print (OIgnoring fn)) ;;
        scan verbosely rest files (files_ignored + 1)%Z files_selected
      else
        let files := files ++ [parse fn] in
        when verbosely (print (OSelecting fn)) ;;
        scan verbosely rest files files_ignored (files_selected + 1)%Z
  end.

(** ** [extract_config] *)

(** Lines 74-82: the parser and [read_files]. *)
Definition read_config_files (args : gmap string pyval)
  : exn + (RawConfigParser * list string) :=
  (config <- getitem args "config" ;;
   if truthy config then
     fns <- iter_strings config ;;
     parser <- readfp_all fns ;;
     inr (parser, fns)
   else inr (read CONFIG_FILENAMES))%err.

Definition extract_config (args : gmap string pyval)
  : exn + gmap string pyval :=
  (loaded <- read_config_files args ;;
   let '(parser, read_files) := loaded in
   if bool_decide (read_files = []) then inr ∅
   else
     let cfg : gmap string pyval := ∅ in
     o <- try_get (getint parser "doc8" "max-line-length") ;;
     let cfg := set_if_some "max_line_length" (VInt <$> o) cfg in
     o <- try_get (get parser "doc8" "ignore") ;;
     let cfg := set_if_some "ignore" (VSet ∘ split_set_type <$> o) cfg in
     o <- try_get (get parser "doc8" "ignore_path") ;;
     let cfg := set_if_some "ignore_path" (VSet ∘ split_set_type <$> o) cfg in
     o <- try_get (getboolean parser "doc8" "allow-long-titles") ;;
     let cfg := set_if_some "allow_long_titles" (VBool <$> o) cfg in
     o <- try_get (getboolean parser "doc8" "sphinx") ;;
     let cfg := set_if_some "sphinx" (VBool <$> o) cfg in
     o <- try_get (getboolean parser "doc8" "verbose") ;;
     let cfg := set_if_some "verbose" (VBool <$> o) cfg in
     o <- try_get (get parser "doc8" "extensions") ;;
     let cfg :=
       match split_strip <$> o with
       | Some (e :: es) => <["extension" := VList (e :: es)]> cfg
       | _ => cfg
       end in
     inr cfg)%err.

(** ** [main] *)

(** What [parser.parse_args()] returns: one attribute for each argument
    that [main] adds to the parser. *)
Record Namespace := {
  ns_paths : list string;
  ns_config : list string;
  ns_allow_long_titles : bool;
  ns_ignore : list (gset string);
  ns_sphinx : bool;
  ns_ignore_path : list string;
  ns_max_line_length : Z;
  ns_extension : list string;
  ns_verbose : bool;
  ns_version : bool
}.

(** [vars(parser.parse_args())] *)
Definition vars (ns : Namespace) : gmap string pyval :=
  list_to_map
    [("paths", VList (ns_paths ns));
     ("config", VList (ns_config ns));
     ("allow_long_titles", VBool (ns_allow_long_titles ns));
     ("ignore", VSets (ns_ignore ns));
     ("sphinx", VBool (ns_sphinx ns));
     ("ignore_path", VList (ns_ignore_path ns));
     ("max_line_length", VInt (ns_max_line_length ns));
     ("extension", VList (ns_extension ns));
     ("verbose", VBool (ns_verbose ns));
     ("version", VBool (ns_version ns))].

(** Lines 196-203: the options of the command line and of the
    configuration files, in one dictionary. *)
Definition configure (args : gmap string pyval)
  : exn + gmap string pyval :=
  ((* args['ignore'] = merge_sets(args['ignore']) *)
   v <- getitem args "ignore" ;;
   sets <- iter_sets v ;;
   let args := <["ignore" := VSet (merge_sets sets)]> args in
   cfg <- extract_config args ;;
   (* args['ignore'].update(cfg.pop("ignore", set())) *)
   v <- getitem args "ignore" ;;
   v <- set_update v (default (VSet ∅) (cfg !! "ignore")) ;;
   let cfg := delete "ignore" cfg in
   let args := <["ignore" := v]> args in
   (* if 'sphinx' in cfg: args['sphinx'] = cfg.pop("sphinx") *)
   let args :=
     match cfg !! "sphinx" with
     | Some b => <["sphinx" := b]> args
     | None => args
     end in
   let cfg := delete "sphinx" cfg in
   (* args['extension'].extend(cfg.pop('extension', [])) *)
   v <- getitem args "extension" ;;
   v <- list_extend v (default (VList []) (cfg !! "extension")) ;;
   let cfg := delete "extension" cfg in
   let args := <["extension" := v]> args in
   (* args['ignore_path'].extend(cfg.pop('ignore_path', [])) *)
   v <- getitem args "ignore_path" ;;
   v <- list_extend v (default (VList []) (cfg !! "ignore_path")) ;;
   let cfg := delete "ignore_path" cfg in
   let args := <["ignore_path" := v]> args in
   (* args.update(cfg) *)
   inr (cfg ∪ args))%err.

(** Lines 206-301, with [args] as [configure] leaves it.
    [setup_logging] sets the level of the [logging] module, which [main]
    does not write to. *)
Definition run (args_id : nat) (args : gmap string pyval) : M Z :=
  print OScanning ;;
  ignored_paths <- lift (getitem args "ignore_path") ;;
  let args := delete "ignore_path" args in
  ignored_paths <- lift (iter_strings ignored_paths) ;;
  paths <- lift (iter_strings (default (VList []) (args !! "paths"))) ;;
  let args := delete "paths" args in
  exts <- lift (iter_strings (default (VList []) (args !! "extension"))) ;;
  let args := delete "extension" args in
  let file_iter := find_files paths exts ignored_paths in
  scanned <- scan (get_truthy args "verbose") file_iter [] 0%Z 0%Z ;;
  let '(files, files_ignored, files_selected) := scanned in
  ign <- lift (iter_strings (default (VList []) (args !! "ignore"))) ;;
  let args := delete "ignore" args in
  let ignoreables : gset string := list_to_set ign in
  for_each files (validate {| dict_id := args_id; items := args |} ignoreables) ;;
  summary files_selected files_ignored.

Definition main (parsed : Namespace) : M Z :=
  args_id <- fresh ;;
  let args := vars parsed in
  if get_truthy args "version" then
    print OVersion ;;
    ret 0%Z
  else
    args <- lift (configure args) ;;
    run args_id args.

End Program.

(** ** Reading a trace *)

Section Observations.

Context {Self : Type}.

Local Abbreviation check_class := (check_class Self).
Local Abbreviation event := (event Self).
Local Abbreviation state := (state Self).

(** What was printed. *)
Definition output (t : list event) : list out_line :=
  omap (fun e => match e with Eprint l => Some l | _ => None end) t.

Definition is_violation (l : out_line) : bool :=
  match l with
  | OViolation _ _ _ _ _ => true
  | _ => false
  end.

(** The violations that were printed. *)
Definition violations (t : list event) : list out_line :=
  List.filter is_violation (output t).

Definition is_summary (l : out_line) : bool :=
  match l with
  | OSeparator | OFilesScanned _ | OFilesIgnored _ | OTotalErrors _
  | ODetailedHeader | ODetail _ _ => true
  | _ => false
  end.

(** The identities of the check objects for which
    [error_counts.setdefault] was called, in order. *)
Definition considered_ids (t : list event) : list nat :=
  omap (fun e => match e with Econsider _ id _ => Some id | _ => None end) t.

(** The identities of the check objects that were constructed. *)
Definition new_ids (t : list event) : list nat :=
  omap (fun e => match e with Enew _ id _ => Some id | _ => None end) t.

Definition fetches (t : list event) : nat :=
  length (List.filter
            (fun e => match e with Efetch_checks => true | _ => false end) t).

(** The names that [find_files] yielded as not ignoreable, and what
    scanning prints. *)
Definition selected (file_iter : list (string * bool)) : list string :=
  fst <$> List.filter (fun p => negb (snd p)) file_iter.

Definition ignored (file_iter : list (string * bool)) : list string :=
  fst <$> List.filter (fun p => snd p) file_iter.

Definition scan_lines (verbosely : bool) (file_iter : list (string * bool))
  : list out_line :=
  if verbosely then
    (fun p : string * bool =>
       if snd p then OIgnoring (fst p) else OSelecting (fst p))
      <$> file_iter
  else [].

(** What the summary prints, and the exit status. *)
Definition detail_lines (counts : gmap string Z) : list out_line :=
  if bool_decide (counts = ∅) then []
  else
    ODetailedHeader ::
    ((fun name => ODetail name (default 0%Z (counts !! name)))
       <$> sorted_keys counts).

Definition summary_lines (counts : gmap string Z)
    (files_selected files_ignored : Z) : list out_line :=
  [OSeparator; OFilesScanned files_selected; OFilesIgnored files_ignored;
   OTotalErrors (total counts)] ++ detail_lines counts.

Definition exit_status (counts : gmap string Z) : Z :=
  if (total counts =? 0)%Z then 0%Z else 1%Z.

(** What a configuration file gives for an option: nothing when no file
    was read or when the option is missing. *)
Definition from_file {A} (read_files : list string) (r : exn + A)
  : option A :=
  if bool_decide (read_files = []) then None
  else match r with inr a => Some a | inl _ => None end.

(** The value of an option in the dictionary that [configure] returns. *)
Definition effective (k : string) (r : exn + gmap string pyval)
  : option pyval :=
  match r with
  | inr args => args !! k
  | inl _ => None
  end.

(** The strings of a value that [main] iterates over. *)
Definition strings_of (v : pyval) : option (list string) :=
  match v with
  | VList l => Some l
  | VSet s => Some (elements s)
  | _ => None
  end.

(** What [run] reads in [args], when each option has a value that can
    be iterated over: [ignore_path], [paths], [extension] and [ignore]. *)
Definition run_inputs (args : gmap string pyval)
  : option (list string * list string * list string * list string) :=
  match args !! "ignore_path" with
  | Some v =>
      match strings_of v,
            strings_of (default (VList []) (args !! "paths")),
            strings_of (default (VList []) (args !! "extension")),
            strings_of (default (VList []) (args !! "ignore")) with
      | Some ignored_paths, Some paths, Some exts, Some ign =>
          Some (ignored_paths, paths, exts, ign)
      | _, _, _, _ => None
      end
  | None => None
  end.

(** The dictionary that [main] passes to [fetch_checks]. *)
Definition loop_args (args_id : nat) (args : gmap string pyval) : pydict :=
  {| dict_id := args_id;
     items :=
       delete "ignore"
         (delete "extension" (delete "paths" (delete "ignore_path" args))) |}.

(** The set that [frozenset(args.pop('ignore', []))] gives. *)
Definition ignoreables_of (args : gmap string pyval) : gset string :=
  match args !! "ignore" with
  | Some (VSet s) => s
  | Some (VList l) => list_to_set l
  | _ => ∅
  end.

(** What the loops over the findings of one [report_iter] call add to the
    trace for one finding: nothing for an ignored code, else the printed
    line and the increment of the count of the check. *)
Definition emitted (verbosely : bool) (ignoreables : gset string)
    (name fn : string) (line_num : Z) (code message : string)
  : list event :=
  if bool_decide (code ∈ ignoreables) then []
  else [Eprint (OViolation verbosely fn line_num code message); Eincr name].

(** What a [LineCheck] yields on the successive lines of a file. *)
Fixpoint yields (report_iter : Self -> string -> list line_finding * Self)
    (me : Self) (lines : list string) : list (list line_finding) :=
  match lines with
  | [] => []
  | line :: lines' =>
      let '(yielded, me') := report_iter me line in
      yielded :: yields report_iter me' lines'
  end.

End Observations.

(** ** What [fetch_checks] returns *)

Section Fetched.

Context {Self : Type} {world : Collaborators Self}.

(** The object that [klass(cfg)] makes, when it gets the identity [id]. *)
Definition built (klass : check_class Self) (id : nat) (cfg : pydict)
  : instance Self :=
  {| cls := klass; obj_id := id; cfg_ref := cfg;
     self := init klass (items cfg) |}.

(** The classes of the checks, in the order of the list that
    [fetch_checks] returns. *)
Definition check_classes : list (check_class Self) :=
  [CheckValidity; CheckTrailingWhitespace; CheckIndentationNoTab;
   CheckCarriageReturn; CheckMaxLineLength] ++ extensions.

(** The copy of [cfg] that [fetch_checks] makes, and the list that it
    returns, when [n] is the identity of the next new object. *)
Definition copied (cfg : pydict) (n : nat) : pydict :=
  {| dict_id := n + 5; items := items cfg |}.

Definition fetched (cfg : pydict) (n : nat) : list (instance Self) :=
  [built CheckValidity n cfg;
   built CheckTrailingWhitespace (n + 1) cfg;
   built CheckIndentationNoTab (n + 2) cfg;
   built CheckCarriageReturn (n + 3) cfg;
   built CheckMaxLineLength (n + 4) cfg] ++
  imap (fun i p => built p (n + 6 + i) (copied cfg n)) extensions.

Definition constructed (c : instance Self) : event Self :=
  Enew (cls c) (obj_id c) (cfg_ref c).

End Fetched.

Section Events.

Context {Self : Type}.

Local Abbreviation check_class := (check_class Self).

(** A check passes both tests for a file (lines 238-259); a check that
    is neither a [ContentCheck] nor a [LineCheck]. *)
Definition applicable (ignoreables : gset string) (c : check_class)
    (f : ParsedFile) : bool :=
  extension_ok c f && reports_ok ignoreables c.

Definition is_other (c : check_class) : bool :=
  match body c with
  | OtherCheck => true
  | _ => false
  end.

(** A check of class [c] makes the run stop at the file [f]. *)
Definition stops (ignoreables : gset string) (f : ParsedFile)
    (c : check_class) : bool :=
  applicable ignoreables c f && is_other c.

(** ** The events of a run *)

(** What [run_check] adds to the trace: for one call of [report_iter] of
    a [ContentCheck] or of a [LineCheck] on the line [line_num], the call
    and then what the loop over its findings adds; for a check and a
    file, [error_counts.setdefault], the decision and the calls. *)
Definition file_block (verbosely : bool) (ignoreables : gset string)
    (c : check_class) (id : nat) (f : ParsedFile)
    (yielded : list file_finding) : list (event Self) :=
  Ecall_file c id f yielded ::
  flat_map
    (fun y : file_finding =>
       emitted verbosely ignoreables (check_name c) (filename f)
         (fst (fst y)) (snd (fst y)) (snd y))
    yielded.

Definition line_block (verbosely : bool) (ignoreables : gset string)
    (c : check_class) (id : nat) (f : ParsedFile) (line_num : Z)
    (line : string) (yielded : list line_finding) : list (event Self) :=
  Ecall_line c id f line_num line yielded ::
  flat_map
    (fun y : line_finding =>
       emitted verbosely ignoreables (check_name c) (filename f)
         line_num (fst y) (snd y))
    yielded.

Definition line_blocks (verbosely : bool) (ignoreables : gset string)
    (c : check_class) (id : nat) (f : ParsedFile) (first : Z)
    (numbered : list (string * list line_finding)) : list (event Self) :=
  concat
    (imap
       (fun i ly =>
          line_block verbosely ignoreables c id f (first + Z.of_nat i)%Z
            (fst ly) (snd ly))
       numbered).

Definition dispatch_events (verbosely : bool) (ignoreables : gset string)
    (f : ParsedFile) (c : instance Self) : list (event Self) :=
  match body (cls c) with
  | ContentCheck report_iter =>
      file_block verbosely ignoreables (cls c) (obj_id c) f
        (fst (report_iter (self c) f))
  | LineCheck report_iter =>
      line_blocks verbosely ignoreables (cls c) (obj_id c) f 1
        (zip (lines_iter f) (yields report_iter (self c) (lines_iter f)))
  | OtherCheck => []
  end.

Definition said (verbosely : bool) (l : out_line) : list (event Self) :=
  if verbosely then [Eprint l] else [].

Definition check_events (verbosely : bool) (ignoreables : gset string)
    (f : ParsedFile) (c : instance Self) : list (event Self) :=
  Econsider (cls c) (obj_id c) f ::
  (if negb (extension_ok (cls c) f) then
     said verbosely (OSkipExtension (check_name (cls c)) (extension f)) ++
     [Eskip (cls c) (obj_id c) f]
   else if negb (reports_ok ignoreables (cls c)) then
     said verbosely (OSkipIgnoreable (check_name (cls c))) ++
     [Eskip (cls c) (obj_id c) f]
   else
     said verbosely (ORunning (check_name (cls c))) ++
     Edispatch (cls c) (obj_id c) f ::
     dispatch_events verbosely ignoreables f c).

(** The checks of a list, up to the first that stops the run. *)
Fixpoint checks_events (verbosely : bool) (ignoreables : gset string)
    (f : ParsedFile) (checks : list (instance Self)) : list (event Self) :=
  match checks with
  | [] => []
  | c :: checks' =>
      check_events verbosely ignoreables f c ++
      (if stops ignoreables f (cls c) then []
       else checks_events verbosely ignoreables f checks')
  end.

End Events.

Section Run_events.

Context {Self : Type} {world : Collaborators Self}.

(** What [validate] adds to the trace for a file, when [n] is the
    identity of the next new object, and what the loop over the files
    adds, up to the first file at which a check stops the run. *)
Definition validate_events (args : pydict) (ignoreables : gset string)
    (f : ParsedFile) (n : nat) : list (event Self) :=
  said (verbose args) (OValidating f) ++
  Efetch_checks :: (constructed <$> fetched args n) ++
  checks_events (verbose args) ignoreables f (fetched args n).

Fixpoint files_events (args : pydict) (ignoreables : gset string)
    (files : list ParsedFile) (n : nat) : list (event Self) :=
  match files with
  | [] => []
  | f :: files' =>
      validate_events args ignoreables f n ++
      (if existsb (stops ignoreables f) check_classes then []
       else files_events args ignoreables files' (n + 6 + length extensions))
  end.

End Run_events.

(** ** Invariants of a run *)

Section Invariants.

Context {Self : Type}.

Local Abbreviation check_class := (check_class Self).
Local Abbreviation event := (event Self).
Local Abbreviation state := (state Self).
Local Abbreviation M := (M Self).

(** [hoare P m Q]: from a state where [P] holds, [m] ends with a result
    and in a state that [Q] relates. *)
Definition hoare {A} (P : state -> Prop) (m : M A)
    (Q : exn + A -> state -> Prop) : Prop :=
  forall s, P s -> Q (snd (m s)) (fst (m s)).

(** [m] keeps [I], whether it returns or raises. *)
Definition preserves {A} (I : state -> Prop) (m : M A) : Prop :=
  hoare I m (fun _ s => I s).

(** The postcondition of a computation that does not raise. *)
Definition returns {A} (R : A -> state -> Prop) : exn + A -> state -> Prop :=
  fun r s => exists a, r = inr a /\ R a s.

(** What a computation does from the state [s]: the events [d] that it
    adds, the number [k] of objects that it makes, and its result; it
    removes no entry of [error_counts]. *)
Definition effect {A} (m : M A) (s : state) (d : list event) (k : nat)
    (r : exn + A) : Prop :=
  trace (fst (m s)) = trace s ++ d /\
  next_id (fst (m s)) = next_id s + k /\
  snd (m s) = r /\
  dom (error_counts s) ⊆ dom (error_counts (fst (m s))).

(** The state after one object was made. *)
Definition bump (s : state) : state :=
  {| error_counts := error_counts s; trace := trace s;
     next_id := S (next_id s) |}.

(** An event of the loop over the checks: no call of [fetch_checks] and
    no line of the summary; an event that is no line of the summary. *)
Definition loop_event (e : event) : Prop :=
  match e with
  | Efetch_checks => False
  | Eprint l => is_summary l = false
  | _ => True
  end.

Definition not_summary (e : event) : Prop :=
  match e with
  | Eprint l => is_summary l = false
  | _ => True
  end.

(** The state with more events. *)
Definition append (d : list event) (s : state) : state :=
  {| error_counts := error_counts s;
     trace := trace s ++ d;
     next_id := next_id s |}.

(** What an event must satisfy, given the ignored codes: a printed
    violation has a code that is not ignored; a check that was dispatched
    or called for a file passed both tests for that file; a check that
    was skipped failed one. *)
Definition ev_ok (ignoreables : gset string) (e : event) : Prop :=
  match e with
  | Eprint (OViolation _ _ _ code _) => code ∉ ignoreables
  | Edispatch c _ f | Ecall_file c _ f _ | Ecall_line c _ f _ _ _ =>
      extension_ok c f = true /\ reports_ok ignoreables c = true
  | Eskip c _ f =>
      extension_ok c f = false \/ reports_ok ignoreables c = false
  | _ => True
  end.

(** Reading a trace from the left, to see that counts follow prints:
    [Idle cur] when every printed violation was counted, [cur] being the
    name of the check whose [report_iter] was called last; [Printed cur]
    right after a violation was printed; [Bad] when a count did not
    follow a print of a violation of the check called last, or something
    else followed such a print. *)
Inductive counting := Idle (cur : option string)
  | Printed (cur : option string) | Bad.

Definition count_step (st : counting) (e : event) : counting :=
  match st, e with
  | Idle cur, Eprint (OViolation _ _ _ _ _) => Printed cur
  | Idle cur, Eincr _ => Bad
  | Idle cur, Ecall_file c _ _ _ => Idle (Some (check_name c))
  | Idle cur, Ecall_line c _ _ _ _ _ => Idle (Some (check_name c))
  | Idle cur, _ => Idle cur
  | Printed cur, Eincr name =>
      if decide (cur = Some name) then Idle cur else Bad
  | Printed _, _ => Bad
  | Bad, _ => Bad
  end.

Definition counting_of (t : list event) : counting :=
  foldl count_step (Idle None) t.

(** The name of the check whose [report_iter] was called last. *)
Definition last_called (t : list event) : option string :=
  foldl (fun cur e =>
           match e with
           | Ecall_file c _ _ _ | Ecall_line c _ _ _ _ _ =>
               Some (check_name c)
           | _ => cur
           end) None t.

(** [e] is the decision to skip or to dispatch check [c] for [f]. *)
Definition decides (e : event) (c : check_class) (id : nat)
    (f : ParsedFile) : Prop :=
  e = Eskip c id f \/ e = Edispatch c id f.

(** Each decision about a check object and a file comes after
    [error_counts.setdefault] for them. *)
Definition considered_first (t : list event) : Prop :=
  forall pre e post c id f,
    t = pre ++ e :: post -> decides e c id f -> In (Econsider c id f) pre.

(** An event that is neither a printed violation, nor a count, nor a call
    of [report_iter], nor about a decision. *)
Definition quiet (e : event) : Prop :=
  match e with
  | Eprint l => is_violation l = false
  | Efetch_checks | Enew _ _ _ => True
  | _ => False
  end.

(** [e] is a call of [report_iter] of class [c]. *)
Definition calls (e : event) (c : check_class) : Prop :=
  match e with
  | Ecall_file c' _ _ _ | Ecall_line c' _ _ _ _ _ => c' = c
  | _ => False
  end.

Record Inv (ignoreables : gset string) (cur : option string) (s : state)
  : Prop := {
  inv_events : Forall (ev_ok ignoreables) (trace s);
  inv_counting : counting_of (trace s) = Idle cur;
  inv_first : considered_first (trace s);
  inv_total :
    total (error_counts s) = Z.of_nat (length (violations (trace s)));
  inv_nonneg : map_Forall (fun _ n => (0 <= n)%Z) (error_counts s);
  inv_entry :
    forall c id f, In (Econsider c id f) (trace s) ->
      is_Some (error_counts s !! check_name c);
  inv_nodup : NoDup (considered_ids (trace s));
  inv_below : Forall (fun id => id < next_id s) (considered_ids (trace s))
}.

(** The invariant while the findings of a call of the check [name] are
    handled, and between two calls. *)
Definition Running (ignoreables : gset string) (name : string)
    (ids : list nat) (n : nat) (s : state) : Prop :=
  Inv ignoreables (Some name) s /\
  is_Some (error_counts s !! name) /\
  considered_ids (trace s) = ids /\ next_id s = n.

Definition Ready (ignoreables : gset string) (name : string)
    (ids : list nat) (n : nat) (s : state) : Prop :=
  exists cur, Inv ignoreables cur s /\
  is_Some (error_counts s !! name) /\
  considered_ids (trace s) = ids /\ next_id s = n.

(** The invariant between two checks, and after
    [error_counts.setdefault] for the check object [id] of class [c] and
    the file [f]. *)
Definition Between (ignoreables : gset string) (ids : list nat) (n : nat)
    (s : state) : Prop :=
  (exists cur, Inv ignoreables cur s) /\
  considered_ids (trace s) = ids /\ next_id s = n.

Definition Considered (ignoreables : gset string) (c : check_class)
    (id : nat) (f : ParsedFile) (ids : list nat) (n : nat) (s : state)
  : Prop :=
  Ready ignoreables (check_name c) ids n s /\
  In (Econsider c id f) (trace s).

End Invariants.

(** ** Reading strings *)

(** The characters of a string, its first and its last character. *)
Definition chars (s : string) : list Ascii.ascii :=
  String.list_ascii_of_string s.

Definition first_char (s : string) : option Ascii.ascii :=
  match s with
  | String a _ => Some a
  | EmptyString => None
  end.

Fixpoint last_char (s : string) : option Ascii.ascii :=
  match s with
  | EmptyString => None
  | String a EmptyString => Some a
  | String _ s' => last_char s'
  end.

Definition comma : Ascii.ascii := Ascii.ascii_of_nat 44.

(** What [split_set_type] keeps of a piece: a string that is not empty,
    has no comma, and neither starts nor ends with a blank. *)
Definition clean (x : string) : Prop :=
  x <> EmptyString /\ ~ In comma (chars x) /\
  (forall a, first_char x = Some a -> is_space a = false) /\
  (forall a, last_char x = Some a -> is_space a = false).

(** [",".join(l)] *)
Definition join_commas (l : list string) : string := String.concat "," l.

(** ** Reading the configuration *)

(** An exception that the [try] blocks of [extract_config] do not
    catch. *)
Definition uncaught {A} (r : exn + A) : bool :=
  match r with
  | inl NoSectionError | inl NoOptionError | inr _ => false
  | inl _ => true
  end.

(** The keys of [vars(parser.parse_args())]: one for each argument of the
    command line. *)
Definition arguments : gset string :=
  {[ "paths"; "config"; "allow_long_titles"; "ignore"; "sphinx";
     "ignore_path"; "max_line_length"; "extension"; "verbose"; "version" ]}.

(** ** More readings of a trace *)

Section Readings.

Context {Self : Type} {world : Collaborators Self}.

(** The checks and the files for which [error_counts.setdefault] was
    called, in order. *)
Definition considered (t : list (event Self))
  : list (check_class Self * ParsedFile) :=
  omap (fun e => match e with Econsider c _ f => Some (c, f) | _ => None end)
    t.

(** How often [error_counts[name] += 1] was run. *)
Definition incrs (name : string) (t : list (event Self)) : nat :=
  length
    (List.filter
       (fun e => match e with Eincr n => bool_decide (n = name) | _ => false end)
       t).

(** What the loop over the files can add to the trace, given the
    dictionary [args] that it passes to [fetch_checks], the ignored
    codes and the files: lines that are printed in verbose mode only,
    violations of these files, and calls for the installed checks and
    these files. *)
Definition run_event (args : pydict) (ignoreables : gset string)
    (files : list ParsedFile) (e : event Self) : Prop :=
  match e with
  | Eprint (OViolation v fn _ code _) =>
      v = verbose args /\ (code ∉ ignoreables) /\
      exists f, f ∈ files /\ fn = filename f
  | Eprint (OValidating f) => verbose args = true /\ f ∈ files
  | Eprint (OSkipExtension _ _) | Eprint (OSkipIgnoreable _)
  | Eprint (ORunning _) => verbose args = true
  | Eprint _ => False
  | Efetch_checks => True
  | Enew c _ cfg => c ∈ check_classes /\ items cfg = items args
  | Econsider c _ f | Eskip c _ f | Edispatch c _ f
  | Ecall_file c _ f _ | Ecall_line c _ f _ _ _ =>
      c ∈ check_classes /\ f ∈ files
  | Eincr name => exists c, c ∈ check_classes /\ name = check_name c
  end.

End Readings.

Section Ledger.

Context {Self : Type}.

(** An event that is neither [error_counts.setdefault] for a check nor
    an increment of a count. *)
Definition silent (e : event Self) : Prop :=
  match e with
  | Econsider _ _ _ | Eincr _ => False
  | _ => True
  end.

(** [error_counts] and the trace agree: the names that have a count are
    the names of the checks that were considered, and the count of a
    name is the number of its increments. *)
Definition ledger (s : state Self) : Prop :=
  forall name,
    (is_Some (error_counts s !! name) <->
     exists c f, (c, f) ∈ considered (trace s) /\ check_name c = name) /\
    default 0%Z (error_counts s !! name) = Z.of_nat (incrs name (trace s)).

End Ledger.

(** ** Checks that report what they declare *)

Section Declared.

Context {Self : Type}.

(** A check that has [REPORTS] yields no other code. *)
Definition truthful (c : check_class Self) : Prop :=
  match REPORTS c with
  | None => True
  | Some reports =>
      match body c with
      | ContentCheck report_iter =>
          forall me f y, y ∈ fst (report_iter me f) -> snd (fst y) ∈ reports
      | LineCheck report_iter =>
          forall me line y, y ∈ fst (report_iter me line) -> fst y ∈ reports
      | OtherCheck => True
      end
  end.

(** A printed line that is not a violation with one of the given
    codes. *)
Definition kept (ignoreables : gset string) (l : out_line) : bool :=
  match l with
  | OViolation _ _ _ code _ => bool_decide (code ∉ ignoreables)
  | _ => true
  end.

End Declared.

Section Narration.

Context {Self : Type}.

(** The lines that are printed and are no violation. *)
Definition narrated (t : list (event Self)) : list out_line :=
  List.filter (fun l => negb (is_violation l)) (output t).

(** What verbose mode says about a check and a file (lines 245, 257 and
    261). *)
Definition decision (ignoreables : gset string) (c : check_class Self)
    (f : ParsedFile) : out_line :=
  if negb (extension_ok c f) then
    OSkipExtension (check_name c) (extension f)
  else if negb (reports_ok ignoreables c) then OSkipIgnoreable (check_name c)
  else ORunning (check_name c).

End Narration.

(** ** A small installation, to run the definitions on *)

Module Demo.

Definition ends_with_space (line : string) : bool :=
  match String.rev line with
  | String a _ => is_space a
  | EmptyString => false
  end.

Definition starts_with_tab (line : string) : bool :=
  match line with
  | String a _ => Ascii.eqb a (Ascii.ascii_of_nat 9)
  | EmptyString => false
  end.

Definition rst_only (ext : string) : bool := String.eqb ext ".rst".

(** The attribute of a check object: the line length it was configured
    with. *)
Definition limit_of (cfg : gmap string pyval) : Z :=
  match cfg !! "max_line_length" with
  | Some (VInt z) => z
  | _ => MAX_LINE_LENGTH
  end.

Definition no_findings : check_body Z :=
  LineCheck (fun me _ => ([], me)).

Definition validity : check_class Z :=
  {| check_name := "CheckValidity";
     EXT_MATCHER := Some rst_only;
     REPORTS := Some ["D000"];
     init := limit_of;
     body := ContentCheck (fun me _ => ([], me)) |}.

Definition trailing_whitespace : check_class Z :=
  {| check_name := "CheckTrailingWhitespace";
     EXT_MATCHER := None;
     REPORTS := Some ["D002"];
     init := limit_of;
     body :=
       LineCheck (fun me line =>
         (if ends_with_space line then [("D002", "Trailing whitespace")]
          else [], me)) |}.

Definition indentation_no_tab : check_class Z :=
  {| check_name := "CheckIndentationNoTab";
     EXT_MATCHER := None;
     REPORTS := Some ["D003"];
     init := limit_of;
     body :=
       LineCheck (fun me line =>
         (if starts_with_tab line then [("D003", "Tabulation used")]
          else [], me)) |}.

Definition carriage_return : check_class Z :=
  {| check_name := "CheckCarriageReturn";
     EXT_MATCHER := None;
     REPORTS := Some ["D004"];
     init := limit_of;
     body := no_findings |}.

Definition max_line_length : check_class Z :=
  {| check_name := "CheckMaxLineLength";
     EXT_MATCHER := None;
     REPORTS := Some ["D001"];
     init := limit_of;
     body :=
       LineCheck (fun me line =>
         (if (me <? Z.of_nat (String.length line))%Z
          then [("D001", "Line too long")] else [], me)) |}.

(** A plugin that is neither a [ContentCheck] nor a [LineCheck]. *)
Definition stray (matcher : option (string -> bool))
    (reports : option (list string)) : check_class Z :=
  {| check_name := "Stray";
     EXT_MATCHER := matcher;
     REPORTS := reports;
     init := limit_of;
     body := OtherCheck |}.

Definition no_option : RawConfigParser :=
  {| get := fun _ _ => inl NoSectionError;
     getint := fun _ _ => inl NoSectionError;
     getboolean := fun _ _ => inl NoSectionError |}.

(** A configuration file with
    [[doc8]
     max-line-length = ...
     allow-long-titles = ...
     verbose = ...] *)
Definition ini (max_line_length : Z) (allow_long_titles verbosely : bool)
  : RawConfigParser :=
  {| get := fun _ _ => inl NoOptionError;
     getint := fun section option =>
       if String.eqb section "doc8" && String.eqb option "max-line-length"
       then inr max_line_length else inl NoOptionError;
     getboolean := fun section option =>
       if String.eqb section "doc8" && String.eqb option "allow-long-titles"
       then inr allow_long_titles
       else if String.eqb section "doc8" && String.eqb option "verbose"
       then inr verbosely
       else inl NoOptionError |}.

(** Two files: [a.rst], with a line that ends in a blank, and [b.txt],
    with a line that starts with a tab. *)
Definition the_files (fn : string) : ParsedFile :=
  if String.eqb fn "a.rst" then
    {| filename := fn; extension := ".rst";
       lines_iter := ["Title"; "====="; "text "] |}
  else
    {| filename := fn; extension := ".txt";
       lines_iter := [String (Ascii.ascii_of_nat 9) "x"] |}.

Definition installation (plugins : list (check_class Z))
    (found : list (string * bool)) (parser : RawConfigParser)
    (read_files : list string) : Collaborators Z :=
  {| CheckValidity := validity;
     CheckTrailingWhitespace := trailing_whitespace;
     CheckIndentationNoTab := indentation_no_tab;
     CheckCarriageReturn := carriage_return;
     CheckMaxLineLength := max_line_length;
     extensions := plugins;
     find_files := fun _ _ _ => found;
     parse := the_files;
     readfp_all := fun _ => inr parser;
     read := fun _ => (parser, read_files) |}.

(** The command line [doc8] with no argument, and some variations. *)
Definition defaults : Namespace :=
  {| ns_paths := ["."];
     ns_config := [];
     ns_allow_long_titles := false;
     ns_ignore := [];
     ns_sphinx := true;
     ns_ignore_path := [];
     ns_max_line_length := MAX_LINE_LENGTH;
     ns_extension := FILE_PATTERNS;
     ns_verbose := false;
     ns_version := false |}.

(** The command line
    [doc8 --max-line-length 100 --allow-long-titles -v]. *)
Definition long_lines : Namespace :=
  {| ns_paths := ["."];
     ns_config := [];
     ns_allow_long_titles := true;
     ns_ignore := [];
     ns_sphinx := true;
     ns_ignore_path := [];
     ns_max_line_length := 100;
     ns_extension := FILE_PATTERNS;
     ns_verbose := true;
     ns_version := false |}.

(** A finished configuration, as [configure] leaves it, with the given
    ignored codes. *)
Definition finished (codes : list string) : gmap string pyval :=
  list_to_map
    [("paths", VList ["."]);
     ("config", VList []);
     ("allow_long_titles", VBool false);
     ("ignore", VSet (list_to_set codes));
     ("sphinx", VBool true);
     ("ignore_path", VList []);
     ("max_line_length", VInt MAX_LINE_LENGTH);
     ("extension", VList FILE_PATTERNS);
     ("verbose", VBool false);
     ("version", VBool false)].

(** Installations: with the two files, without plugin and without
    configuration file; with [b.txt] only and a plugin that is of
    neither kind; with one ignoreable file; with the configuration file
    [doc8.ini]. *)
Definition plain : Collaborators Z :=
  installation [] [("a.rst", false); ("b.txt", false)] no_option [].

Definition with_stray (matcher : option (string -> bool))
  : Collaborators Z :=
  installation [stray matcher None] [("b.txt", false)] no_option [].

Definition nothing_selected : Collaborators Z :=
  installation [] [("c.txt", true)] no_option [].

Definition with_ini : Collaborators Z :=
  installation [] [] (ini 90 false false) ["doc8.ini"].

(** The command line [doc8 --version], and a finished configuration in
    verbose mode. *)
Definition asking_version : Namespace :=
  {| ns_paths := ["."];
     ns_config := [];
     ns_allow_long_titles := false;
     ns_ignore := [];
     ns_sphinx := true;
     ns_ignore_path := [];
     ns_max_line_length := MAX_LINE_LENGTH;
     ns_extension := FILE_PATTERNS;
     ns_verbose := false;
     ns_version := true |}.

Definition finished_verbosely : gmap string pyval :=
  <["verbose" := VBool true]> (finished []).

End Demo.

(** * Properties *)

Section Properties.

Context {Self : Type} {world : Collaborators Self}.

Local Abbreviation check_class := (check_class Self).
Local Abbreviation instance := (instance Self).
Local Abbreviation event := (event Self).
Local Abbreviation state := (state Self).
Local Abbreviation M := (M Self).
Local Abbreviation initial_state := (@initial_state Self).
Local Abbreviation Inv := (@Inv Self).
Local Abbreviation Running := (@Running Self).
Local Abbreviation Ready := (@Ready Self).
Local Abbreviation Between := (@Between Self).
Local Abbreviation Considered := (@Considered Self).

(** ** Reasoning about computations *)

Lemma hoare_ret {A} (P : state -> Prop) (a : A) Q :
  (forall s, P s -> Q (inr a) s) -> hoare P (ret a) Q.
Proof. intros HQ s HP. apply HQ, HP. Qed.

Lemma hoare_raise {A} (P : state -> Prop) e (Q : exn + A -> state -> Prop) :
  (forall s, P s -> Q (inl e) s) -> hoare P (raise e) Q.
Proof. intros HQ s HP. apply HQ, HP. Qed.

Lemma hoare_bind {A B} (P : state -> Prop) (m : M A) (k : A -> M B) R Q :
  hoare P m R ->
  (forall e s, R (inl e) s -> Q (inl e) s) ->
  (forall a, hoare (R (inr a)) (k a) Q) ->
  hoare P (bind m k) Q.
Proof.
  intros Hm He Hk s HP. specialize (Hm s HP). unfold bind.
  destruct (m s) as [s' [e|a]]; simpl in *.
  - apply He, Hm.
  - apply Hk, Hm.
Qed.

Lemma hoare_consequence {A} (P P' : state -> Prop) (m : M A)
    (Q Q' : exn + A -> state -> Prop) :
  hoare P' m Q' ->
  (forall s, P s -> P' s) ->
  (forall r s, Q' r s -> Q r s) ->
  hoare P m Q.
Proof. intros Hm HP HQ s Hs. apply HQ, Hm, HP, Hs. Qed.

Lemma hoare_seq {A B} (P : state -> Prop) (m : M A) (k : A -> M B) R Q :
  hoare P m (returns R) ->
  (forall a, hoare (R a) (k a) Q) ->
  hoare P (bind m k) Q.
Proof.
  intros Hm Hk s HP. destruct (Hm s HP) as (a & Hr & HR). unfold bind.
  destruct (m s) as [s' r]. simpl in *. subst r. by apply Hk.
Qed.

Lemma hoare_log (P : state -> Prop) (e : event) (R : state -> Prop) :
  (forall s, P s -> R (append [e] s)) ->
  hoare P (log e) (returns (fun _ => R)).
Proof. intros HR s HP. exists tt. split; [done|]. by apply HR. Qed.

Lemma hoare_when (P : state -> Prop) b (m : M unit) (R : state -> Prop) :
  (b = true -> hoare P m (returns (fun _ => R))) ->
  (b = false -> forall s, P s -> R s) ->
  hoare P (when b m) (returns (fun _ => R)).
Proof.
  destruct b; simpl; intros Hm Hs; [by apply Hm|].
  intros s HP. exists tt. split; [done|]. by apply Hs.
Qed.

(** A loop, with an invariant that may speak of the elements that are
    left. *)
Lemma hoare_for_each {A} (I : list A -> state -> Prop) (lb : A -> M unit)
    Q (l : list A) :
  (forall x l', hoare (I (x :: l')) (lb x)
     (fun r s => match r with inr _ => I l' s | inl e => Q (inl e) s end)) ->
  (forall s, I [] s -> Q (inr tt) s) ->
  hoare (I l) (for_each l lb) Q.
Proof.
  intros Hb Hend. induction l as [|x l IH]; simpl.
  - apply hoare_ret, Hend.
  - eapply hoare_bind; [apply Hb | | intros []; apply IH].
    intros e s He. exact He.
Qed.

Lemma preserves_bind {A B} (I : state -> Prop) (m : M A) (k : A -> M B) :
  preserves I m -> (forall a, preserves I (k a)) -> preserves I (bind m k).
Proof. intros Hm Hk. eapply hoare_bind; [apply Hm | auto | apply Hk]. Qed.

Lemma preserves_ret {A} (I : state -> Prop) (a : A) : preserves I (ret a).
Proof. apply hoare_ret. auto. Qed.

Lemma preserves_raise {A} (I : state -> Prop) e :
  preserves I (raise (A := A) e).
Proof. apply hoare_raise. auto. Qed.

Lemma preserves_when (I : state -> Prop) b m :
  preserves I m -> preserves I (when b m).
Proof. destruct b; [auto | intros _; apply preserves_ret]. Qed.

Lemma preserves_for_each {A} (I : state -> Prop) (lb : A -> M unit) l :
  (forall x, x ∈ l -> preserves I (lb x)) -> preserves I (for_each l lb).
Proof.
  induction l as [|x l IH]; intros Hb; simpl.
  - apply preserves_ret.
  - apply preserves_bind; [apply Hb; left | intros _; apply IH].
    intros y Hy. apply Hb. by right.
Qed.

(** ** Traces *)

Lemma output_app (t d : list event) : output (t ++ d) = output t ++ output d.
Proof. apply omap_app. Qed.

Lemma violations_app (t d : list event) :
  violations (t ++ d) = violations t ++ violations d.
Proof. unfold violations. by rewrite output_app, List.filter_app. Qed.

Lemma considered_ids_app (t d : list event) :
  considered_ids (t ++ d) = considered_ids t ++ considered_ids d.
Proof. apply omap_app. Qed.

Lemma counting_of_app (t d : list event) :
  counting_of (t ++ d) = foldl count_step (counting_of t) d.
Proof. apply foldl_app. Qed.

Lemma count_step_bad (d : list event) : foldl count_step Bad d = Bad.
Proof. induction d as [|e d IH]; [done | apply IH]. Qed.

Lemma last_called_app (t : list event) e :
  last_called (t ++ [e]) =
  match e with
  | Ecall_file c _ _ _ | Ecall_line c _ _ _ _ _ => Some (check_name c)
  | _ => last_called t
  end.
Proof. unfold last_called. by rewrite foldl_app. Qed.

Lemma considered_first_snoc (t : list event) e :
  considered_first t ->
  (forall c id f, decides e c id f -> In (Econsider c id f) t) ->
  considered_first (t ++ [e]).
Proof.
  intros Ht He pre e' post c id f Heq Hd.
  destruct post as [|x post' _] using rev_ind.
  - apply (app_inj_2 _ _ _ [e']) in Heq as [-> [= ->]]; [|done].
    by apply He.
  - change (pre ++ e' :: post' ++ [x]) with (pre ++ (e' :: post') ++ [x]) in Heq.
    rewrite app_assoc in Heq.
    apply (app_inj_2 _ _ [e] [x]) in Heq as [-> _]; [|done].
    by eapply Ht.
Qed.

(** ** The total of the counts *)

Lemma total_empty : total ∅ = 0%Z.
Proof. apply map_fold_empty. Qed.

Lemma total_insert (counts : gmap string Z) name n :
  counts !! name = None ->
  total (<[name := n]> counts) = (total counts + n)%Z.
Proof.
  intros Hn. unfold total. rewrite map_fold_insert_L; [done | | done].
  intros. lia.
Qed.

Lemma total_incr (counts : gmap string Z) name n :
  counts !! name = Some n ->
  total (<[name := (n + 1)%Z]> counts) = (total counts + 1)%Z.
Proof.
  intros Hn. rewrite <- (insert_delete_eq counts).
  replace (total counts) with (total (<[name := n]> (delete name counts)))
    by (f_equal; by apply insert_delete_id).
  rewrite !total_insert by apply lookup_delete_eq. lia.
Qed.

(** ** How the steps of a run keep the invariant *)

Section Steps.

Variable ignoreables : gset string.

Lemma Inv_initial : Inv ignoreables None initial_state.
Proof.
  split.
  - constructor.
  - done.
  - intros [|? ?] ? ? ? ? ? ?; discriminate.
  - apply total_empty.
  - apply map_Forall_empty.
  - intros c id f [].
  - constructor.
  - constructor.
Qed.

Lemma Inv_quiet cur (s : state) (e : event) :
  quiet e -> Inv ignoreables cur s -> Inv ignoreables cur (append [e] s).
Proof.
  intros Hq [H1 H2 H3 H4 H5 H6 H7 H8]. split; simpl.
  - apply Forall_app; split; [done|]. constructor; [|done].
    destruct e as [[]| | | | | | | |]; simpl in *; done.
  - rewrite counting_of_app, H2.
    destruct e as [[]| | | | | | | |]; simpl in *; done.
  - apply considered_first_snoc; [done|].
    intros c id f [-> | ->]; destruct Hq.
  - rewrite violations_app, length_app, H4.
    destruct e as [[]| | | | | | | |]; simpl in *; try done; lia.
  - done.
  - intros c id f [Hin|[Heq|[]]]%in_app_or; [by eapply H6|].
    subst e. destruct Hq.
  - rewrite considered_ids_app.
    destruct e as [[]| | | | | | | |]; simpl in *; try done;
      by rewrite app_nil_r.
  - rewrite considered_ids_app.
    destruct e as [[]| | | | | | | |]; simpl in *; try done;
      by rewrite app_nil_r.
Qed.

Lemma Inv_setdefault cur (s : state) name :
  error_counts s !! name = None ->
  Inv ignoreables cur s ->
  Inv ignoreables cur
    {| error_counts := <[name := 0%Z]> (error_counts s);
       trace := trace s; next_id := next_id s |}.
Proof.
  intros Hn [H1 H2 H3 H4 H5 H6 H7 H8]. split; simpl; try done.
  - rewrite total_insert by done. lia.
  - by apply map_Forall_insert_2.
  - intros c id f Hin. destruct (H6 c id f Hin) as [n Hc].
    destruct (decide (name = check_name c)) as [->|Hne].
    + rewrite lookup_insert_eq. by eexists.
    + rewrite lookup_insert_ne by done. by eexists.
Qed.

Lemma Inv_fresh cur (s : state) :
  Inv ignoreables cur s ->
  Inv ignoreables cur
    {| error_counts := error_counts s; trace := trace s;
       next_id := S (next_id s) |}.
Proof.
  intros [H1 H2 H3 H4 H5 H6 H7 H8]. split; simpl; try done.
  eapply Forall_impl; [exact H8|]. simpl. lia.
Qed.

Lemma Inv_consider cur (s : state) c id f :
  is_Some (error_counts s !! check_name c) ->
  id ∉ considered_ids (trace s) ->
  id < next_id s ->
  Inv ignoreables cur s ->
  Inv ignoreables cur (append [Econsider c id f] s).
Proof.
  intros Hc Hid Hlt [H1 H2 H3 H4 H5 H6 H7 H8]. split; simpl.
  - apply Forall_app; split; [done|]. by repeat constructor.
  - by rewrite counting_of_app, H2.
  - apply considered_first_snoc; [done|].
    intros c' id' f' [?|?]; discriminate.
  - by rewrite violations_app, length_app, H4, Nat.add_0_r.
  - done.
  - intros c' id' f' [Hin|[Heq|[]]]%in_app_or; [by eapply H6|].
    by injection Heq as <- _ _.
  - rewrite considered_ids_app. apply NoDup_app; split_and!; [done | |].
    + intros x Hx [->|[]%elem_of_nil]%elem_of_cons. done.
    + apply NoDup_singleton.
  - rewrite considered_ids_app. apply Forall_app; split; [done|].
    by repeat constructor.
Qed.

Lemma Inv_decide cur (s : state) e c id f :
  decides e c id f ->
  In (Econsider c id f) (trace s) ->
  ev_ok ignoreables e ->
  Inv ignoreables cur s ->
  Inv ignoreables cur (append [e] s).
Proof.
  intros Hd Hin Hok [H1 H2 H3 H4 H5 H6 H7 H8]. split; simpl.
  - apply Forall_app; split; [done|]. by repeat constructor.
  - rewrite counting_of_app, H2. by destruct Hd as [-> | ->].
  - apply considered_first_snoc; [done|].
    intros c' id' f' Hd'.
    destruct Hd as [-> | ->], Hd' as [Heq|Heq]; try discriminate;
      by injection Heq as <- <- <-.
  - rewrite violations_app, length_app, H4.
    destruct Hd as [-> | ->]; simpl; lia.
  - done.
  - intros c' id' f' [Hin'|[Heq|[]]]%in_app_or; [by eapply H6|].
    destruct Hd as [-> | ->]; discriminate.
  - rewrite considered_ids_app.
    destruct Hd as [-> | ->]; simpl; by rewrite app_nil_r.
  - rewrite considered_ids_app.
    destruct Hd as [-> | ->]; simpl; by rewrite app_nil_r.
Qed.

Lemma Inv_call cur (s : state) e c :
  calls e c ->
  ev_ok ignoreables e ->
  Inv ignoreables cur s ->
  Inv ignoreables (Some (check_name c)) (append [e] s).
Proof.
  intros Hc Hok [H1 H2 H3 H4 H5 H6 H7 H8].
  assert (output [e] = [] /\ considered_ids [e] = [] /\
          (forall c' id f, ~ decides e c' id f) /\
          (forall c' id f, e <> Econsider c' id f) /\
          count_step (Idle cur) e = Idle (Some (check_name c)))
    as (Ho & Hi & Hd & Hne & Hs).
  { destruct e; try done; simpl in Hc; subst;
      (split_and!; [done | done | by intros ??? [?|?] | done | done]). }
  split; simpl.
  - apply Forall_app; split; [done|]. by repeat constructor.
  - by rewrite counting_of_app, H2.
  - apply considered_first_snoc; [done|].
    intros c' id' f' Hd'. by apply Hd in Hd'.
  - unfold violations in *. by rewrite output_app, Ho, app_nil_r.
  - done.
  - intros c' id' f' [Hin'|[Heq|[]]]%in_app_or; [by eapply H6|].
    by apply Hne in Heq.
  - by rewrite considered_ids_app, Hi, app_nil_r.
  - by rewrite considered_ids_app, Hi, app_nil_r.
Qed.

Lemma Inv_emit (s : state) verbosely name fn line_num code message n :
  error_counts s !! name = Some n ->
  code ∉ ignoreables ->
  Inv ignoreables (Some name) s ->
  Inv ignoreables (Some name)
    {| error_counts := <[name := (n + 1)%Z]> (error_counts s);
       trace := trace s ++
         [Eprint (OViolation verbosely fn line_num code message); Eincr name];
       next_id := next_id s |}.
Proof.
  intros Hn Hcode [H1 H2 H3 H4 H5 H6 H7 H8].
  split; cbn [trace error_counts next_id].
  - apply Forall_app; split; [done|]. by repeat constructor.
  - rewrite counting_of_app, H2. simpl. by rewrite decide_True.
  - change [?a; ?b] with ([a] ++ [b]). rewrite app_assoc.
    apply considered_first_snoc; [apply considered_first_snoc; [done|]|];
      intros c' id' f' [?|?]; discriminate.
  - rewrite violations_app, length_app, Nat2Z.inj_add, <- H4.
    rewrite (total_incr _ _ n) by done. done.
  - apply map_Forall_insert_2; [|done].
    specialize (H5 name n Hn). simpl in H5. lia.
  - intros c' id' f' [Hin'|Hin']%in_app_or.
    + destruct (H6 c' id' f' Hin') as [m Hm].
      destruct (decide (name = check_name c')) as [->|Hne].
      * rewrite lookup_insert_eq. by eexists.
      * rewrite lookup_insert_ne by done. by eexists.
    + destruct Hin' as [?|[?|[]]]; discriminate.
  - by rewrite considered_ids_app, app_nil_r.
  - by rewrite considered_ids_app, app_nil_r.
Qed.

End Steps.

(** ** The dispatch loop keeps the invariant *)

Section Loop_invariant.

Variable args : pydict.
Variable ignoreables : gset string.

Lemma emit_eq name f line_num code message (s : state) n :
  error_counts s !! name = Some n ->
  emit args ignoreables name f line_num code message s =
  (if bool_decide (code ∈ ignoreables) then s
   else
     {| error_counts := <[name := (n + 1)%Z]> (error_counts s);
        trace := trace s ++
          [Eprint (OViolation (verbose args) (filename f) line_num code
                     message);
           Eincr name];
        next_id := next_id s |}, inr tt).
Proof.
  intros Hn. unfold emit. case_bool_decide; [done|].
  unfold bind, print, log, incr. simpl. rewrite Hn.
  by rewrite <- app_assoc.
Qed.

Lemma emit_hoare name ids n0 f line_num code message :
  hoare (Running ignoreables name ids n0)
    (emit args ignoreables name f line_num code message)
    (returns (fun _ => Running ignoreables name ids n0)).
Proof.
  intros s (HI & [n Hn] & Hids & Hnext).
  rewrite (emit_eq _ _ _ _ _ _ n) by done. exists tt.
  case_bool_decide as Hc; simpl.
  - split; [done|]. split_and!; eauto.
  - split; [done|]. split_and!; simpl.
    + by apply Inv_emit.
    + rewrite lookup_insert_eq. by eexists.
    + by rewrite considered_ids_app, app_nil_r.
    + done.
Qed.

Lemma emit_all_hoare {A} name ids n0 (ys : list A) (lb : A -> M unit) :
  (forall y, hoare (Running ignoreables name ids n0) (lb y)
     (returns (fun _ => Running ignoreables name ids n0))) ->
  hoare (Running ignoreables name ids n0) (for_each ys lb)
    (returns (fun _ => Running ignoreables name ids n0)).
Proof.
  intros Hb.
  apply (hoare_for_each (fun _ => Running ignoreables name ids n0)).
  - intros y _ s Hs. by destruct (Hb y s Hs) as ([] & -> & ?).
  - intros s Hs. by exists tt.
Qed.

Lemma Running_Ready name ids n0 (s : state) :
  Running ignoreables name ids n0 s -> Ready ignoreables name ids n0 s.
Proof. intros (? & ? & ? & ?). by eexists. Qed.

Lemma call_hoare e c ids n0 :
  calls e c -> ev_ok ignoreables e ->
  hoare (Ready ignoreables (check_name c) ids n0) (log e)
    (returns (fun _ => Running ignoreables (check_name c) ids n0)).
Proof.
  intros Hc Hok. apply hoare_log. intros s (cur & HI & Hk & Hids & Hn).
  split_and!; simpl; try done.
  - by eapply Inv_call.
  - rewrite considered_ids_app, <- Hids. destruct e; try done; apply app_nil_r.
Qed.

Lemma line_loop_hoare c id report_iter f ids n0 lines : forall line_num me,
  applicable ignoreables c f = true ->
  hoare (Ready ignoreables (check_name c) ids n0)
    (line_loop args ignoreables c id report_iter f line_num lines me)
    (returns (fun _ => Ready ignoreables (check_name c) ids n0)).
Proof.
  induction lines as [|line lines IH]; intros line_num me Hok; simpl.
  - apply hoare_ret. intros s Hs. by exists tt.
  - destruct (report_iter me line) as [yielded me'].
    apply andb_prop in Hok as Hok'.
    eapply hoare_seq; [by apply (call_hoare _ c)|]. intros [].
    eapply hoare_seq.
    + apply emit_all_hoare. intros [code message]. apply emit_hoare.
    + intros []. eapply hoare_consequence; [by apply IH | |done].
      apply Running_Ready.
Qed.

Lemma dispatch_hoare f (c : instance) ids n0 :
  applicable ignoreables (cls c) f = true ->
  hoare (Ready ignoreables (check_name (cls c)) ids n0)
    (dispatch args ignoreables f c)
    (fun r s =>
       r = (if is_other (cls c) then inl TypeError else inr tt) /\
       Ready ignoreables (check_name (cls c)) ids n0 s).
Proof.
  intros Hok. unfold dispatch, is_other.
  destruct (body (cls c)) as [report_iter|report_iter|].
  - destruct (report_iter (self c) f) as [yielded me'].
    apply andb_prop in Hok as Hok'.
    eapply hoare_seq; [by apply (call_hoare _ (cls c))|]. intros [].
    eapply hoare_consequence;
      [apply emit_all_hoare; intros [[line_num code] message];
       apply emit_hoare | done |].
    intros r s ([] & -> & Hs). split; [done|]. by apply Running_Ready.
  - eapply hoare_consequence; [by apply line_loop_hoare | done |].
    by intros r s ([] & -> & Hs).
  - by apply hoare_raise.
Qed.

Lemma setdefault_hoare name ids n0 :
  hoare (Between ignoreables ids n0) (setdefault name 0)
    (returns (fun _ => Ready ignoreables name ids n0)).
Proof.
  intros s ((cur & HI) & Hids & Hn). exists tt. unfold setdefault.
  destruct (error_counts s !! name) as [n|] eqn:E; simpl.
  - split; [done|]. exists cur. split_and!; try done; by eexists.
  - split; [done|]. exists cur. split_and!; simpl; try done.
    + by apply Inv_setdefault.
    + rewrite lookup_insert_eq. by eexists.
Qed.

Lemma consider_hoare c id f ids n0 :
  id ∉ ids -> id < n0 ->
  hoare (Ready ignoreables (check_name c) ids n0) (log (Econsider c id f))
    (returns (fun _ => Considered ignoreables c id f (ids ++ [id]) n0)).
Proof.
  intros Hid Hlt. apply hoare_log. intros s (cur & HI & Hk & Hids & Hn).
  subst ids n0. split.
  - exists cur. split_and!; simpl; try done.
    + by apply Inv_consider.
    + by rewrite considered_ids_app.
  - simpl. apply in_or_app. right. by left.
Qed.

Lemma Considered_quiet c id f ids n0 e :
  quiet e ->
  hoare (Considered ignoreables c id f ids n0) (log e)
    (returns (fun _ => Considered ignoreables c id f ids n0)).
Proof.
  intros Hq. apply hoare_log. intros s [(cur & HI & Hk & Hids & Hn) Hin].
  split.
  - exists cur. split_and!; simpl; try done.
    + by apply Inv_quiet.
    + rewrite considered_ids_app, Hids.
      destruct e as [[]| | | | | | | |]; try done; apply app_nil_r.
  - simpl. apply in_or_app. by left.
Qed.

Lemma Considered_decide c id f ids n0 e :
  decides e c id f -> ev_ok ignoreables e ->
  hoare (Considered ignoreables c id f ids n0) (log e)
    (returns (fun _ => Ready ignoreables (check_name c) ids n0)).
Proof.
  intros Hd Hok. apply hoare_log.
  intros s [(cur & HI & Hk & Hids & Hn) Hin].
  exists cur. split_and!; simpl; try done.
  - by eapply Inv_decide.
  - rewrite considered_ids_app, Hids. destruct Hd as [-> | ->]; apply app_nil_r.
Qed.

Lemma Ready_Between name ids n0 (s : state) :
  Ready ignoreables name ids n0 s -> Between ignoreables ids n0 s.
Proof. intros (cur & ? & ? & ? & ?). split; [by exists cur | done]. Qed.

Lemma run_check_hoare f (c : instance) ids n0 :
  obj_id c ∉ ids -> obj_id c < n0 ->
  hoare (Between ignoreables ids n0) (run_check args ignoreables f c)
    (fun r s =>
       r = (if applicable ignoreables (cls c) f && is_other (cls c)
            then inl TypeError else inr tt) /\
       Between ignoreables (ids ++ [obj_id c]) n0 s).
Proof.
  intros Hid Hlt. unfold run_check, applicable.
  eapply hoare_seq; [apply setdefault_hoare|]. intros [].
  eapply hoare_seq; [by apply consider_hoare|]. intros [].
  destruct (extension_ok (cls c) f) eqn:Hext; simpl.
  2: { eapply hoare_seq.
       - apply hoare_when; [intros _; by apply Considered_quiet | done].
       - intros []. eapply hoare_consequence;
           [apply (Considered_decide (cls c) (obj_id c) f) | done |].
         + by left.
         + simpl. by left.
         + intros r s ([] & -> & Hs). split; [done|].
           by eapply Ready_Between. }
  destruct (reports_ok ignoreables (cls c)) eqn:Hrep; simpl.
  2: { eapply hoare_seq.
       - apply hoare_when; [intros _; by apply Considered_quiet | done].
       - intros []. eapply hoare_consequence;
           [apply (Considered_decide (cls c) (obj_id c) f) | done |].
         + by left.
         + simpl. by right.
         + intros r s ([] & -> & Hs). split; [done|].
           by eapply Ready_Between. }
  eapply hoare_seq.
  { apply hoare_when; [intros _; by apply Considered_quiet | done]. }
  intros []. eapply hoare_seq.
  { apply (Considered_decide (cls c) (obj_id c) f); [by right | done]. }
  intros []. eapply hoare_consequence; [apply dispatch_hoare | done |].
  - unfold applicable. by rewrite Hext, Hrep.
  - intros r s [-> Hs]. split; [done|]. by eapply Ready_Between.
Qed.

End Loop_invariant.

(** ** [fetch_checks] *)

Lemma construct_eq klass cfg (s : state) :
  construct klass cfg s =
  ({| error_counts := error_counts s;
      trace := trace s ++ [Enew klass (next_id s) cfg];
      next_id := S (next_id s) |}, inr (built klass (next_id s) cfg)).
Proof. done. Qed.

Lemma imap_built_S (plugins : list check_class) cp n :
  imap (fun i p => built p (S n + i) cp) plugins =
  imap ((fun i p => built p (n + i) cp) ∘ S) plugins.
Proof. apply imap_ext. intros i x _. simpl. f_equal. lia. Qed.

Lemma invoke_all_eq (plugins : list check_class) cp : forall s : state,
  invoke_all plugins cp s =
  ({| error_counts := error_counts s;
      trace := trace s ++
        (constructed <$> imap (fun i p => built p (next_id s + i) cp) plugins);
      next_id := next_id s + length plugins |},
   inr (imap (fun i p => built p (next_id s + i) cp) plugins)).
Proof.
  induction plugins as [|p ps IH]; intros s.
  - simpl. unfold ret. destruct s; simpl. by rewrite app_nil_r, Nat.add_0_r.
  - cbn [invoke_all]. unfold bind at 1. rewrite construct_eq.
    unfold bind at 1. rewrite IH. cbn [error_counts trace next_id].
    unfold ret. cbn [imap length fmap list_fmap].
    rewrite <- imap_built_S, <- app_assoc, Nat.add_0_r, Nat.add_succ_r.
    done.
Qed.

Lemma fetch_checks_eq cfg (s : state) :
  fetch_checks cfg s =
  ({| error_counts := error_counts s;
      trace := trace s ++
        Efetch_checks :: (constructed <$> fetched cfg (next_id s));
      next_id := next_id s + 6 + length extensions |},
   inr (fetched cfg (next_id s))).
Proof.
  unfold fetch_checks. unfold bind at 1. unfold log at 1. cbn [fst snd].
  do 5 (unfold bind at 1; rewrite construct_eq).
  unfold bind at 1. unfold copy, bind, fresh, ret.
  cbn [error_counts trace next_id].
  rewrite invoke_all_eq. cbn [error_counts trace next_id].
  unfold fetched, copied. rewrite <- !app_assoc, fmap_app.
  replace (S (S (S (S (S (S (next_id s))))))) with (next_id s + 6) by lia.
  replace (S (S (S (S (S (next_id s)))))) with (next_id s + 5) by lia.
  replace (S (S (S (S (next_id s))))) with (next_id s + 4) by lia.
  replace (S (S (S (next_id s)))) with (next_id s + 3) by lia.
  replace (S (S (next_id s))) with (next_id s + 2) by lia.
  replace (S (next_id s)) with (next_id s + 1) by lia.
  done.
Qed.

Lemma fetched_classes cfg n : cls <$> fetched cfg n = check_classes.
Proof.
  unfold fetched, check_classes. rewrite fmap_app. f_equal.
  rewrite fmap_imap. etrans; [apply (imap_const id)|]. apply list_fmap_id.
Qed.

Lemma fetched_obj_ids cfg n :
  obj_id <$> fetched cfg n =
  [n; n + 1; n + 2; n + 3; n + 4] ++ seq (n + 6) (length extensions).
Proof.
  unfold fetched. rewrite fmap_app, fmap_imap. f_equal.
  etrans; [apply (imap_seq _ id)|]. apply list_fmap_id.
Qed.

Lemma fetched_ids cfg n (c : instance) :
  c ∈ fetched cfg n -> n <= obj_id c < n + 6 + length extensions.
Proof.
  intros Hc%(list_elem_of_fmap_2 obj_id). rewrite fetched_obj_ids in Hc.
  apply elem_of_app in Hc as [Hc|Hc%elem_of_seq]; [|lia].
  repeat (apply elem_of_cons in Hc as [->|Hc]; [lia|]).
  by apply elem_of_nil in Hc.
Qed.

Lemma fetched_NoDup cfg n : NoDup (obj_id <$> fetched cfg n).
Proof.
  rewrite fetched_obj_ids. apply NoDup_app. split_and!.
  - repeat (constructor;
            [rewrite ?elem_of_cons, elem_of_nil; lia|]). constructor.
  - intros x Hx Hs%elem_of_seq.
    repeat (apply elem_of_cons in Hx as [->|Hx]; [lia|]).
    by apply elem_of_nil in Hx.
  - apply NoDup_seq.
Qed.

Lemma fetched_quiet cfg n :
  Forall quiet (Efetch_checks :: (constructed <$> fetched cfg n)).
Proof.
  constructor; [done|]. apply Forall_fmap, Forall_forall. by intros c _.
Qed.

(** ** The loops over the checks and over the files *)

Lemma append_app (d1 d2 : list event) (s : state) :
  append (d1 ++ d2) s = append d2 (append d1 s).
Proof. unfold append. simpl. by rewrite app_assoc. Qed.

Lemma Inv_quiet_all ignoreables cur (d : list event) : forall s : state,
  Forall quiet d -> Inv ignoreables cur s -> Inv ignoreables cur (append d s).
Proof.
  induction d as [|e d IH]; intros s Hq HI.
  - unfold append. rewrite app_nil_r. by destruct s.
  - apply Forall_cons in Hq as [He Hd].
    change (e :: d) with ([e] ++ d). rewrite append_app.
    apply IH; [done|]. by apply Inv_quiet.
Qed.

Lemma considered_ids_quiet (d : list event) :
  Forall quiet d -> considered_ids d = [].
Proof.
  induction 1 as [|e d He _ IH]; [done|].
  change (e :: d) with ([e] ++ d). rewrite considered_ids_app, IH.
  by destruct e as [[]| | | | | | | |].
Qed.

Lemma Inv_bump ignoreables cur (s : state) n :
  next_id s <= n ->
  Inv ignoreables cur s ->
  Inv ignoreables cur
    {| error_counts := error_counts s; trace := trace s; next_id := n |}.
Proof.
  intros Hn [H1 H2 H3 H4 H5 H6 H7 H8]. split; simpl; try done.
  eapply Forall_impl; [exact H8|]. simpl. lia.
Qed.

Section Run_invariant.

Variable args : pydict.
Variable ignoreables : gset string.

Lemma checks_hoare f (checks : list instance) ids n0 :
  NoDup (obj_id <$> checks) ->
  Forall (fun c => (obj_id c ∉ ids) /\ obj_id c < n0) checks ->
  hoare (Between ignoreables ids n0)
    (for_each checks (run_check args ignoreables f))
    (fun r s =>
       r = (if existsb (stops ignoreables f) (cls <$> checks)
            then inl TypeError else inr tt) /\
       exists cur, Inv ignoreables cur s).
Proof.
  intros Hnd Hall.
  eapply hoare_consequence; [|intros s Hs|intros r s Hs; exact Hs].
  apply (hoare_for_each
    (fun rest s => exists done,
       done ++ rest = checks /\
       existsb (stops ignoreables f) (cls <$> done) = false /\
       Between ignoreables (ids ++ (obj_id <$> done)) n0 s)).
  - intros c rest s (done & Hsplit & Hdone & Hs).
    assert ((obj_id c ∉ ids ++ (obj_id <$> done)) /\ obj_id c < n0)
      as [Hid Hlt].
    { subst checks. apply Forall_app in Hall as [_ [[Hc ?] _]%Forall_cons].
      split; [|done]. rewrite fmap_app, fmap_cons in Hnd.
      apply NoDup_app in Hnd as (_ & Hd & _).
      intros [?|Hin]%elem_of_app; [done|].
      apply (Hd _ Hin). by left. }
    destruct (run_check_hoare args ignoreables f c _ _ Hid Hlt s Hs)
      as [-> Hs'].
    fold (stops ignoreables f (cls c)).
    destruct (stops ignoreables f (cls c)) eqn:Hstop.
    + split; [|by destruct Hs'].
      subst checks. rewrite fmap_app, existsb_app, fmap_cons. simpl.
      by rewrite Hstop, orb_true_r.
    + exists (done ++ [c]). split_and!.
      * by rewrite <- app_assoc.
      * rewrite fmap_app, existsb_app, Hdone. simpl. by rewrite Hstop.
      * by rewrite fmap_app, app_assoc.
  - intros s (done & Hsplit & Hdone & Hs). rewrite app_nil_r in Hsplit.
    subst done. rewrite Hdone. split; [done|]. by destruct Hs.
  - exists []. split_and!; [done | done |].
    by rewrite app_nil_r.
Qed.

Lemma when_log_eq b (e : event) (s : state) :
  when b (log e) s = (if b then append [e] s else s, inr tt).
Proof. by destruct b. Qed.

Lemma validate_eq f (s : state) :
  let s0 := if verbose args then append [Eprint (OValidating f)] s else s in
  validate args ignoreables f s =
  for_each (fetched args (next_id s0)) (run_check args ignoreables f)
    {| error_counts := error_counts s0;
       trace := trace s0 ++
         Efetch_checks :: (constructed <$> fetched args (next_id s0));
       next_id := next_id s0 + 6 + length extensions |}.
Proof.
  unfold validate, print, bind. rewrite when_log_eq, fetch_checks_eq.
  by destruct (verbose args).
Qed.

Lemma validate_hoare f :
  hoare (fun s => exists cur, Inv ignoreables cur s)
    (validate args ignoreables f)
    (fun r s =>
       r = (if existsb (stops ignoreables f) check_classes
            then inl TypeError else inr tt) /\
       exists cur, Inv ignoreables cur s).
Proof.
  intros s [cur HI]. rewrite validate_eq.
  set (s0 := if verbose args then append _ s else s).
  assert (Inv ignoreables cur s0) as HI0.
  { subst s0. destruct (verbose args); [|done]. by apply Inv_quiet. }
  clearbody s0.
  rewrite <- (fetched_classes args (next_id s0)).
  apply (checks_hoare f _ (considered_ids (trace s0))
           (next_id s0 + 6 + length extensions)).
  - apply fetched_NoDup.
  - apply Forall_forall. intros c Hc%fetched_ids. split; [|lia].
    intros Hin. eapply Forall_forall in Hin; [|apply HI0]. simpl in Hin. lia.
  - split_and!; [exists cur| |done].
    + apply (Inv_bump _ _ (append _ s0)); [simpl; lia|].
      apply Inv_quiet_all; [apply fetched_quiet | done].
    + cbn [trace]. rewrite considered_ids_app.
      by rewrite (considered_ids_quiet _ (fetched_quiet _ _)), app_nil_r.
Qed.

Lemma for_each_stops {A} (I : state -> Prop) (lb : A -> M unit)
    (stop : A -> bool) l :
  (forall x, hoare I (lb x)
     (fun r s => r = (if stop x then inl TypeError else inr tt) /\ I s)) ->
  hoare I (for_each l lb)
    (fun r s =>
       r = (if existsb stop l then inl TypeError else inr tt) /\ I s).
Proof.
  intros Hb. induction l as [|x l IH]; simpl.
  - by apply hoare_ret.
  - intros s Hs. unfold bind. destruct (Hb x s Hs) as [Hr Hs'].
    destruct (lb x s) as [s' r]. simpl in *. subst r.
    destruct (stop x); simpl; [done|]. by apply IH.
Qed.

Lemma files_hoare files :
  hoare (fun s => exists cur, Inv ignoreables cur s)
    (for_each files (validate args ignoreables))
    (fun r s =>
       r = (if existsb
                 (fun f => existsb (stops ignoreables f) check_classes) files
            then inl TypeError else inr tt) /\
       exists cur, Inv ignoreables cur s).
Proof. apply for_each_stops. intros f. apply validate_hoare. Qed.

End Run_invariant.

(** ** Scanning and the summary *)

Lemma append_nil (s : state) : append [] s = s.
Proof. unfold append. rewrite app_nil_r. by destruct s. Qed.

Lemma scan_eq verbosely file_iter : forall files fi fs (s : state),
  scan verbosely file_iter files fi fs s =
  (append (Eprint <$> scan_lines verbosely file_iter) s,
   inr (files ++ (parse <$> selected file_iter),
        (fi + Z.of_nat (length (ignored file_iter)))%Z,
        (fs + Z.of_nat (length (selected file_iter)))%Z)).
Proof.
  induction file_iter as [|[fn ignoreable] rest IH]; intros files fi fs s.
  - simpl. unfold ret, scan_lines. destruct verbosely; simpl;
      by rewrite append_nil, app_nil_r, !Z.add_0_r.
  - cbn [scan]. destruct ignoreable; unfold bind, print;
      rewrite when_log_eq, IH; unfold scan_lines, selected, ignored;
      destruct verbosely; cbn [List.filter negb snd fst fmap list_fmap length];
      unfold append; cbn [trace error_counts next_id]; rewrite <- ?app_assoc;
      by rewrite Nat2Z.inj_succ, <- Z.add_1_l, Z.add_assoc.
Qed.

Lemma details_eq (counts : gmap string Z) names : forall s : state,
  Forall (fun name => is_Some (counts !! name)) names ->
  for_each names
    (fun name =>
       match counts !! name with
       | Some check_errors => print (ODetail name check_errors)
       | None => raise KeyError
       end) s =
  (append
     (Eprint <$> ((fun name => ODetail name (default 0%Z (counts !! name)))
                    <$> names)) s, inr tt).
Proof.
  induction names as [|name names IH]; intros s Hall.
  - simpl. by rewrite append_nil.
  - apply Forall_cons in Hall as [[n Hn] Hall]. cbn [for_each].
    unfold bind. rewrite Hn. unfold print, log. cbn [fst snd].
    rewrite IH by done. unfold append. simpl. rewrite Hn. simpl.
    by rewrite <- app_assoc.
Qed.

Lemma sorted_keys_Some (counts : gmap string Z) :
  Forall (fun name => is_Some (counts !! name)) (sorted_keys counts).
Proof.
  apply Forall_forall. intros name Hin. unfold sorted_keys in Hin.
  rewrite merge_sort_Permutation in Hin.
  by apply elem_of_elements, elem_of_dom in Hin.
Qed.

Lemma summary_eq fs fi (s : state) :
  summary fs fi s =
  (append (Eprint <$> summary_lines (error_counts s) fs fi) s,
   inr (exit_status (error_counts s))).
Proof.
  unfold summary, bind, get_error_counts, print, log. cbn [fst snd].
  unfold when, summary_lines, detail_lines, exit_status.
  case_bool_decide as Hempty; cbn [negb].
  - unfold ret. cbn [error_counts trace next_id]. unfold append.
    rewrite <- !app_assoc. simpl. by destruct (total _ =? 0)%Z.
  - unfold bind. rewrite details_eq by apply sorted_keys_Some.
    unfold append. cbn [error_counts trace next_id]. rewrite <- !app_assoc.
    simpl. by destruct (total _ =? 0)%Z.
Qed.

Lemma summary_quiet counts fs fi :
  Forall quiet (Eprint (Self := Self) <$> summary_lines counts fs fi).
Proof.
  apply Forall_fmap, Forall_forall. intros l Hl. simpl.
  unfold summary_lines, detail_lines in Hl.
  apply elem_of_app in Hl as [Hl|Hl].
  - repeat (apply elem_of_cons in Hl as [->|Hl]; [done|]).
    by apply elem_of_nil in Hl.
  - case_bool_decide; [by apply elem_of_nil in Hl|].
    apply elem_of_cons in Hl as [->|Hl]; [done|].
    by apply list_elem_of_fmap in Hl as (name & -> & _).
Qed.

Lemma scan_quiet verbosely file_iter :
  Forall quiet (Eprint (Self := Self) <$> scan_lines verbosely file_iter).
Proof.
  apply Forall_fmap, Forall_forall. intros l Hl. simpl.
  unfold scan_lines in Hl. destruct verbosely; [|by apply elem_of_nil in Hl].
  apply list_elem_of_fmap in Hl as ([fn []] & -> & _); done.
Qed.

(** ** [run] *)

Lemma getitem_eq (d : gmap string pyval) k (s : state) :
  lift (getitem d k) s =
  (s, match d !! k with Some v => inr v | None => inl KeyError end).
Proof. done. Qed.

Lemma iter_strings_eq v (s : state) :
  lift (iter_strings v) s =
  (s, match strings_of v with Some l => inr l | None => inl TypeError end).
Proof. by destruct v. Qed.

Lemma ignoreables_of_eq (args : gmap string pyval) ign :
  strings_of (default (VList []) (args !! "ignore")) = Some ign ->
  list_to_set ign = ignoreables_of args.
Proof.
  unfold ignoreables_of. destruct (args !! "ignore") as [[]|]; simpl;
    intros [= <-]; try done.
  apply list_to_set_elements_L.
Qed.

Lemma verbose_loop_args args_id (args : gmap string pyval) :
  verbose (loop_args args_id args) = get_truthy args "verbose".
Proof.
  unfold verbose, loop_args, get_truthy. simpl.
  by rewrite !lookup_delete_ne.
Qed.

Lemma pop1 (args : gmap string pyval) k :
  k <> "ignore_path" -> delete "ignore_path" args !! k = args !! k.
Proof. intros. by apply lookup_delete_ne. Qed.

Lemma pop2 (args : gmap string pyval) k :
  k <> "ignore_path" -> k <> "paths" ->
  delete "paths" (delete "ignore_path" args) !! k = args !! k.
Proof. intros. rewrite lookup_delete_ne by done. by apply pop1. Qed.

Lemma pop3 (args : gmap string pyval) k :
  k <> "ignore_path" -> k <> "paths" -> k <> "extension" ->
  delete "extension" (delete "paths" (delete "ignore_path" args)) !! k =
  args !! k.
Proof. intros. rewrite lookup_delete_ne by done. by apply pop2. Qed.

(** [run] goes through the files and prints the summary when it can
    iterate over the values of the four options, and stops early when it
    cannot. *)
Lemma run_eq args_id args ignored_paths paths exts ign (s : state) :
  run_inputs args = Some (ignored_paths, paths, exts, ign) ->
  let file_iter := find_files paths exts ignored_paths in
  run args_id args s =
  (for_each (parse <$> selected file_iter)
     (validate (loop_args args_id args) (list_to_set ign)) ;;
   summary (Z.of_nat (length (selected file_iter)))
     (Z.of_nat (length (ignored file_iter))))
    (append
       (Eprint OScanning ::
        (Eprint <$> scan_lines (get_truthy args "verbose") file_iter)) s).
Proof.
  unfold run_inputs. intros Hin.
  destruct (args !! "ignore_path") as [v|] eqn:Hip; [|done].
  destruct (strings_of v) as [l1|] eqn:H1; [|done].
  destruct (strings_of (default _ (args !! "paths"))) as [l2|] eqn:H2;
    [|done].
  destruct (strings_of (default _ (args !! "extension"))) as [l3|] eqn:H3;
    [|done].
  destruct (strings_of (default _ (args !! "ignore"))) as [l4|] eqn:H4;
    [|done].
  injection Hin as -> -> -> ->. cbv zeta.
  unfold run. unfold bind at 1. unfold print at 1, log at 1. cbn [fst snd].
  unfold bind at 1. rewrite getitem_eq, Hip.
  unfold bind at 1. rewrite iter_strings_eq, H1.
  unfold bind at 1. rewrite iter_strings_eq, pop1, H2 by done.
  unfold bind at 1. rewrite iter_strings_eq, pop2, H3 by done.
  unfold bind at 1. rewrite scan_eq.
  unfold bind at 1. rewrite iter_strings_eq, pop3, H4 by done.
  unfold get_truthy at 1. rewrite pop3 by done.
  fold (get_truthy args "verbose").
  rewrite !Z.add_0_l. unfold append, loop_args. simpl.
  by rewrite <- app_assoc.
Qed.

Lemma run_early args_id args (s : state) :
  run_inputs args = None ->
  exists e d, run args_id args s = (append d s, inl e) /\ Forall quiet d.
Proof.
  unfold run_inputs. intros Hin.
  unfold run. unfold bind at 1. unfold print at 1, log at 1. cbn [fst snd].
  unfold bind at 1. rewrite getitem_eq.
  destruct (args !! "ignore_path") as [v|] eqn:Hip.
  2: { exists KeyError, [Eprint OScanning]. by repeat constructor. }
  unfold bind at 1. rewrite iter_strings_eq.
  destruct (strings_of v) as [l1|] eqn:H1.
  2: { exists TypeError, [Eprint OScanning]. by repeat constructor. }
  unfold bind at 1. rewrite iter_strings_eq, pop1 by done.
  destruct (strings_of (default _ (args !! "paths"))) as [l2|] eqn:H2.
  2: { exists TypeError, [Eprint OScanning]. by repeat constructor. }
  unfold bind at 1. rewrite iter_strings_eq, pop2 by done.
  destruct (strings_of (default _ (args !! "extension"))) as [l3|] eqn:H3.
  2: { exists TypeError, [Eprint OScanning]. by repeat constructor. }
  unfold bind at 1. rewrite scan_eq.
  unfold bind at 1. rewrite iter_strings_eq, pop3 by done.
  destruct (strings_of (default _ (args !! "ignore"))) as [l4|] eqn:H4;
    [done|].
  eexists TypeError, (_ :: _). split.
  - unfold append. simpl. by rewrite <- app_assoc.
  - constructor; [done|]. apply scan_quiet.
Qed.

Lemma run_inputs_ignore args ip paths exts ign :
  run_inputs args = Some (ip, paths, exts, ign) ->
  list_to_set ign = ignoreables_of args.
Proof.
  unfold run_inputs. intros Hin. apply ignoreables_of_eq.
  destruct (args !! "ignore_path") as [v|]; [|done].
  destruct (strings_of v); [|done].
  destruct (strings_of (default _ (args !! "paths"))); [|done].
  destruct (strings_of (default _ (args !! "extension"))); [|done].
  destruct (strings_of (default _ (args !! "ignore"))); [|done].
  by injection Hin as _ _ _ ->.
Qed.

Lemma run_Inv args_id args (s : state) :
  (exists cur, Inv (ignoreables_of args) cur s) ->
  exists cur, Inv (ignoreables_of args) cur (fst (run args_id args s)).
Proof.
  intros [cur HI]. destruct (run_inputs args) as [[[[ip paths] exts] ign]|] eqn:Hin.
  - rewrite (run_eq _ _ _ _ _ _ _ Hin). cbv zeta. unfold bind.
    apply run_inputs_ignore in Hin as Hign.
    match goal with |- context [for_each ?l ?b ?s0] =>
      destruct (files_hoare (loop_args args_id args) (list_to_set ign) l s0)
        as [Hr [cur' HI']] end.
    { exists cur. rewrite Hign. apply Inv_quiet_all; [|done].
      constructor; [done|]. apply scan_quiet. }
    destruct (for_each _ _ _) as [s1 [e|[]]]; simpl in *.
    + exists cur'. by rewrite <- Hign.
    + rewrite summary_eq. simpl. exists cur'. rewrite <- Hign.
      by apply (Inv_quiet_all _ _ _ s1 (summary_quiet _ _ _)).
  - destruct (run_early args_id args s Hin) as (e & d & -> & Hq).
    exists cur. by apply Inv_quiet_all.
Qed.

(** ** The events of the dispatch loop *)

Lemma effect_ret {A} (a : A) (s : state) : effect (ret a) s [] 0 (inr a).
Proof. unfold effect. simpl. by rewrite app_nil_r, Nat.add_0_r. Qed.

Lemma effect_log e (s : state) : effect (log e) s [e] 0 (inr tt).
Proof. unfold effect. simpl. by rewrite Nat.add_0_r. Qed.

Lemma effect_said b l (s : state) :
  effect (when b (print l)) s (said b l) 0 (inr tt).
Proof. destruct b; [apply effect_log | apply effect_ret]. Qed.

Lemma effect_bind {A B} (m : M A) (k : A -> M B) (s : state) d1 k1 a d2 k2 r :
  effect m s d1 k1 (inr a) ->
  effect (k a) (fst (m s)) d2 k2 r ->
  effect (bind m k) s (d1 ++ d2) (k1 + k2) r.
Proof.
  unfold effect, bind. intros (Ht & Hn & Hr & Hd) (Ht' & Hn' & Hr' & Hd').
  destruct (m s) as [s' r']. simpl in *. subst r'.
  rewrite Ht', Ht, Hn', Hn, app_assoc, Nat.add_assoc.
  split_and!; try done. set_solver.
Qed.

Lemma effect_raise {A B} (m : M A) (k : A -> M B) (s : state) d k1 e :
  effect m s d k1 (inl e) -> effect (bind m k) s d k1 (inl e).
Proof.
  unfold effect, bind. intros (Ht & Hn & Hr & Hd).
  destruct (m s) as [s' r']. simpl in *. by subst r'.
Qed.

Section Loop_events.

Variable args : pydict.
Variable ignoreables : gset string.

Lemma effect_emit name f line_num code message (s : state) :
  name ∈ dom (error_counts s) ->
  effect (emit args ignoreables name f line_num code message) s
    (emitted (verbose args) ignoreables name (filename f) line_num code
       message) 0 (inr tt).
Proof.
  intros [n Hn]%elem_of_dom. unfold effect, emitted.
  rewrite (emit_eq _ _ _ _ _ _ _ _ n Hn).
  case_bool_decide; simpl; rewrite ?app_nil_r, Nat.add_0_r;
    split_and!; try done.
  rewrite dom_insert_L. set_solver.
Qed.

Lemma effect_emit_all {A} name f (ys : list A) (g : A -> Z * string * string) :
  forall s : state,
  name ∈ dom (error_counts s) ->
  effect
    (for_each ys
       (fun y => emit args ignoreables name f (fst (fst (g y)))
                   (snd (fst (g y))) (snd (g y)))) s
    (flat_map
       (fun y => emitted (verbose args) ignoreables name (filename f)
                   (fst (fst (g y))) (snd (fst (g y))) (snd (g y))) ys)
    0 (inr tt).
Proof.
  induction ys as [|y ys IH]; intros s Hn; simpl.
  - apply effect_ret.
  - apply (effect_bind _ _ _ _ 0 tt _ 0).
    + by apply effect_emit.
    + apply IH. by apply (effect_emit name f _ _ _ s Hn).
Qed.

Lemma for_each_ext {A} (lb lb' : A -> M unit) l :
  (forall x, lb x = lb' x) -> for_each l lb = for_each l lb'.
Proof.
  intros Heq. induction l as [|x l IH]; [done|]. simpl. by rewrite Heq, IH.
Qed.

Lemma line_blocks_cons verbosely (c : check_class) id f first line ys
    numbered :
  line_blocks verbosely ignoreables c id f first ((line, ys) :: numbered) =
  line_block verbosely ignoreables c id f first line ys ++
  line_blocks verbosely ignoreables c id f (first + 1) numbered.
Proof.
  unfold line_blocks. cbn [imap concat fst snd]. rewrite Z.add_0_r.
  do 2 f_equal. apply imap_ext. intros i ly _. simpl. f_equal. lia.
Qed.

Lemma effect_line_loop c id report_iter f lines :
  forall line_num me (s : state),
  check_name c ∈ dom (error_counts s) ->
  effect (line_loop args ignoreables c id report_iter f line_num lines me) s
    (line_blocks (verbose args) ignoreables c id f line_num
       (zip lines (yields report_iter me lines)))
    0 (inr tt).
Proof.
  induction lines as [|line lines IH]; intros line_num me s Hn.
  - apply effect_ret.
  - cbn [line_loop yields]. destruct (report_iter me line) as [ys me'].
    cbn [zip zip_with]. rewrite line_blocks_cons.
    apply (effect_bind _ _ _ [_] 0 tt _ 0); [apply effect_log|].
    apply (effect_bind _ _ _ _ 0 tt _ 0).
    + rewrite (for_each_ext _
        (fun y => emit args ignoreables (check_name c) f
                    (fst (fst (line_num, fst y, snd y)))
                    (snd (fst (line_num, fst y, snd y)))
                    (snd (line_num, fst y, snd y)))) by (by intros []).
      by apply (effect_emit_all _ _ _ (fun y => (line_num, fst y, snd y))).
    + apply IH.
      match goal with |- _ ∈ dom (error_counts (fst (?m ?s0))) =>
        assert (effect m s0
                  (flat_map
                     (fun y => emitted (verbose args) ignoreables
                                 (check_name c) (filename f) line_num
                                 (fst y) (snd y)) ys) 0 (inr tt))
          as (_ & _ & _ & Hd) end.
      { rewrite (for_each_ext _
          (fun y => emit args ignoreables (check_name c) f
                      (fst (fst (line_num, fst y, snd y)))
                      (snd (fst (line_num, fst y, snd y)))
                      (snd (line_num, fst y, snd y)))) by (by intros []).
        by apply (effect_emit_all _ _ _ (fun y => (line_num, fst y, snd y))). }
      by apply Hd.
Qed.

Lemma effect_dispatch f (c : instance) (s : state) :
  check_name (cls c) ∈ dom (error_counts s) ->
  effect (dispatch args ignoreables f c) s
    (dispatch_events (verbose args) ignoreables f c) 0
    (if is_other (cls c) then inl TypeError else inr tt).
Proof.
  intros Hn. unfold dispatch, dispatch_events, is_other.
  destruct (body (cls c)) as [report_iter|report_iter|].
  - destruct (report_iter (self c) f) as [ys me'].
    apply (effect_bind _ _ _ [_] 0 tt _ 0); [apply effect_log|].
    rewrite (for_each_ext _
      (fun y => emit args ignoreables (check_name (cls c)) f
                  (fst (fst y)) (snd (fst y)) (snd y)))
      by (by intros [[] ?]).
    by apply (effect_emit_all _ _ _ (fun y => y)).
  - by apply effect_line_loop.
  - unfold effect. simpl. by rewrite app_nil_r, Nat.add_0_r.
Qed.

Lemma effect_setdefault name (s : state) :
  effect (setdefault name 0) s [] 0 (inr tt) /\
  name ∈ dom (error_counts (fst (setdefault name 0%Z s))).
Proof.
  unfold effect, setdefault.
  destruct (error_counts s !! name) as [n|] eqn:Hn; simpl;
    rewrite app_nil_r, Nat.add_0_r; split_and!; try done.
  - apply elem_of_dom. by eexists.
  - rewrite dom_insert_L. set_solver.
  - rewrite dom_insert_L. set_solver.
Qed.

Lemma effect_run_check f (c : instance) (s : state) :
  effect (run_check args ignoreables f c) s
    (check_events (verbose args) ignoreables f c) 0
    (if stops ignoreables f (cls c) then inl TypeError else inr tt).
Proof.
  unfold run_check, check_events, stops, applicable.
  destruct (effect_setdefault (check_name (cls c)) s) as [Hs Hn].
  apply (effect_bind _ _ _ [] 0 tt _ 0); [done|].
  set (s1 := fst (setdefault _ _ s)) in *. clearbody s1.
  apply (effect_bind _ _ _ [_] 0 tt _ 0); [apply effect_log|].
  destruct (extension_ok (cls c) f); simpl.
  2: { apply (effect_bind _ _ _ _ 0 tt _ 0);
         [apply effect_said | apply effect_log]. }
  destruct (reports_ok ignoreables (cls c)); simpl.
  2: { apply (effect_bind _ _ _ _ 0 tt _ 0);
         [apply effect_said | apply effect_log]. }
  apply (effect_bind _ _ _ _ 0 tt _ 0); [apply effect_said|].
  apply (effect_bind _ _ _ [_] 0 tt _ 0); [apply effect_log|].
  apply effect_dispatch.
  destruct (verbose args); simpl; done.
Qed.

Lemma effect_checks f (checks : list instance) : forall s : state,
  effect (for_each checks (run_check args ignoreables f)) s
    (checks_events (verbose args) ignoreables f checks) 0
    (if existsb (stops ignoreables f) (cls <$> checks)
     then inl TypeError else inr tt).
Proof.
  induction checks as [|c checks IH]; intros s.
  - apply effect_ret.
  - cbn [for_each checks_events fmap list_fmap existsb].
    pose proof (effect_run_check f c s) as Hc.
    destruct (stops ignoreables f (cls c)); cbn [orb].
    + rewrite app_nil_r. by apply effect_raise.
    + apply (effect_bind _ _ _ _ 0 tt _ 0); [done | apply IH].
Qed.

End Loop_events.

Section Files_events.

Variable args : pydict.
Variable ignoreables : gset string.

Lemma effect_validate f (s : state) :
  effect (validate args ignoreables f) s
    (validate_events args ignoreables f (next_id s))
    (6 + length extensions)
    (if existsb (stops ignoreables f) check_classes
     then inl TypeError else inr tt).
Proof.
  unfold effect. rewrite validate_eq. cbv zeta.
  unfold validate_events, said.
  destruct (verbose args) eqn:Hv;
    (match goal with |- context [for_each ?cs ?b ?s1] =>
       destruct (effect_checks args ignoreables f cs s1)
         as (Ht & Hn & Hr & Hd)
     end);
    rewrite Hv in Ht;
    (split_and!;
     [ rewrite Ht; cbn [trace append]; by rewrite <- ?app_assoc
     | rewrite Hn; cbn [next_id append]; lia
     | by rewrite Hr, fetched_classes
     | exact Hd ]).
Qed.

Lemma files_trace files : forall s : state,
  trace (fst (for_each files (validate args ignoreables) s)) =
  trace s ++ files_events args ignoreables files (next_id s) /\
  snd (for_each files (validate args ignoreables) s) =
  (if existsb (fun f => existsb (stops ignoreables f) check_classes) files
   then inl TypeError else inr tt).
Proof.
  induction files as [|f files IH]; intros s.
  - simpl. by rewrite app_nil_r.
  - cbn [for_each files_events existsb]. unfold bind.
    destruct (effect_validate f s) as (Ht & Hn & Hr & _).
    destruct (validate args ignoreables f s) as [s1 r].
    cbn [fst snd] in Ht, Hn, Hr.
    subst r. destruct (existsb (stops ignoreables f) check_classes);
      cbn [orb fst snd].
    + by rewrite app_nil_r.
    + destruct (IH s1) as [Ht1 Hr1]. rewrite Ht1, Hr1, Ht, Hn.
      rewrite <- app_assoc. split; [|done]. do 3 f_equal. lia.
Qed.

End Files_events.

(** ** Reading counts and prints off a well-counted trace *)

Lemma counting_not_bad (t d : list event) cur :
  counting_of (t ++ d) = Idle cur -> counting_of t <> Bad.
Proof.
  rewrite counting_of_app. intros Hc Hb. rewrite Hb, count_step_bad in Hc.
  discriminate.
Qed.

Lemma counting_last_called (t : list event) :
  match counting_of t with
  | Idle cur | Printed cur => cur = last_called t
  | Bad => True
  end.
Proof.
  induction t as [|e t IH] using rev_ind; [done|].
  rewrite counting_of_app, last_called_app. simpl.
  destruct (counting_of t) as [cur|cur|]; [| |done].
  - subst cur. by destruct e as [[]| | | | | | | |].
  - subst cur. destruct e as [| | | | | | | |name]; try done.
    simpl. by case_decide.
Qed.

Lemma counting_printed (t : list event) cur :
  counting_of t = Printed cur ->
  exists pre l, t = pre ++ [Eprint l] /\ is_violation l = true.
Proof.
  destruct t as [|e t _] using rev_ind; [done|].
  rewrite counting_of_app. simpl.
  destruct (counting_of t) as [cur'|cur'|]; [| |done].
  - destruct e as [[]| | | | | | | |]; try done. intros _. by eexists _, _.
  - destruct e as [| | | | | | | |name]; try done. simpl. by case_decide.
Qed.

Lemma counted_after_print (t : list event) cur pre l post :
  counting_of t = Idle cur ->
  t = pre ++ Eprint l :: post ->
  is_violation l = true ->
  exists name post',
    post = Eincr name :: post' /\ last_called pre = Some name.
Proof.
  intros Hc -> Hl.
  pose proof (counting_not_bad _ _ _ Hc) as Hpre.
  pose proof (counting_last_called pre) as Hcur.
  change (Eprint l :: post) with ([Eprint l] ++ post) in Hc.
  rewrite app_assoc in Hc.
  pose proof (counting_not_bad _ _ _ Hc) as Hmid.
  rewrite !counting_of_app in Hc. rewrite counting_of_app in Hmid.
  destruct (counting_of pre) as [cur'|cur'|]; [| |done].
  2: { by destruct l. }
  destruct l; try done. simpl in Hc, Hmid. clear Hmid.
  destruct post as [|e post]; [done|]. simpl in Hc.
  destruct e as [| | | | | | | |name];
    try (by rewrite count_step_bad in Hc).
  case_decide as Hn; [|by rewrite count_step_bad in Hc].
  exists name, post. split; [done|]. congruence.
Qed.

Lemma print_before_count (t : list event) cur pre name post :
  counting_of t = Idle cur ->
  t = pre ++ Eincr name :: post ->
  exists pre' l, pre = pre' ++ [Eprint l] /\ is_violation l = true.
Proof.
  intros Hc ->.
  change (Eincr name :: post) with ([Eincr name] ++ post) in Hc.
  rewrite app_assoc in Hc. apply counting_not_bad in Hc.
  rewrite counting_of_app in Hc. simpl in Hc.
  destruct (counting_of pre) as [cur'|cur'|] eqn:Hpre; [done| |done].
  by eapply counting_printed.
Qed.

(** ** [main] *)

Lemma vars_version parsed : get_truthy (vars parsed) "version" = ns_version parsed.
Proof. by destruct parsed. Qed.

Lemma main_eq parsed (s : state) :
  main parsed s =
  if ns_version parsed then (append [Eprint OVersion] (bump s), inr 0%Z)
  else (args <- lift (configure (vars parsed)) ;; run (next_id s) args)
         (bump s).
Proof.
  unfold main. unfold bind at 1. unfold fresh at 1. cbn [fst snd].
  rewrite vars_version. by destruct (ns_version parsed).
Qed.

Lemma main_Inv parsed :
  exists ignoreables cur,
    Inv ignoreables cur (fst (main parsed initial_state)).
Proof.
  rewrite main_eq.
  assert (forall ign, Inv ign None (bump initial_state)) as H0.
  { intros ign. apply Inv_fresh, Inv_initial. }
  destruct (ns_version parsed).
  - exists ∅, None. by apply Inv_quiet.
  - unfold bind, lift. destruct (configure _) as [e|args].
    + by exists ∅, None.
    + exists (ignoreables_of args). apply run_Inv. by exists None.
Qed.

(** * The claims *)

Lemma skipped_entry args ignoreables f (c : instance) (s : state) :
  error_counts s !! check_name (cls c) = None ->
  applicable ignoreables (cls c) f = false ->
  error_counts (fst (run_check args ignoreables f c s))
    !! check_name (cls c) = Some 0%Z.
Proof.
  intros Hn Hok. unfold run_check, applicable in *.
  unfold bind at 1. unfold setdefault at 1. rewrite Hn. cbn [fst snd].
  unfold bind at 1. unfold log at 1. cbn [fst snd].
  destruct (extension_ok (cls c) f); simpl in *.
  - rewrite Hok. simpl. unfold bind, print. rewrite when_log_eq. simpl.
    destruct (verbose args); simpl; apply lookup_insert_eq.
  - unfold bind, print. rewrite when_log_eq. simpl.
    destruct (verbose args); simpl; apply lookup_insert_eq.
Qed.

(** C3.  In every run the number of violations printed is the sum of the
    values of [error_counts]; each check for which
    [error_counts.setdefault] was called has an entry that is a
    non-negative integer; the decision to skip or to dispatch a check for
    a file comes after that call, and a check without entry that is
    skipped has the entry 0 afterwards; each printed violation is
    directly followed by the increment of the count of the check whose
    [report_iter] was called last, and a count is incremented only
    directly after a printed violation. *)
Theorem error_counts_account (parsed : Namespace) :
  let s := fst (main parsed initial_state) in
  Z.of_nat (length (violations (trace s))) = total (error_counts s) /\
  (forall c id f, In (Econsider c id f) (trace s) ->
     exists n, error_counts s !! check_name c = Some n /\ (0 <= n)%Z) /\
  (forall pre e post c id f,
     trace s = pre ++ e :: post -> decides e c id f ->
     In (Econsider c id f) pre) /\
  (forall args ignoreables f (c : instance) (s0 : state),
     error_counts s0 !! check_name (cls c) = None ->
     applicable ignoreables (cls c) f = false ->
     error_counts (fst (run_check args ignoreables f c s0))
       !! check_name (cls c) = Some 0%Z) /\
  (forall pre l post,
     trace s = pre ++ Eprint l :: post -> is_violation l = true ->
     exists name post',
       post = Eincr name :: post' /\ last_called pre = Some name) /\
  (forall pre name post,
     trace s = pre ++ Eincr name :: post ->
     exists pre' l, pre = pre' ++ [Eprint l] /\ is_violation l = true).
Proof.
  intros s. destruct (main_Inv parsed) as (ign & cur & HI). fold s in HI.
  destruct HI as [H1 H2 H3 H4 H5 H6 H7 H8]. split_and!.
  - by rewrite H4.
  - intros c id f Hin. destruct (H6 c id f Hin) as [n Hn].
    exists n. split; [done|]. by apply (H5 _ _ Hn).
  - intros pre e post c id f Heq Hd. by eapply H3.
  - apply skipped_entry.
  - intros pre l post Heq Hl. by eapply counted_after_print.
  - intros pre name post Heq. by eapply print_before_count.
Qed.

(** C8.  In every run, a check that has an [EXT_MATCHER] is neither
    dispatched nor called for a file whose extension the matcher does not
    match; for a check without [EXT_MATCHER], whether it is dispatched
    for a file depends on its [REPORTS] and the ignored codes only, not
    on the file, so that it is dispatched for the files of every
    extension unless all the codes it reports are ignored. *)
Theorem extension_gating (parsed : Namespace) :
  let s := fst (main parsed initial_state) in
  (forall c id f matcher,
     EXT_MATCHER c = Some matcher -> matcher (extension f) = false ->
     ~ In (Edispatch c id f) (trace s) /\
     (forall ys, ~ In (Ecall_file c id f ys) (trace s)) /\
     (forall n line ys, ~ In (Ecall_line c id f n line ys) (trace s))) /\
  (forall args ignoreables f (c : instance) (s0 : state),
     EXT_MATCHER (cls c) = None ->
     trace (fst (run_check args ignoreables f c s0)) =
     trace s0 ++
     Econsider (cls c) (obj_id c) f ::
     (if reports_ok ignoreables (cls c) then
        said (verbose args) (ORunning (check_name (cls c))) ++
        Edispatch (cls c) (obj_id c) f ::
        dispatch_events (verbose args) ignoreables f c
      else
        said (verbose args) (OSkipIgnoreable (check_name (cls c))) ++
        [Eskip (cls c) (obj_id c) f])).
Proof.
  intros s. split.
  - destruct (main_Inv parsed) as (ign & cur & HI). fold s in HI.
    destruct HI as [H1 _ _ _ _ _ _ _].
    intros c id f matcher Hm Hf.
    assert (extension_ok c f = false) as Hext
      by (unfold extension_ok; by rewrite Hm).
    rewrite Forall_forall in H1.
    split_and!; [|intros ys|intros n line ys]; intros Hin;
      apply list_elem_of_In, H1 in Hin; simpl in Hin;
      destruct Hin as [Hin _]; congruence.
  - intros args ignoreables f c s0 Hm.
    destruct (effect_run_check args ignoreables f c s0) as (-> & _).
    unfold check_events, extension_ok. rewrite Hm. simpl.
    by destruct (reports_ok ignoreables (cls c)).
Qed.

Lemma Inv_empty ignoreables (s : state) :
  trace s = [] -> error_counts s = ∅ -> Inv ignoreables None s.
Proof.
  destruct s as [counts t n]. simpl. intros -> ->.
  apply (Inv_bump _ _ initial_state n); [simpl; lia | apply Inv_initial].
Qed.

Lemma reports_all_ignored (ignoreables : gset string) (c : check_class)
    reports :
  REPORTS c = Some reports ->
  (forall code, code ∈ reports -> code ∈ ignoreables) ->
  reports_ok ignoreables c = false.
Proof.
  intros Hr Hall. unfold reports_ok. rewrite Hr.
  rewrite bool_decide_eq_true_2; [done|].
  apply set_eq. intros code. rewrite elem_of_difference, elem_of_list_to_set.
  split; [intros [Hin Hnot]; destruct Hnot; by apply Hall | set_solver].
Qed.

(** C1.  In a run with the finished configuration [args], no violation
    whose code is in the ignore set is printed; a count is incremented
    only directly after the print of a violation whose code is not
    ignored; and a check whose [REPORTS] are all in the ignore set is
    neither dispatched nor called, for any file. *)
Theorem ignore_set_complete args_id args (s : state) :
  trace s = [] -> error_counts s = ∅ ->
  let s' := fst (run args_id args s) in
  let ignoreables := ignoreables_of args in
  (forall v fn line_num code message,
     code ∈ ignoreables ->
     ~ In (Eprint (OViolation v fn line_num code message)) (trace s')) /\
  (forall pre name post,
     trace s' = pre ++ Eincr name :: post ->
     exists pre' v fn line_num code message,
       pre = pre' ++ [Eprint (OViolation v fn line_num code message)] /\
       code ∉ ignoreables) /\
  (forall c id f reports,
     REPORTS c = Some reports ->
     (forall code, code ∈ reports -> code ∈ ignoreables) ->
     ~ In (Edispatch c id f) (trace s') /\
     (forall ys, ~ In (Ecall_file c id f ys) (trace s')) /\
     (forall n line ys, ~ In (Ecall_line c id f n line ys) (trace s'))).
Proof.
  intros Ht He s' ignoreables.
  destruct (run_Inv args_id args s) as [cur HI].
  { exists None. by apply Inv_empty. }
  fold s' ignoreables in HI. destruct HI as [H1 H2 _ _ _ _ _ _].
  rewrite Forall_forall in H1. split_and!.
  - intros v fn line_num code message Hc Hin.
    by apply list_elem_of_In, H1 in Hin.
  - intros pre name post Heq.
    destruct (print_before_count _ _ _ _ _ H2 Heq) as (pre' & l & -> & Hl).
    destruct l as [| | | | | | | |v fn line_num code message| | | | | |];
      try done.
    exists pre', v, fn, line_num, code, message. split; [done|].
    apply (H1 (Eprint (OViolation v fn line_num code message))).
    rewrite Heq. apply list_elem_of_In, in_or_app. left.
    apply in_or_app. right. by left.
  - intros c id f reports Hr Hall.
    pose proof (reports_all_ignored ignoreables c reports Hr Hall) as Hno.
    split_and!; [|intros ys|intros n line ys]; intros Hin;
      apply list_elem_of_In, H1 in Hin; simpl in Hin;
      destruct Hin as [_ Hin]; congruence.
Qed.

(** C2.  When [main] returns, the exit status is 0 if the sum of the
    values of [error_counts] is 0 and 1 otherwise. *)
Theorem exit_status_of_main (parsed : Namespace) (s : state) (code : Z) :
  main parsed initial_state = (s, inr code) ->
  code = (if (total (error_counts s) =? 0)%Z then 0 else 1)%Z /\
  (code = 0 \/ code = 1)%Z.
Proof.
  rewrite main_eq. intros Hmain.
  assert (code = exit_status (error_counts s)) as ->.
  2: { unfold exit_status. split; [done|].
       destruct (total _ =? 0)%Z; [by left | by right]. }
  destruct (ns_version parsed).
  - by injection Hmain as <- <-.
  - unfold bind, lift in Hmain.
    destruct (configure _) as [e|args]; [done|].
    set (s1 := bump initial_state) in *.
    destruct (run_inputs args) as [[[[ip paths] exts] ign]|] eqn:Hin.
    + rewrite (run_eq _ _ _ _ _ _ _ Hin) in Hmain. cbv zeta in Hmain.
      unfold bind in Hmain.
      destruct (for_each _ _ _) as [s2 [e|[]]]; [done|].
      rewrite summary_eq in Hmain. by injection Hmain as <- <-.
    + destruct (run_early (next_id initial_state) args s1 Hin)
        as (e & d & Hr & _).
      rewrite Hr in Hmain. done.
Qed.

Lemma selected_ignored_length file_iter :
  length (selected file_iter) + length (ignored file_iter) = length file_iter.
Proof.
  unfold selected, ignored. rewrite !length_fmap.
  induction file_iter as [|[fn []] rest IH]; simpl; lia.
Qed.

(** C10.  When no file is selected, [run] adds to the trace only what
    scanning and the summary print: [error_counts] stays empty, no check
    is constructed or considered, the summary has the three totals (no
    file scanned, all the files found ignored, no error) and no count of
    a check, and the exit status is 0. *)
Theorem no_file_selected args_id args ignored_paths paths exts ign
    (s : state) :
  run_inputs args = Some (ignored_paths, paths, exts, ign) ->
  selected (find_files paths exts ignored_paths) = [] ->
  error_counts s = ∅ ->
  let file_iter := find_files paths exts ignored_paths in
  let s' := fst (run args_id args s) in
  snd (run args_id args s) = inr 0%Z /\
  error_counts s' = ∅ /\
  trace s' =
  trace s ++
  (Eprint <$>
     (OScanning :: scan_lines (get_truthy args "verbose") file_iter ++
      [OSeparator; OFilesScanned 0; OFilesIgnored (Z.of_nat (length file_iter));
       OTotalErrors 0])).
Proof.
  intros Hin Hsel Hempty file_iter s'. subst s'.
  rewrite (run_eq _ _ _ _ _ _ _ Hin). cbv zeta. fold file_iter.
  pose proof (selected_ignored_length file_iter) as Hlen.
  fold file_iter in Hsel. rewrite Hsel in *. simpl in Hlen. rewrite Hlen.
  unfold bind. cbn [fmap list_fmap for_each ret length]. rewrite summary_eq.
  cbn [fst snd append error_counts trace]. rewrite Hempty.
  unfold exit_status, summary_lines, detail_lines.
  rewrite total_empty, bool_decide_eq_true_2 by done.
  split_and!; [done | done |].
  by rewrite <- app_assoc, app_nil_r, fmap_app.
Qed.

(** C6.  The list that [fetch_checks] returns starts with objects of the
    five built-in classes, in the order validity, trailing whitespace,
    indentation without tab, carriage return, maximal line length, each
    constructed with [cfg] itself; then come objects of the plugin
    classes, in the order of discovery, each constructed with one copy
    of [cfg]: a dictionary with the same items and another identity. *)
Theorem fetch_checks_order cfg (s : state) :
  dict_id cfg < next_id s ->
  exists s' base addons copy_of_cfg,
    fetch_checks cfg s = (s', inr (base ++ addons)) /\
    cls <$> base =
      [CheckValidity; CheckTrailingWhitespace; CheckIndentationNoTab;
       CheckCarriageReturn; CheckMaxLineLength] /\
    cls <$> addons = extensions /\
    Forall (fun c => cfg_ref c = cfg) base /\
    Forall (fun c => cfg_ref c = copy_of_cfg) addons /\
    items copy_of_cfg = items cfg /\
    dict_id copy_of_cfg <> dict_id cfg.
Proof.
  intros Hlt. rewrite fetch_checks_eq. unfold fetched.
  eexists _, _, _, (copied cfg (next_id s)). split; [done|]. split_and!.
  - done.
  - rewrite fmap_imap. etrans; [apply (imap_const id)|]. apply list_fmap_id.
  - by repeat constructor.
  - apply Forall_forall. by intros c (i & p & -> & _)%elem_of_lookup_imap.
  - done.
  - simpl. lia.
Qed.

(** C7.  A check that is not skipped for a file is called as follows: a
    [ContentCheck] once, with the file; a [LineCheck] once for each line
    of the file, in order, the lines being numbered from 1.  Each
    finding whose code is not ignored is printed with the line number
    that the [ContentCheck] yielded, or with the number of the line that
    the [LineCheck] was called with, and counted for the check. *)
Theorem dispatch_by_kind args ignoreables f (c : instance) (s : state) :
  applicable ignoreables (cls c) f = true ->
  let s' := fst (run_check args ignoreables f c s) in
  let before :=
    Econsider (cls c) (obj_id c) f ::
    said (verbose args) (ORunning (check_name (cls c))) ++
    [Edispatch (cls c) (obj_id c) f] in
  match body (cls c) with
  | ContentCheck report_iter =>
      trace s' =
      trace s ++ before ++
      file_block (verbose args) ignoreables (cls c) (obj_id c) f
        (fst (report_iter (self c) f))
  | LineCheck report_iter =>
      trace s' =
      trace s ++ before ++
      concat
        (imap
           (fun i ly =>
              line_block (verbose args) ignoreables (cls c) (obj_id c) f
                (1 + Z.of_nat i) (fst ly) (snd ly))
           (zip (lines_iter f)
              (yields report_iter (self c) (lines_iter f))))
  | OtherCheck => trace s' = trace s ++ before
  end.
Proof.
  intros [Hext Hrep]%andb_prop s' before. subst s' before.
  destruct (effect_run_check args ignoreables f c s) as (-> & _).
  unfold check_events, dispatch_events. rewrite Hext, Hrep. simpl.
  destruct (body (cls c)); rewrite <- ?app_assoc; simpl;
    by rewrite ?app_nil_r.
Qed.

(** ** The events of the loop over the checks *)

Lemma loop_emitted v ign name fn line_num code message :
  Forall loop_event
    (emitted (Self := Self) v ign name fn line_num code message).
Proof. unfold emitted. case_bool_decide; by repeat constructor. Qed.

Lemma loop_flat_map {A} (g : A -> list event) ys :
  (forall y, Forall loop_event (g y)) -> Forall loop_event (flat_map g ys).
Proof.
  intros Hg. induction ys as [|y ys IH]; simpl; [constructor|].
  apply Forall_app. by split.
Qed.

Lemma loop_line_blocks v ign (c : check_class) id f numbered : forall first,
  Forall loop_event (line_blocks v ign c id f first numbered).
Proof.
  induction numbered as [|[line ys] numbered IH]; intros first.
  - constructor.
  - rewrite line_blocks_cons. apply Forall_app. split; [|apply IH].
    constructor; [done|]. apply loop_flat_map. intros y. apply loop_emitted.
Qed.

Lemma loop_dispatch_events v ign f (c : instance) :
  Forall loop_event (dispatch_events v ign f c).
Proof.
  unfold dispatch_events. destruct (body (cls c)).
  - constructor; [done|]. apply loop_flat_map. intros y. apply loop_emitted.
  - apply loop_line_blocks.
  - constructor.
Qed.

Lemma loop_said v l :
  is_summary l = false -> Forall loop_event (said (Self := Self) v l).
Proof. unfold said. destruct v; by repeat constructor. Qed.

Lemma loop_check_events v ign f (c : instance) :
  Forall loop_event (check_events v ign f c).
Proof.
  unfold check_events. constructor; [done|].
  destruct (extension_ok (cls c) f); simpl;
    [destruct (reports_ok ign (cls c)); simpl|];
    apply Forall_app; (split; [by apply loop_said|]).
  - constructor; [done|]. apply loop_dispatch_events.
  - by repeat constructor.
  - by repeat constructor.
Qed.

Lemma loop_checks_events v ign f (checks : list instance) :
  Forall loop_event (checks_events v ign f checks).
Proof.
  induction checks as [|c checks IH]; [constructor|].
  cbn [checks_events]. apply Forall_app. split; [apply loop_check_events|].
  destruct (stops ign f (cls c)); [constructor | done].
Qed.

Lemma fetches_app (t d : list event) : fetches (t ++ d) = fetches t + fetches d.
Proof. unfold fetches. by rewrite List.filter_app, length_app. Qed.

Lemma fetches_loop (d : list event) : Forall loop_event d -> fetches d = 0.
Proof.
  induction 1 as [|e d He _ IH]; [done|].
  change (e :: d) with ([e] ++ d). rewrite fetches_app, IH.
  by destruct e.
Qed.

Lemma fetches_quiet_prints (ls : list out_line) :
  fetches (Eprint (Self := Self) <$> ls) = 0.
Proof. induction ls as [|l ls IH]; [done|]. by rewrite fmap_cons. Qed.

Lemma fetches_validate args ign f n :
  fetches (validate_events args ign f n) = 1.
Proof.
  unfold validate_events.
  change (Efetch_checks :: ?l) with ([Efetch_checks (Self := Self)] ++ l).
  rewrite !fetches_app, (fetches_loop _ (loop_checks_events _ _ _ _)).
  rewrite (fetches_loop (said _ _)) by (by apply loop_said).
  rewrite (fetches_loop (constructed <$> _)); [done|].
  apply Forall_fmap, Forall_forall. by intros c _.
Qed.

Lemma fetches_files args ign files : forall n,
  existsb (fun f => existsb (stops ign f) check_classes) files = false ->
  fetches (files_events args ign files n) = length files.
Proof.
  induction files as [|f files IH]; intros n Hno; [done|].
  cbn [existsb] in Hno. apply orb_false_elim in Hno as [Hf Hfiles].
  cbn [files_events]. rewrite Hf, fetches_app, fetches_validate, IH by done.
  done.
Qed.

Lemma not_summary_validate args ign f n :
  Forall not_summary (validate_events args ign f n).
Proof.
  assert (forall d : list event, Forall loop_event d -> Forall not_summary d)
    as Hl.
  { intros d Hd. eapply Forall_impl; [exact Hd|]. by intros []. }
  unfold validate_events. apply Forall_app. split.
  - apply Hl. by apply loop_said.
  - constructor; [done|]. apply Forall_app. split.
    + apply Forall_fmap, Forall_forall. by intros c _.
    + apply Hl, loop_checks_events.
Qed.

Lemma not_summary_files args ign files : forall n,
  Forall not_summary (files_events args ign files n).
Proof.
  induction files as [|f files IH]; intros n; [constructor|].
  cbn [files_events]. apply Forall_app. split; [apply not_summary_validate|].
  destruct (existsb _ _); [constructor | apply IH].
Qed.

(** ** A check that is neither a [ContentCheck] nor a [LineCheck] *)

Lemma check_events_stop v ign f (c : instance) :
  stops ign f (cls c) = true ->
  check_events v ign f c =
  (Econsider (cls c) (obj_id c) f ::
   said v (ORunning (check_name (cls c)))) ++ [Edispatch (cls c) (obj_id c) f].
Proof.
  unfold stops, applicable, is_other, check_events, dispatch_events.
  intros [[-> ->]%andb_prop Ho]%andb_prop. simpl.
  by destruct (body (cls c)).
Qed.

Lemma checks_events_stop v ign f (checks : list instance) :
  existsb (stops ign f) (cls <$> checks) = true ->
  exists d (c : instance),
    checks_events v ign f checks = d ++ [Edispatch (cls c) (obj_id c) f] /\
    stops ign f (cls c) = true /\ Forall loop_event d.
Proof.
  induction checks as [|c checks IH]; [done|].
  cbn [fmap list_fmap existsb checks_events].
  destruct (stops ign f (cls c)) eqn:Hc; cbn [orb].
  - intros _. eexists _, c. rewrite app_nil_r. split_and!; [|done|].
    + by apply check_events_stop.
    + constructor; [done|]. by apply loop_said.
  - intros (d & c' & Heq & Hc' & Hd)%IH. exists (check_events v ign f c ++ d), c'.
    rewrite Heq, app_assoc. split_and!; [done | done |].
    apply Forall_app. split; [apply loop_check_events | done].
Qed.

Lemma snoc_middle {A} (a b d : list A) x e :
  a ++ x :: b ++ d ++ [e] = (a ++ x :: b ++ d) ++ [e].
Proof. by rewrite <- !app_assoc, <- app_comm_cons, <- app_assoc. Qed.

Lemma loop_not_summary (d : list event) :
  Forall loop_event d -> Forall not_summary d.
Proof. intros Hd. eapply Forall_impl; [exact Hd|]. by intros []. Qed.

Lemma files_events_stop args ign files : forall n,
  existsb (fun f => existsb (stops ign f) check_classes) files = true ->
  exists d c id f,
    files_events args ign files n = d ++ [Edispatch c id f] /\
    stops ign f c = true /\ Forall not_summary d.
Proof.
  induction files as [|f files IH]; intros n; [done|].
  cbn [existsb files_events].
  destruct (existsb (stops ign f) check_classes) eqn:Hf; cbn [orb].
  - intros _. rewrite app_nil_r. unfold validate_events.
    rewrite <- (fetched_classes args n) in Hf.
    destruct (checks_events_stop (verbose args) ign f _ Hf)
      as (d & c & -> & Hc & Hd).
    exists (said (verbose args) (OValidating f) ++
            Efetch_checks :: (constructed <$> fetched args n) ++ d),
      (cls c), (obj_id c), f.
    split_and!; [apply snoc_middle | done |].
    apply Forall_app. split; [by apply loop_not_summary, loop_said|].
    constructor; [done|]. apply Forall_app. split.
    + apply Forall_fmap, Forall_forall. by intros ? _.
    + by apply loop_not_summary.
  - intros (d & c & id & f' & Heq & Hc & Hd)%(IH (n + 6 + length extensions)).
    eexists _, c, id, f'. rewrite Heq, app_assoc. split_and!; [done|done|].
    apply Forall_app. split; [apply not_summary_validate | done].
Qed.

(** C5, as the code has it.  A check that is neither a [ContentCheck]
    nor a [LineCheck] stops the run with a [TypeError] when it is
    dispatched, that is for a file for which it is not skipped.  When
    there are such a check and such a selected file, the run raises
    [TypeError]: the last thing it does is the dispatch of such a check
    for such a file, and it prints no line of the summary.  When each
    such check is skipped for each selected file, and so when no file
    is selected, the run does not stop: it returns the exit status
    after the summary, which is the last thing it prints.  For one
    check that is of neither kind and one file, [run_check] raises
    [TypeError] right after the dispatch when the check is not skipped,
    and returns after the skip when it is. *)
Theorem unknown_kind_aborts args_id args ignored_paths paths exts ign
    (s : state) :
  run_inputs args = Some (ignored_paths, paths, exts, ign) ->
  let file_iter := find_files paths exts ignored_paths in
  let files := parse <$> selected file_iter in
  let s' := fst (run args_id args s) in
  (forall f c,
     f ∈ files -> c ∈ check_classes -> is_other c = true ->
     applicable (list_to_set ign) c f = true ->
     snd (run args_id args s) = inl TypeError /\
     exists d c' id f',
       trace s' = trace s ++ d ++ [Edispatch c' id f'] /\
       is_other c' = true /\ applicable (list_to_set ign) c' f' = true /\
       Forall not_summary d) /\
  ((forall f c,
      f ∈ files -> c ∈ check_classes -> is_other c = true ->
      applicable (list_to_set ign) c f = false) ->
   snd (run args_id args s) = inr (exit_status (error_counts s')) /\
   exists d,
     trace s' =
     trace s ++ d ++
     (Eprint <$>
        summary_lines (error_counts s')
          (Z.of_nat (length (selected file_iter)))
          (Z.of_nat (length (ignored file_iter)))) /\
     Forall not_summary d) /\
  (forall args' ignoreables f' (c' : instance) (s0 : state),
     is_other (cls c') = true ->
     (applicable ignoreables (cls c') f' = true ->
      snd (run_check args' ignoreables f' c' s0) = inl TypeError /\
      trace (fst (run_check args' ignoreables f' c' s0)) =
      trace s0 ++
      (Econsider (cls c') (obj_id c') f' ::
       said (verbose args') (ORunning (check_name (cls c')))) ++
      [Edispatch (cls c') (obj_id c') f']) /\
     (applicable ignoreables (cls c') f' = false ->
      snd (run_check args' ignoreables f' c' s0) = inr tt /\
      trace (fst (run_check args' ignoreables f' c' s0)) =
      trace s0 ++
      (Econsider (cls c') (obj_id c') f' ::
       said (verbose args')
         (if extension_ok (cls c') f'
          then OSkipIgnoreable (check_name (cls c'))
          else OSkipExtension (check_name (cls c')) (extension f'))) ++
      [Eskip (cls c') (obj_id c') f'])).
Proof.
  intros Hin file_iter files s'. subst s'.
  assert (Forall not_summary
            (Eprint (Self := Self) <$>
               OScanning :: scan_lines (get_truthy args "verbose") file_iter))
    as Hscan.
  { rewrite fmap_cons. constructor; [done|].
    apply Forall_fmap, Forall_forall. intros l Hl. simpl.
    unfold scan_lines in Hl.
    destruct (get_truthy args "verbose"); [|by apply elem_of_nil in Hl].
    apply list_elem_of_fmap in Hl as ([fn []] & -> & _); done. }
  rewrite (run_eq _ _ _ _ _ _ _ Hin). cbv zeta. fold file_iter. fold files.
  unfold bind.
  match goal with |- context [for_each ?l ?b ?s0] =>
    destruct (files_trace (loop_args args_id args) (list_to_set ign) l s0)
      as [Ht Hr] end.
  destruct (for_each _ _ _) as [s1 r]. cbn [fst snd] in Ht, Hr. subst r.
  cbn [append trace next_id] in Ht. split_and!.
  - intros f c Hf Hc Ho Ha.
    assert (existsb
              (fun f => existsb (stops (list_to_set ign) f) check_classes)
              files = true) as Hstop.
    { apply existsb_exists. exists f. split; [by apply list_elem_of_In|].
      apply existsb_exists. exists c. split; [by apply list_elem_of_In|].
      unfold stops. by rewrite Ha, Ho. }
    rewrite Hstop. cbn [fst snd]. split; [done|].
    destruct (files_events_stop (loop_args args_id args) (list_to_set ign)
                _ (next_id s) Hstop) as (d & c' & id & f' & Heq & Hc' & Hd).
    unfold stops in Hc'. apply andb_prop in Hc' as [Ha' Ho'].
    exists ((Eprint <$>
               OScanning :: scan_lines (get_truthy args "verbose") file_iter)
            ++ d), c', id, f'.
    split_and!; [|done|done|by apply Forall_app].
    rewrite Ht, Heq, fmap_cons. rewrite <- !app_assoc. cbn [app].
    by rewrite <- ?app_assoc.
  - intros Hskip.
    assert (existsb
              (fun f => existsb (stops (list_to_set ign) f) check_classes)
              files = false) as Hstop.
    { apply not_true_is_false.
      intros (f & Hf%list_elem_of_In & Hc)%existsb_exists.
      apply existsb_exists in Hc as (c & Hc%list_elem_of_In & Hs).
      unfold stops in Hs. apply andb_prop in Hs as [Ha Ho].
      rewrite (Hskip f c Hf Hc Ho) in Ha. done. }
    rewrite Hstop. rewrite summary_eq. cbn [fst snd append error_counts trace].
    split; [done|].
    exists ((Eprint <$>
               OScanning :: scan_lines (get_truthy args "verbose") file_iter)
            ++ files_events (loop_args args_id args) (list_to_set ign) files
                 (next_id s)).
    split; [|apply Forall_app; split; [done|apply not_summary_files]].
    rewrite Ht, fmap_cons. rewrite <- !app_assoc. cbn [app].
    by rewrite <- ?app_assoc.
  - intros args' ignoreables f' c' s0 Ho'. split; intros Ha'.
    + destruct (effect_run_check args' ignoreables f' c' s0)
        as (-> & _ & -> & _).
      unfold stops. rewrite Ha', Ho'. split; [done|].
      rewrite check_events_stop; [done|]. unfold stops. by rewrite Ha', Ho'.
    + destruct (effect_run_check args' ignoreables f' c' s0)
        as (-> & _ & -> & _).
      unfold stops. rewrite Ha'. split; [done|].
      unfold check_events. unfold applicable in Ha'.
      destruct (extension_ok (cls c') f'); cbn [negb]; [|done].
      cbn [andb] in Ha'. rewrite Ha'. done.
Qed.

(** ** Check objects are made anew for each file *)

Lemma fetched_selves cfg n :
  self <$> fetched cfg n = (fun p => init p (items cfg)) <$> check_classes.
Proof.
  unfold fetched, check_classes. rewrite !fmap_app. f_equal.
  rewrite fmap_imap.
  etrans; [apply (imap_const (fun p => init p (items cfg)))|]. done.
Qed.

Lemma output_line_blocks v ign (c : check_class) id id' f numbered :
  forall first,
  output (line_blocks v ign c id f first numbered) =
  output (line_blocks v ign c id' f first numbered).
Proof.
  induction numbered as [|[line ys] numbered IH]; intros first; [done|].
  rewrite !line_blocks_cons, !output_app, IH. done.
Qed.

Lemma output_check_events v ign f (c c' : instance) :
  cls c = cls c' -> self c = self c' ->
  output (check_events v ign f c) = output (check_events v ign f c').
Proof.
  intros Hc Hs. unfold check_events. rewrite <- Hc.
  change (output (?e :: ?l)) with (output [e] ++ output l). f_equal.
  destruct (extension_ok (cls c) f); simpl;
    [destruct (reports_ok ign (cls c)); simpl|];
    rewrite !output_app; f_equal.
  change (output (?e :: ?l)) with (output [e] ++ output l). f_equal.
  unfold dispatch_events. rewrite <- Hc, <- Hs.
  destruct (body (cls c)); [done | apply output_line_blocks | done].
Qed.

Lemma output_checks_events v ign f (checks : list instance) :
  forall checks' : list instance,
  cls <$> checks = cls <$> checks' -> self <$> checks = self <$> checks' ->
  output (checks_events v ign f checks) =
  output (checks_events v ign f checks').
Proof.
  induction checks as [|c checks IH]; intros [|c' checks']; try done.
  rewrite !fmap_cons. intros [= Hc Hcs] [= Hs Hss].
  cbn [checks_events]. rewrite !output_app, <- Hc.
  rewrite (output_check_events _ _ _ c c') by done. f_equal.
  destruct (stops ign f (cls c)); [done|]. by apply IH.
Qed.

Lemma output_validate_events args ign f n n' :
  output (validate_events args ign f n) =
  output (validate_events args ign f n').
Proof.
  unfold validate_events. rewrite !output_app. f_equal.
  change (output (?e :: ?l)) with (output [e] ++ output l). f_equal.
  rewrite !output_app. f_equal.
  - assert (forall cs : list instance, output (constructed <$> cs) = [])
      as Hcs by (induction cs; [done | by rewrite fmap_cons]).
    by rewrite !Hcs.
  - apply output_checks_events.
    + by rewrite !fetched_classes.
    + by rewrite !fetched_selves.
Qed.

(** C9.  The check objects are made anew for each file: in a run, no
    check object is considered twice, so none is used for two files;
    when [run] returns, [fetch_checks] was called once for each selected
    file; the call for a file is the first thing that [validate] does,
    after saying so in verbose mode, and it is the new objects that are
    run; and what is printed for a file does not depend on the state in
    which [validate] starts, hence not on the files before it. *)
Theorem checks_made_anew (parsed : Namespace) :
  NoDup (considered_ids (trace (fst (main parsed initial_state)))) /\
  (forall args_id args ignored_paths paths exts ign (s : state) code,
     run_inputs args = Some (ignored_paths, paths, exts, ign) ->
     snd (run args_id args s) = inr code ->
     fetches (trace (fst (run args_id args s))) =
     fetches (trace s) +
     length (selected (find_files paths exts ignored_paths))) /\
  (forall args ignoreables f (s : state),
     trace (fst (validate args ignoreables f s)) =
     trace s ++
     said (verbose args) (OValidating f) ++
     Efetch_checks :: (constructed <$> fetched args (next_id s)) ++
     checks_events (verbose args) ignoreables f (fetched args (next_id s))) /\
  (forall args ignoreables f (s1 s2 : state),
     exists d1 d2,
       trace (fst (validate args ignoreables f s1)) = trace s1 ++ d1 /\
       trace (fst (validate args ignoreables f s2)) = trace s2 ++ d2 /\
       output d1 = output d2).
Proof.
  split_and!.
  - destruct (main_Inv parsed) as (ign & cur & HI). apply HI.
  - intros args_id args ignored_paths paths exts ign s code Hin.
    rewrite (run_eq _ _ _ _ _ _ _ Hin). cbv zeta. unfold bind.
    match goal with |- context [for_each ?l ?b ?s0] =>
      destruct (files_trace (loop_args args_id args) (list_to_set ign) l s0)
        as [Ht Hr] end.
    destruct (for_each _ _ _) as [s1 [e|[]]]; [done|]. intros _.
    cbn [fst snd] in Ht, Hr. rewrite summary_eq. cbn [fst append trace].
    rewrite fetches_app, fetches_quiet_prints, Ht. cbn [append trace next_id].
    destruct (existsb _ _) eqn:Hstop; [done|].
    rewrite !fetches_app, fetches_files by done.
    change (Eprint OScanning :: ?l) with (Eprint (Self := Self) <$> OScanning :: scan_lines (get_truthy args "verbose") (find_files paths exts ignored_paths)).
    rewrite fetches_quiet_prints, length_fmap. lia.
  - intros args ignoreables f s.
    by destruct (effect_validate args ignoreables f s) as (-> & _).
  - intros args ignoreables f s1 s2.
    exists (validate_events args ignoreables f (next_id s1)),
      (validate_events args ignoreables f (next_id s2)).
    split_and!.
    + by destruct (effect_validate args ignoreables f s1) as (-> & _).
    + by destruct (effect_validate args ignoreables f s2) as (-> & _).
    + apply output_validate_events.
Qed.

(** ** [configure] *)

Lemma vars_lookup parsed :
  vars parsed !! "ignore" = Some (VSets (ns_ignore parsed)) /\
  vars parsed !! "config" = Some (VList (ns_config parsed)) /\
  vars parsed !! "extension" = Some (VList (ns_extension parsed)) /\
  vars parsed !! "ignore_path" = Some (VList (ns_ignore_path parsed)) /\
  vars parsed !! "max_line_length" = Some (VInt (ns_max_line_length parsed)) /\
  vars parsed !! "allow_long_titles" =
    Some (VBool (ns_allow_long_titles parsed)) /\
  vars parsed !! "verbose" = Some (VBool (ns_verbose parsed)) /\
  vars parsed !! "sphinx" = Some (VBool (ns_sphinx parsed)) /\
  vars parsed !! "paths" = Some (VList (ns_paths parsed)).
Proof. destruct parsed. by split_and!. Qed.

Lemma try_get_inr {A} (r : exn + A) o :
  try_get r = inr o ->
  match r with inr a => Some a | inl _ => None end = o.
Proof. destruct r as [[]|a]; simpl; congruence. Qed.

Lemma lookup_set_if_some_eq k o (m : gmap string pyval) :
  set_if_some k o m !! k = match o with Some v => Some v | None => m !! k end.
Proof. unfold set_if_some. destruct o; [apply lookup_insert_eq | done]. Qed.

Lemma lookup_set_if_some_ne k o (m : gmap string pyval) k' :
  k <> k' -> set_if_some k o m !! k' = m !! k'.
Proof.
  intros Hne. unfold set_if_some. destruct o; [|done].
  by apply lookup_insert_ne.
Qed.

Ltac lookup_cfg :=
  repeat first
    [ rewrite lookup_insert_ne by done
    | rewrite lookup_set_if_some_ne by done
    | rewrite lookup_set_if_some_eq
    | rewrite lookup_insert_eq
    | rewrite lookup_empty ].

(** What [extract_config] returns, option by option. *)
Lemma extract_config_lookup args parser read_files cfg :
  read_config_files args = inr (parser, read_files) ->
  extract_config args = inr cfg ->
  cfg !! "max_line_length" =
    VInt <$> from_file read_files (getint parser "doc8" "max-line-length") /\
  cfg !! "allow_long_titles" =
    VBool <$>
      from_file read_files (getboolean parser "doc8" "allow-long-titles") /\
  cfg !! "verbose" =
    VBool <$> from_file read_files (getboolean parser "doc8" "verbose") /\
  cfg !! "sphinx" =
    VBool <$> from_file read_files (getboolean parser "doc8" "sphinx") /\
  cfg !! "ignore" =
    VSet ∘ split_set_type <$>
      from_file read_files (get parser "doc8" "ignore") /\
  cfg !! "ignore_path" =
    VSet ∘ split_set_type <$>
      from_file read_files (get parser "doc8" "ignore_path") /\
  cfg !! "extension" =
    match split_strip <$>
            from_file read_files (get parser "doc8" "extensions") with
    | Some (e :: es) => Some (VList (e :: es))
    | _ => None
    end /\
  cfg !! "paths" = None /\ cfg !! "config" = None /\ cfg !! "version" = None.
Proof.
  intros Hread. unfold extract_config. rewrite Hread. cbn [ebind].
  unfold from_file. case_bool_decide as Hrf.
  { intros [= <-]. by rewrite !lookup_empty. }
  destruct (try_get (getint _ _ _)) as [?|o1] eqn:E1; [done|].
  apply try_get_inr in E1 as ->. cbn [ebind].
  destruct (try_get (get parser "doc8" "ignore")) as [?|o2] eqn:E2; [done|].
  apply try_get_inr in E2 as ->. cbn [ebind].
  destruct (try_get (get parser "doc8" "ignore_path")) as [?|o3] eqn:E3;
    [done|].
  apply try_get_inr in E3 as ->. cbn [ebind].
  destruct (try_get (getboolean parser "doc8" "allow-long-titles"))
    as [?|o4] eqn:E4; [done|].
  apply try_get_inr in E4 as ->. cbn [ebind].
  destruct (try_get (getboolean parser "doc8" "sphinx")) as [?|o5] eqn:E5;
    [done|].
  apply try_get_inr in E5 as ->. cbn [ebind].
  destruct (try_get (getboolean parser "doc8" "verbose")) as [?|o6] eqn:E6;
    [done|].
  apply try_get_inr in E6 as ->. cbn [ebind].
  destruct (try_get (get parser "doc8" "extensions")) as [?|o7] eqn:E7;
    [done|].
  apply try_get_inr in E7 as ->. cbn [ebind].
  intros [= <-].
  destruct (split_strip <$> o7) as [[|e es]|]; split_and!; lookup_cfg;
    first [done | by destruct o1 | by destruct o2 | by destruct o3
          | by destruct o4 | by destruct o5 | by destruct o6].
Qed.

Lemma popped_ne (cfg : gmap string pyval) k :
  k <> "ignore" -> k <> "sphinx" -> k <> "extension" -> k <> "ignore_path" ->
  delete "ignore_path"
    (delete "extension" (delete "sphinx" (delete "ignore" cfg))) !! k =
  cfg !! k.
Proof. intros. by rewrite !lookup_delete_ne. Qed.

Lemma popped_eq (cfg : gmap string pyval) k :
  k = "ignore" \/ k = "sphinx" \/ k = "extension" \/ k = "ignore_path" ->
  delete "ignore_path"
    (delete "extension" (delete "sphinx" (delete "ignore" cfg))) !! k = None.
Proof.
  intros [-> | [-> | [-> | ->]]].
  - rewrite !lookup_delete_ne by done. apply lookup_delete_eq.
  - rewrite !lookup_delete_ne by done. apply lookup_delete_eq.
  - rewrite lookup_delete_ne by done. apply lookup_delete_eq.
  - apply lookup_delete_eq.
Qed.

Lemma read_config_files_ignore args v :
  read_config_files (<["ignore" := v]> args) = read_config_files args.
Proof.
  unfold read_config_files, getitem. by rewrite lookup_insert_ne.
Qed.

(** C4, as the code has it.  [configure] starts from the values of the
    command line, which are the built-in defaults for the options that
    were not given, and then takes the values of the configuration
    files: for [max_line_length], [allow_long_titles], [verbose] and
    [sphinx] the value of the configuration files wins when they give
    one, and the value of the command line stays otherwise; the ignored
    codes, the extensions and the ignored paths of both are put
    together. *)
Theorem config_file_wins parsed parser read_files args :
  read_config_files (vars parsed) = inr (parser, read_files) ->
  configure (vars parsed) = inr args ->
  args !! "max_line_length" =
    Some (VInt (default (ns_max_line_length parsed)
                  (from_file read_files
                     (getint parser "doc8" "max-line-length")))) /\
  args !! "allow_long_titles" =
    Some (VBool (default (ns_allow_long_titles parsed)
                   (from_file read_files
                      (getboolean parser "doc8" "allow-long-titles")))) /\
  args !! "verbose" =
    Some (VBool (default (ns_verbose parsed)
                   (from_file read_files
                      (getboolean parser "doc8" "verbose")))) /\
  args !! "sphinx" =
    Some (VBool (default (ns_sphinx parsed)
                   (from_file read_files
                      (getboolean parser "doc8" "sphinx")))) /\
  args !! "ignore" =
    Some (VSet (merge_sets (ns_ignore parsed) ∪
                default ∅
                  (split_set_type <$>
                     from_file read_files (get parser "doc8" "ignore")))) /\
  args !! "extension" =
    Some (VList (ns_extension parsed ++
                 default []
                   (split_strip <$>
                      from_file read_files
                        (get parser "doc8" "extensions")))) /\
  args !! "ignore_path" =
    Some (VList (ns_ignore_path parsed ++
                 elements
                   (default (∅ : gset string)
                      (split_set_type <$>
                         from_file read_files
                           (get parser "doc8" "ignore_path"))))).
Proof.
  intros Hread. unfold configure.
  destruct (vars_lookup parsed) as (Hi & Hc & He & Hp & Hm & Ha & Hv & Hs & _).
  unfold getitem at 1. rewrite Hi. cbn [ebind iter_sets].
  rewrite <- (read_config_files_ignore _
               (VSet (merge_sets (ns_ignore parsed)))) in Hread.
  destruct (extract_config _) as [e|cfg] eqn:Hcfg; [done|]. cbn [ebind].
  destruct (extract_config_lookup _ _ _ _ Hread Hcfg)
    as (L1 & L2 & L3 & L4 & L5 & L6 & L7 & _).
  unfold getitem at 1. rewrite lookup_insert_eq. cbn [ebind].
  rewrite L5.
  set (f_ignore := from_file read_files (get parser "doc8" "ignore")) in *.
  set (f_sphinx := from_file read_files (getboolean parser "doc8" "sphinx"))
    in *.
  set (f_ext := from_file read_files (get parser "doc8" "extensions")) in *.
  set (f_path := from_file read_files (get parser "doc8" "ignore_path")) in *.
  set (f_mll := from_file read_files (getint parser "doc8" "max-line-length"))
    in *.
  set (f_alt := from_file read_files
                  (getboolean parser "doc8" "allow-long-titles")) in *.
  set (f_verbose := from_file read_files (getboolean parser "doc8" "verbose"))
    in *.
  clearbody f_ignore f_sphinx f_ext f_path f_mll f_alt f_verbose.
  assert (set_update (VSet (merge_sets (ns_ignore parsed)))
            (default (VSet ∅) (VSet ∘ split_set_type <$> f_ignore)) =
          inr (VSet (merge_sets (ns_ignore parsed) ∪
                     default ∅ (split_set_type <$> f_ignore)))) as ->.
  { destruct f_ignore; simpl; by rewrite ?list_to_set_elements_L,
      ?elements_empty. }
  cbn [ebind].
  rewrite (lookup_delete_ne cfg "ignore" "sphinx") by done. rewrite L4.
  change (match VBool <$> f_sphinx with
          | Some b => <["sphinx" := b]> ?m
          | None => ?m
          end) with (set_if_some "sphinx" (VBool <$> f_sphinx) m).
  unfold getitem at 1. lookup_cfg. rewrite He. cbn [ebind].
  rewrite (lookup_delete_ne (delete "ignore" cfg) "sphinx" "extension")
    by done.
  rewrite (lookup_delete_ne cfg "ignore" "extension") by done. rewrite L7.
  assert (list_extend (VList (ns_extension parsed))
            (default (VList [])
               match split_strip <$> f_ext with
               | Some (e :: es) => Some (VList (e :: es))
               | _ => None
               end) =
          inr (VList (ns_extension parsed ++
                      default [] (split_strip <$> f_ext)))) as ->.
  { destruct (split_strip <$> f_ext) as [[|e es]|]; simpl;
      by rewrite ?app_nil_r. }
  cbn [ebind]. unfold getitem at 1. lookup_cfg. rewrite Hp. cbn [ebind].
  rewrite (lookup_delete_ne _ "extension" "ignore_path") by done.
  rewrite (lookup_delete_ne _ "sphinx" "ignore_path") by done.
  rewrite (lookup_delete_ne _ "ignore" "ignore_path") by done. rewrite L6.
  assert (list_extend (VList (ns_ignore_path parsed))
            (default (VList []) (VSet ∘ split_set_type <$> f_path)) =
          inr (VList (ns_ignore_path parsed ++
                      elements (default (∅ : gset string)
                                  (split_set_type <$> f_path))))) as ->.
  { destruct f_path; simpl; by rewrite ?elements_empty. }
  cbn [ebind]. intros [= <-].
  split_and!; rewrite lookup_union.
  - rewrite popped_ne, L1 by done. lookup_cfg. rewrite Hm. by destruct f_mll.
  - rewrite popped_ne, L2 by done. lookup_cfg. rewrite Ha. by destruct f_alt.
  - rewrite popped_ne, L3 by done. lookup_cfg. rewrite Hv.
    by destruct f_verbose.
  - rewrite popped_eq by auto. lookup_cfg. rewrite Hs. by destruct f_sphinx.
  - rewrite popped_eq by auto. by lookup_cfg.
  - rewrite popped_eq by auto. by lookup_cfg.
  - rewrite popped_eq by auto. by lookup_cfg.
Qed.

End Properties.

(** * The claims on the small installation *)

Example split_set_type_ex :
  split_set_type " D001, D002 ,,D001 " = {["D001"; "D002"]}.
Proof. vm_compute. reflexivity. Qed.

(** The blanks of Python 3 that are no blanks of ASCII are removed too:
    here the characters 31 and 160 around a code. *)
Example split_set_type_blanks :
  split_set_type
    (String (Ascii.ascii_of_nat 31)
       ("D001" +:+ String (Ascii.ascii_of_nat 160) ",")) = {["D001"]}.
Proof. vm_compute. reflexivity. Qed.

Example two_files_default :
  snd (main (world := Demo.plain) Demo.defaults initial_state) = inr 1%Z /\
  output (trace (fst (main (world := Demo.plain) Demo.defaults
                        initial_state))) =
  [OScanning;
   OViolation false "a.rst" 3 "D002" "Trailing whitespace";
   OViolation false "b.txt" 1 "D003" "Tabulation used";
   OSeparator; OFilesScanned 2; OFilesIgnored 0; OTotalErrors 2;
   ODetailedHeader;
   ODetail "CheckCarriageReturn" 0; ODetail "CheckIndentationNoTab" 1;
   ODetail "CheckMaxLineLength" 0; ODetail "CheckTrailingWhitespace" 1;
   ODetail "CheckValidity" 0].
Proof. split; vm_compute; reflexivity. Qed.

Example two_files_ignoring_D002 :
  output (trace (fst (run (world := Demo.plain) 0 (Demo.finished ["D002"])
                        initial_state))) =
  [OScanning;
   OViolation false "b.txt" 1 "D003" "Tabulation used";
   OSeparator; OFilesScanned 2; OFilesIgnored 0; OTotalErrors 1;
   ODetailedHeader;
   ODetail "CheckCarriageReturn" 0; ODetail "CheckIndentationNoTab" 1;
   ODetail "CheckMaxLineLength" 0; ODetail "CheckTrailingWhitespace" 0;
   ODetail "CheckValidity" 0].
Proof. vm_compute. reflexivity. Qed.


(** C1 on the two files, with D002 ignored. *)
Lemma ignore_set_complete_witness :
  trace (initial_state (Self := Z)) = [] /\
  error_counts (initial_state (Self := Z)) = ∅ /\
  forall v fn line_num code message,
    code ∈ ignoreables_of (Demo.finished ["D002"]) ->
    ~ In (Eprint (OViolation v fn line_num code message))
        (trace (fst (run (world := Demo.plain) 0 (Demo.finished ["D002"])
                       initial_state))).
Proof.
  split; [reflexivity|]. split; [reflexivity|].
  exact (proj1 (ignore_set_complete (world := Demo.plain) 0
                  (Demo.finished ["D002"]) initial_state eq_refl eq_refl)).
Defined.

(** C2 on the two files: two violations, exit status 1. *)
Lemma exit_status_of_main_witness :
  exists s,
    main (world := Demo.plain) Demo.defaults initial_state = (s, inr 1%Z) /\
    (1 = (if total (error_counts s) =? 0 then 0 else 1) /\ (1 = 0 \/ 1 = 1))%Z.
Proof.
  assert (snd (main (world := Demo.plain) Demo.defaults initial_state) = inr 1%Z)
    as Hs by (vm_compute; reflexivity).
  destruct (main (world := Demo.plain) Demo.defaults initial_state) as [s r] eqn:E.
  cbn [snd] in Hs. subst r. exists s. split; [reflexivity|].
  exact (exit_status_of_main (world := Demo.plain) Demo.defaults s 1 E).
Defined.

(** C4, as the spec has it, fails: the command line asks for lines of
    100 characters, for long titles and for verbose mode; the
    configuration file says 90, no and no, and its values are the
    effective ones. *)
Lemma command_line_wins_counterexample :
  ns_max_line_length Demo.long_lines = 100%Z /\
  ns_allow_long_titles Demo.long_lines = true /\
  ns_verbose Demo.long_lines = true /\
  let args := configure (world := Demo.with_ini) (vars Demo.long_lines) in
  effective "max_line_length" args = Some (VInt 90) /\
  effective "allow_long_titles" args = Some (VBool false) /\
  effective "verbose" args = Some (VBool false).
Proof. repeat split; vm_compute; reflexivity. Qed.

(** C4, as the code has it, on the same command line and file. *)
Lemma config_file_wins_witness :
  exists args,
    read_config_files (world := Demo.with_ini) (vars Demo.long_lines) =
      inr (Demo.ini 90 false false, ["doc8.ini"]) /\
    configure (world := Demo.with_ini) (vars Demo.long_lines) = inr args /\
    args !! "max_line_length" = Some (VInt 90) /\
    args !! "allow_long_titles" = Some (VBool false) /\
    args !! "verbose" = Some (VBool false).
Proof.
  assert (read_config_files (world := Demo.with_ini) (vars Demo.long_lines) =
          inr (Demo.ini 90 false false, ["doc8.ini"])) as H1
    by (vm_compute; reflexivity).
  assert (match configure (world := Demo.with_ini) (vars Demo.long_lines) with
          | inr _ => True
          | inl _ => False
          end) as Hr by (vm_compute; exact I).
  destruct (configure (world := Demo.with_ini) (vars Demo.long_lines))
    as [e|args] eqn:H2; [destruct Hr|].
  exists args. split; [exact H1|]. split; [reflexivity|].
  destruct (config_file_wins (world := Demo.with_ini) Demo.long_lines
              (Demo.ini 90 false false) ["doc8.ini"] args H1 H2)
    as (Hm & Ht & Hv & _).
  split; [exact Hm|]. split; [exact Ht|exact Hv].
Defined.

(** C5, as the spec has it, fails: a plugin that is of neither kind and
    that understands [.rst] files only is reached for [b.txt], where it
    gets its entry in [error_counts], and skipped; the run ends with
    the summary and the exit status 0. *)
Lemma unknown_kind_counterexample :
  let c := Demo.stray (Some Demo.rst_only) None in
  let r := run (world := Demo.with_stray (Some Demo.rst_only)) 0
             (Demo.finished ["D003"]) initial_state in
  is_other c = true /\
  error_counts (fst r) !! "Stray" = Some 0%Z /\
  snd r = inr 0%Z /\
  output (trace (fst r)) =
    [OScanning; OSeparator; OFilesScanned 1; OFilesIgnored 0; OTotalErrors 0;
     ODetailedHeader;
     ODetail "CheckCarriageReturn" 0; ODetail "CheckIndentationNoTab" 0;
     ODetail "CheckMaxLineLength" 0; ODetail "CheckTrailingWhitespace" 0;
     ODetail "CheckValidity" 0; ODetail "Stray" 0].
Proof.
  split; [reflexivity|]. repeat split; vm_compute; reflexivity.
Qed.

(** C5, as the code has it: with a plugin of neither kind that has no
    [EXT_MATCHER] the run stops; with one that understands [.rst] files
    only, and [b.txt] as the only file, the run returns. *)
Lemma unknown_kind_aborts_witness :
  let f := Demo.the_files "b.txt" in
  let c := Demo.stray None None in
  run_inputs (Demo.finished []) = Some ([], ["."], FILE_PATTERNS, []) /\
  f ∈ parse (Collaborators := Demo.with_stray None) <$>
      selected (find_files (Collaborators := Demo.with_stray None)
                  ["."] FILE_PATTERNS []) /\
  c ∈ check_classes (world := Demo.with_stray None) /\
  is_other c = true /\
  applicable ∅ c f = true /\
  snd (run (world := Demo.with_stray None) 0 (Demo.finished [])
         initial_state) = inl TypeError /\
  run_inputs (Demo.finished ["D003"]) =
    Some ([], ["."], FILE_PATTERNS, ["D003"]) /\
  snd (run (world := Demo.with_stray (Some Demo.rst_only)) 0
         (Demo.finished ["D003"]) initial_state) = inr 0%Z.
Proof.
  intros f c.
  assert (run_inputs (Demo.finished []) = Some ([], ["."], FILE_PATTERNS, []))
    as H1 by (vm_compute; reflexivity).
  assert (f ∈ parse (Collaborators := Demo.with_stray None) <$>
              selected (find_files (Collaborators := Demo.with_stray None)
                          ["."] FILE_PATTERNS [])) as H2
    by apply list_elem_of_here.
  assert (c ∈ check_classes (world := Demo.with_stray None)) as H3
    by (do 5 apply list_elem_of_further; apply list_elem_of_here).
  assert (is_other c = true) as H4 by reflexivity.
  assert (applicable (list_to_set []) c f = true) as H5 by reflexivity.
  assert (run_inputs (Demo.finished ["D003"]) =
          Some ([], ["."], FILE_PATTERNS, ["D003"])) as H6
    by (vm_compute; reflexivity).
  assert (forall f' c',
            f' ∈ parse (Collaborators := Demo.with_stray (Some Demo.rst_only))
                 <$> selected
                       (find_files
                          (Collaborators := Demo.with_stray (Some Demo.rst_only))
                          ["."] FILE_PATTERNS []) ->
            c' ∈ check_classes (world := Demo.with_stray (Some Demo.rst_only)) ->
            is_other c' = true ->
            applicable (list_to_set ["D003"]) c' f' = false) as H7.
  { intros f' c' Hf Hc Ho. apply list_elem_of_singleton in Hf as ->.
    unfold check_classes in Hc. cbn in Hc.
    repeat (apply elem_of_cons in Hc as [->|Hc]); try discriminate Ho.
    - reflexivity.
    - apply elem_of_nil in Hc. destruct Hc. }
  split; [exact H1|]. split; [exact H2|]. split; [exact H3|].
  split; [exact H4|]. split; [exact H5|]. split.
  { exact (proj1 (proj1 (unknown_kind_aborts (world := Demo.with_stray None) 0
                           (Demo.finished []) [] ["."] FILE_PATTERNS []
                           initial_state H1)
                    f c H2 H3 H4 H5)). }
  split; [exact H6|].
  rewrite (proj1 (proj1 (proj2 (unknown_kind_aborts
                                  (world := Demo.with_stray (Some Demo.rst_only))
                                  0 (Demo.finished ["D003"]) [] ["."]
                                  FILE_PATTERNS ["D003"] initial_state H6))
                    H7)).
  vm_compute. reflexivity.
Defined.

(** C6 with one plugin. *)
Lemma fetch_checks_order_witness :
  let cfg := {| dict_id := 0; items := Demo.finished [] |} in
  let s := bump (initial_state (Self := Z)) in
  dict_id cfg < next_id s /\
  exists s' base addons copy_of_cfg,
    fetch_checks (world := Demo.with_stray None) cfg s =
      (s', inr (base ++ addons)) /\
    cls <$> base =
      [Demo.validity; Demo.trailing_whitespace; Demo.indentation_no_tab;
       Demo.carriage_return; Demo.max_line_length] /\
    cls <$> addons = [Demo.stray None None] /\
    Forall (fun c => cfg_ref c = cfg) base /\
    Forall (fun c => cfg_ref c = copy_of_cfg) addons /\
    items copy_of_cfg = items cfg /\
    dict_id copy_of_cfg <> dict_id cfg.
Proof.
  intros cfg s.
  assert (dict_id cfg < next_id s) as H by (simpl; lia).
  split; [exact H|].
  exact (fetch_checks_order (world := Demo.with_stray None) cfg s H).
Defined.

(** C7 for the check of trailing whitespace on [a.rst]: three calls, and
    the finding of the third line printed with the number 3. *)
Lemma dispatch_by_kind_witness :
  let f := Demo.the_files "a.rst" in
  let args := {| dict_id := 0; items := Demo.finished [] |} in
  let c := built Demo.trailing_whitespace 1 args in
  applicable ∅ (cls c) f = true /\
  trace (fst (run_check args ∅ f c initial_state)) =
  [Econsider Demo.trailing_whitespace 1 f;
   Edispatch Demo.trailing_whitespace 1 f;
   Ecall_line Demo.trailing_whitespace 1 f 1 "Title" [];
   Ecall_line Demo.trailing_whitespace 1 f 2 "=====" [];
   Ecall_line Demo.trailing_whitespace 1 f 3 "text "
     [("D002", "Trailing whitespace")];
   Eprint (OViolation false "a.rst" 3 "D002" "Trailing whitespace");
   Eincr "CheckTrailingWhitespace"].
Proof.
  intros f args c.
  assert (applicable ∅ (cls c) f = true) as H by reflexivity.
  split; [exact H|].
  exact (dispatch_by_kind args ∅ f c initial_state H).
Defined.

(** C10 where the only file found is ignoreable. *)
Lemma no_file_selected_witness :
  run_inputs (Demo.finished []) = Some ([], ["."], FILE_PATTERNS, []) /\
  selected (find_files (Collaborators := Demo.nothing_selected)
              ["."] FILE_PATTERNS []) = [] /\
  error_counts (initial_state (Self := Z)) = ∅ /\
  let r := run (world := Demo.nothing_selected) 0 (Demo.finished [])
             initial_state in
  snd r = inr 0%Z /\
  error_counts (fst r) = ∅ /\
  trace (fst r) =
    Eprint <$>
      [OScanning; OSeparator; OFilesScanned 0; OFilesIgnored 1;
       OTotalErrors 0].
Proof.
  assert (run_inputs (Demo.finished []) = Some ([], ["."], FILE_PATTERNS, []))
    as H1 by (vm_compute; reflexivity).
  split; [exact H1|]. split; [reflexivity|]. split; [reflexivity|].
  exact (no_file_selected (world := Demo.nothing_selected) 0
           (Demo.finished []) [] ["."] FILE_PATTERNS [] initial_state
           H1 eq_refl eq_refl).
Defined.

(** C3 on the two files: two violations printed and counted; and the
    check of trailing whitespace, skipped when D002 is ignored, has the
    entry 0. *)
Lemma error_counts_account_witness :
  let s := fst (main (world := Demo.plain) Demo.defaults initial_state) in
  let args := {| dict_id := 0; items := Demo.finished ["D002"] |} in
  let c := built Demo.trailing_whitespace 1 args in
  let f := Demo.the_files "a.rst" in
  length (violations (trace s)) = 2 /\
  Z.of_nat (length (violations (trace s))) = total (error_counts s) /\
  error_counts (initial_state (Self := Z)) !! check_name (cls c) = None /\
  applicable {["D002"]} (cls c) f = false /\
  error_counts (fst (run_check args {["D002"]} f c initial_state))
    !! check_name (cls c) = Some 0%Z.
Proof.
  intros s args c f.
  destruct (error_counts_account (world := Demo.plain) Demo.defaults)
    as (Hsum & _ & _ & Hentry & _).
  split; [vm_compute; reflexivity|]. split; [exact Hsum|].
  assert (error_counts (initial_state (Self := Z)) !! check_name (cls c) = None)
    as H1 by reflexivity.
  assert (applicable {["D002"]} (cls c) f = false) as H2
    by (vm_compute; reflexivity).
  split; [exact H1|]. split; [exact H2|].
  exact (Hentry args {["D002"]} f c initial_state H1 H2).
Defined.

(** C8 on the two files: the check of validity, which understands
    [.rst] files only, is not dispatched for [b.txt]. *)
Lemma extension_gating_witness :
  let s := fst (main (world := Demo.plain) Demo.defaults initial_state) in
  let f := Demo.the_files "b.txt" in
  EXT_MATCHER Demo.validity = Some Demo.rst_only /\
  Demo.rst_only (extension f) = false /\
  forall id, ~ In (Edispatch Demo.validity id f) (trace s).
Proof.
  intros s f.
  assert (EXT_MATCHER Demo.validity = Some Demo.rst_only) as H1
    by reflexivity.
  assert (Demo.rst_only (extension f) = false) as H2 by reflexivity.
  split; [exact H1|]. split; [exact H2|]. intros id.
  exact (proj1 (proj1 (extension_gating (world := Demo.plain) Demo.defaults)
                  Demo.validity id f Demo.rst_only H1 H2)).
Defined.

(** C9 on the two files: two calls of [fetch_checks]. *)
Lemma checks_made_anew_witness :
  let r := run (world := Demo.plain) 0 (Demo.finished []) initial_state in
  run_inputs (Demo.finished []) = Some ([], ["."], FILE_PATTERNS, []) /\
  snd r = inr 1%Z /\
  fetches (trace (fst r)) = 2.
Proof.
  intros r.
  assert (run_inputs (Demo.finished []) = Some ([], ["."], FILE_PATTERNS, []))
    as H1 by (vm_compute; reflexivity).
  assert (snd r = inr 1%Z) as H2 by (vm_compute; reflexivity).
  split; [exact H1|]. split; [exact H2|].
  exact (proj1 (proj2 (checks_made_anew (world := Demo.plain) Demo.defaults))
           0 (Demo.finished []) [] ["."] FILE_PATTERNS [] initial_state 1%Z
           H1 H2).
Defined.

(** * More on [split_set_type] and [merge_sets] *)

Section Strings.

Lemma split_comma_not_nil s : split_comma s <> [].
Proof.
  destruct s as [|a s]; simpl; [done|].
  destruct (Ascii.eqb a (Ascii.ascii_of_nat 44)); [done|].
  by destruct (split_comma s).
Qed.

Lemma split_comma_app a b :
  split_comma (a +:+ String comma b) = split_comma a ++ split_comma b.
Proof.
  induction a as [|c a IH]; simpl; [done|].
  destruct (Ascii.eqb c (Ascii.ascii_of_nat 44)); rewrite IH; [done|].
  pose proof (split_comma_not_nil a). by destruct (split_comma a).
Qed.

Lemma split_comma_chars s p a :
  p ∈ split_comma s -> In a (chars p) -> In a (chars s) /\ a <> comma.
Proof.
  revert p. induction s as [|c s IH]; intros p Hp Ha; simpl in Hp.
  - apply list_elem_of_singleton in Hp as ->. destruct Ha.
  - destruct (Ascii.eqb_spec c (Ascii.ascii_of_nat 44)) as [->|Hc].
    + apply elem_of_cons in Hp as [->|Hp]; [destruct Ha|].
      destruct (IH p Hp Ha). split; [by right|done].
    + pose proof (split_comma_not_nil s).
      destruct (split_comma s) as [|w ws] eqn:E; [done|].
      apply elem_of_cons in Hp as [->|Hp].
      * destruct Ha as [<-|Ha]; [split; [by left|done]|].
        destruct (IH w) as [? ?]; [by left|done|]. split; [by right|done].
      * destruct (IH p) as [? ?]; [by right|done|]. split; [by right|done].
Qed.

Lemma chars_split_comma s a :
  In a (chars s) -> a <> comma ->
  exists p, p ∈ split_comma s /\ In a (chars p).
Proof.
  induction s as [|c s IH]; intros Ha Hne; [destruct Ha|]. simpl.
  destruct (Ascii.eqb_spec c (Ascii.ascii_of_nat 44)) as [->|Hc].
  - destruct Ha as [<-|Ha]; [done|].
    destruct (IH Ha Hne) as (p & Hp & Hin). exists p. split; [by right|done].
  - pose proof (split_comma_not_nil s).
    destruct (split_comma s) as [|w ws] eqn:E; [done|].
    destruct Ha as [<-|Ha].
    + exists (String c w). split; [by left|by left].
    + destruct (IH Ha Hne) as (p & Hp & Hin).
      apply elem_of_cons in Hp as [->|Hp].
      * exists (String c w). split; [by left|by right].
      * exists p. split; [by right|done].
Qed.

Lemma split_comma_single s : ~ In comma (chars s) -> split_comma s = [s].
Proof.
  induction s as [|c s IH]; intros Hs; [done|]. simpl.
  destruct (Ascii.eqb_spec c (Ascii.ascii_of_nat 44)) as [->|Hc].
  - destruct Hs. by left.
  - rewrite IH; [done|]. intros ?. apply Hs. by right.
Qed.

(** *** Blanks at the ends *)

Lemma lstrip_chars s a : In a (chars (lstrip s)) -> In a (chars s).
Proof.
  induction s as [|c s IH]; simpl; [done|].
  destruct (is_space c); [by right; apply IH|done].
Qed.

Lemma rstrip_chars s a : In a (chars (rstrip s)) -> In a (chars s).
Proof.
  induction s as [|c s IH]; simpl; [done|].
  destruct (rstrip s) as [|b r] eqn:E.
  - destruct (is_space c); [done|]. intros [<-|[]]. by left.
  - intros [<-|Ha]; [by left|]. right. by apply IH.
Qed.

Lemma lstrip_first s a : first_char (lstrip s) = Some a -> is_space a = false.
Proof.
  induction s as [|c s IH]; simpl; [done|].
  destruct (is_space c) eqn:E; [done|]. simpl. by intros [= <-].
Qed.

Lemma rstrip_first s a :
  first_char (rstrip s) = Some a -> first_char s = Some a.
Proof.
  destruct s as [|c s]; simpl; [done|].
  destruct (rstrip s); [by destruct (is_space c)|done].
Qed.

Lemma rstrip_last s a : last_char (rstrip s) = Some a -> is_space a = false.
Proof.
  induction s as [|c s IH]; simpl; [done|].
  destruct (rstrip s) as [|b r] eqn:E.
  - destruct (is_space c) eqn:Ec; [done|]. simpl. by intros [= <-].
  - done.
Qed.

Lemma lstrip_id s :
  (forall a, first_char s = Some a -> is_space a = false) -> lstrip s = s.
Proof. destruct s as [|c s]; simpl; [done|]. intros H. by rewrite H. Qed.

Lemma rstrip_id s :
  (forall a, last_char s = Some a -> is_space a = false) -> rstrip s = s.
Proof.
  induction s as [|c s IH]; simpl; [done|]. intros H.
  destruct s as [|b s].
  - simpl. by rewrite H.
  - rewrite IH; [done|]. intros a Ha. by apply H.
Qed.

Lemma lstrip_blank s :
  lstrip s = EmptyString <-> Forall (fun a => is_space a = true) (chars s).
Proof.
  induction s as [|c s IH]; simpl.
  - split; [constructor|done].
  - destruct (is_space c) eqn:E.
    + rewrite IH. split; [by constructor|by inversion 1].
    + split; [done|]. inversion 1; congruence.
Qed.

Lemma rstrip_blank s :
  rstrip s = EmptyString <-> Forall (fun a => is_space a = true) (chars s).
Proof.
  induction s as [|c s IH]; simpl.
  - split; [constructor|done].
  - destruct (rstrip s) as [|b r] eqn:E.
    + destruct (is_space c) eqn:Ec.
      * split; [intros _; constructor; [done|by apply IH]|done].
      * split; [done|]. inversion 1; congruence.
    + split; [done|]. inversion 1 as [|? ? ? H3]; subst. by apply IH in H3.
Qed.

Lemma strip_blank s :
  strip s = EmptyString <-> Forall (fun a => is_space a = true) (chars s).
Proof.
  unfold strip. rewrite rstrip_blank. split.
  - intros H. induction s as [|c s IH]; simpl in *; [constructor|].
    destruct (is_space c) eqn:E.
    + constructor; [done|by apply IH].
    + inversion H; congruence.
  - intros H. apply Forall_forall. intros a Ha.
    rewrite Forall_forall in H. apply H.
    apply list_elem_of_In, lstrip_chars. by apply list_elem_of_In.
Qed.

Lemma strip_clean p : strip p <> EmptyString ->
  ~ In comma (chars p) -> clean (strip p).
Proof.
  intros Hne Hc. split; [done|]. split_and!.
  - intros H. apply Hc. by apply lstrip_chars, rstrip_chars.
  - intros a Ha. by apply (lstrip_first p), rstrip_first.
  - intros a. apply rstrip_last.
Qed.

Lemma clean_strip x : clean x -> strip x = x.
Proof.
  intros (_ & _ & Hf & Hl). unfold strip. rewrite (lstrip_id x Hf).
  by apply rstrip_id.
Qed.

Lemma split_strip_app a b :
  split_strip (a +:+ String comma b) = split_strip a ++ split_strip b.
Proof.
  unfold split_strip. by rewrite split_comma_app, filter_app, fmap_app.
Qed.

Lemma split_strip_clean x : clean x -> split_strip x = [x].
Proof.
  intros Hx. pose proof (clean_strip x Hx) as Hs.
  destruct Hx as (Hne & Hc & _). unfold split_strip.
  rewrite (split_comma_single x Hc), filter_cons, filter_nil.
  rewrite Hs. rewrite decide_True by done. simpl. by rewrite Hs.
Qed.

Lemma split_strip_join l :
  Forall clean l -> split_strip (join_commas l) = l.
Proof.
  induction 1 as [|x l Hx Hl IH]; [done|].
  destruct l as [|y l].
  - by apply split_strip_clean.
  - change (join_commas (x :: y :: l))
      with (x +:+ String comma (join_commas (y :: l))).
    by rewrite split_strip_app, IH, split_strip_clean.
Qed.

Lemma merge_sets_from (acc : gset string) sets :
  foldl (fun m s => m ∪ s) acc sets = acc ∪ merge_sets sets.
Proof.
  unfold merge_sets. revert acc.
  induction sets as [|s sets IH]; intros acc; simpl.
  - by rewrite (right_id_L ∅ (∪)).
  - rewrite (IH (acc ∪ s)), (IH (∅ ∪ s)), (left_id_L ∅ (∪)).
    by rewrite (assoc_L (∪)).
Qed.

Lemma merge_sets_cons s sets : merge_sets (s :: sets) = s ∪ merge_sets sets.
Proof.
  unfold merge_sets at 1. simpl. by rewrite merge_sets_from, (left_id_L ∅ (∪)).
Qed.

(** X1.  Every element of the set that [split_set_type] returns is a
    piece of the text between two commas without the blanks at its
    ends: it is not empty, it has no comma, and it neither starts nor
    ends with a blank; stripping it again changes nothing. *)
Theorem split_set_type_clean text x :
  x ∈ split_set_type text ->
  clean x /\ strip x = x /\
  exists piece, piece ∈ split_comma text /\ x = strip piece.
Proof.
  unfold split_set_type, split_strip. rewrite elem_of_list_to_set.
  intros (p & -> & [Hne Hp]%list_elem_of_filter)%list_elem_of_fmap.
  assert (clean (strip p)) as Hc.
  { apply strip_clean; [done|]. intros Hin.
    by destruct (split_comma_chars text p comma Hp Hin). }
  split; [done|]. split; [by apply clean_strip|]. by exists p.
Qed.

Lemma split_set_type_app a b :
  split_set_type (a +:+ String comma b) =
  split_set_type a ∪ split_set_type b.
Proof.
  unfold split_set_type. by rewrite split_strip_app, list_to_set_app_L.
Qed.

(** X2.  A comma joins two texts into one whose set is the union of the
    sets of the two. *)
Theorem split_set_type_comma a b :
  split_set_type (a +:+ "," +:+ b) = split_set_type a ∪ split_set_type b.
Proof. apply split_set_type_app. Qed.

(** X3.  Round trip: joining with commas strings that are not empty and
    have neither a comma nor a blank at an end, and splitting the
    result, gives the strings back, in order for the list of
    [extract_config] and as a set for [split_set_type]. *)
Theorem split_join_round_trip l :
  Forall clean l ->
  split_strip (join_commas l) = l /\
  split_set_type (join_commas l) = list_to_set l.
Proof.
  intros Hl. unfold split_set_type. by rewrite split_strip_join.
Qed.

(** X4.  [split_set_type] returns the empty set exactly for a text
    made of blanks and commas only; the empty text is one. *)
Theorem split_set_type_empty text :
  split_set_type text = ∅ <->
  Forall (fun a => is_space a = true \/ a = comma) (chars text).
Proof.
  unfold split_set_type, split_strip. split.
  - intros He. apply Forall_forall. intros a Ha%list_elem_of_In.
    destruct (decide (a = comma)) as [|Hne]; [by right|]. left.
    destruct (chars_split_comma text a Ha Hne) as (p & Hp & Hin).
    destruct (decide (strip p = EmptyString)) as [Hs|Hs].
    + apply strip_blank in Hs. rewrite Forall_forall in Hs.
      by apply Hs, list_elem_of_In.
    + assert (strip p ∈ (list_to_set
        (strip <$> filter (fun i => strip i ≠ EmptyString) (split_comma text))
        : gset string)) as Hin'.
      { apply elem_of_list_to_set, list_elem_of_fmap. exists p.
        split; [done|]. by apply list_elem_of_filter. }
      rewrite He in Hin'. set_solver.
  - intros Hall. apply (anti_symm (⊆)); [|set_solver]. intros x.
    rewrite elem_of_list_to_set.
    intros (p & -> & [Hne Hp]%list_elem_of_filter)%list_elem_of_fmap.
    destruct Hne. apply strip_blank, Forall_forall.
    intros a Ha%list_elem_of_In.
    destruct (split_comma_chars text p a Hp Ha) as [Hin Hc].
    rewrite Forall_forall in Hall.
    destruct (Hall a) as [|]; [by apply list_elem_of_In|done|done].
Qed.

(** X5.  A string is in the set that [merge_sets] returns exactly when
    it is in one of the sets given. *)
Theorem merge_sets_elem sets x :
  x ∈ merge_sets sets <-> exists s, s ∈ sets /\ x ∈ s.
Proof.
  induction sets as [|s sets IH].
  - unfold merge_sets. simpl. split; [set_solver|].
    by intros (s & Hs%elem_of_nil & _).
  - rewrite merge_sets_cons, elem_of_union, IH. split.
    + intros [Hx|(s' & Hs' & Hx)].
      * exists s. split; [by left|done].
      * exists s'. split; [by right|done].
    + intros (s' & [->|Hs']%elem_of_cons & Hx); [by left|].
      right. by exists s'.
Qed.

(** X6.  Giving [--ignore] several times is the same as giving it once
    with the values joined by commas: merging the sets of the texts
    gives the set of the joined text. *)
Theorem merge_sets_split_join texts :
  merge_sets (split_set_type <$> texts) = split_set_type (join_commas texts).
Proof.
  induction texts as [|a texts IH]; [done|].
  rewrite fmap_cons, merge_sets_cons, IH.
  destruct texts as [|b texts].
  - unfold split_set_type at 2. simpl.
    by rewrite (right_id_L ∅ (∪)).
  - change (join_commas (a :: b :: texts))
      with (a +:+ String comma (join_commas (b :: texts))).
    by rewrite split_set_type_app.
Qed.

End Strings.

(** * More on [extract_config] and on the options of [main] *)

Section Configuration.

Context {Self : Type} {world : Collaborators Self}.

Local Abbreviation state := (state Self).

Lemma lookup_set_if_some_inv k' o (m : gmap string pyval) k v :
  set_if_some k' o m !! k = Some v ->
  (k = k' /\ o = Some v) \/ m !! k = Some v.
Proof.
  unfold set_if_some. destruct o as [w|]; [|by right].
  destruct (decide (k' = k)) as [->|Hne].
  - rewrite lookup_insert_eq. intros [= ->]. by left.
  - rewrite lookup_insert_ne by done. by right.
Qed.

Lemma split_strip_clean_all text : Forall clean (split_strip text).
Proof.
  apply Forall_forall. intros x.
  unfold split_strip.
  intros (p & -> & [Hne Hp]%list_elem_of_filter)%list_elem_of_fmap.
  apply strip_clean; [done|]. intros Hin.
  by destruct (split_comma_chars text p comma Hp Hin).
Qed.

(** The entries of the dictionary that [extract_config] returns. *)
Lemma extract_config_entry args cfg k v :
  extract_config args = inr cfg -> cfg !! k = Some v ->
  match v with
  | VInt _ => k = "max_line_length"
  | VSet _ => k = "ignore" \/ k = "ignore_path"
  | VBool _ => k = "allow_long_titles" \/ k = "sphinx" \/ k = "verbose"
  | VList l => k = "extension" /\ l <> [] /\ Forall clean l
  | VSets _ => False
  end.
Proof.
  unfold extract_config.
  destruct (read_config_files args) as [?|[parser read_files]]; [done|].
  cbn [ebind]. case_bool_decide as Hrf.
  { intros [= <-]. by rewrite lookup_empty. }
  destruct (try_get (getint _ _ _)) as [?|o1]; [done|]. cbn [ebind].
  destruct (try_get (get parser "doc8" "ignore")) as [?|o2]; [done|].
  cbn [ebind].
  destruct (try_get (get parser "doc8" "ignore_path")) as [?|o3]; [done|].
  cbn [ebind].
  destruct (try_get (getboolean parser "doc8" "allow-long-titles"))
    as [?|o4]; [done|].
  cbn [ebind].
  destruct (try_get (getboolean parser "doc8" "sphinx")) as [?|o5]; [done|].
  cbn [ebind].
  destruct (try_get (getboolean parser "doc8" "verbose")) as [?|o6]; [done|].
  cbn [ebind].
  destruct (try_get (get parser "doc8" "extensions")) as [?|o7]; [done|].
  cbn [ebind]. intros [= <-] Hk.
  assert ((k = "extension" /\
           exists text, o7 = Some text /\ v = VList (split_strip text) /\
                        split_strip text <> []) \/
          set_if_some "verbose" (VBool <$> o6)
            (set_if_some "sphinx" (VBool <$> o5)
               (set_if_some "allow_long_titles" (VBool <$> o4)
                  (set_if_some "ignore_path" (VSet ∘ split_set_type <$> o3)
                     (set_if_some "ignore" (VSet ∘ split_set_type <$> o2)
                        (set_if_some "max_line_length" (VInt <$> o1) ∅)))))
            !! k = Some v) as [(-> & text & -> & -> & Hne)|Hk'].
  { destruct o7 as [text|]; [|by right]. simpl in Hk.
    destruct (split_strip text) as [|e es] eqn:E; [by right|].
    destruct (decide (k = "extension")) as [->|Hne].
    - rewrite lookup_insert_eq in Hk. injection Hk as <-. left.
      split; [done|]. exists text. by rewrite E.
    - rewrite lookup_insert_ne in Hk by done. by right. }
  { split; [done|]. split; [done|]. apply split_strip_clean_all. }
  apply lookup_set_if_some_inv in Hk' as [[-> Ho]|Hk'].
  { destruct o6; simplify_eq/=. auto. }
  apply lookup_set_if_some_inv in Hk' as [[-> Ho]|Hk'].
  { destruct o5; simplify_eq/=. auto. }
  apply lookup_set_if_some_inv in Hk' as [[-> Ho]|Hk'].
  { destruct o4; simplify_eq/=. auto. }
  apply lookup_set_if_some_inv in Hk' as [[-> Ho]|Hk'].
  { destruct o3; simplify_eq/=. auto. }
  apply lookup_set_if_some_inv in Hk' as [[-> Ho]|Hk'].
  { destruct o2; simplify_eq/=. auto. }
  apply lookup_set_if_some_inv in Hk' as [[-> Ho]|Hk'].
  { destruct o1; simplify_eq/=. auto. }
  by rewrite lookup_empty in Hk'.
Qed.

Lemma try_get_uncaught {A} (r : exn + A) :
  if uncaught r then exists e, r = inl e /\ try_get r = inl e
  else exists o, try_get r = inr o.
Proof. destruct r as [[]|a]; simpl; eauto. Qed.

(** X7.  Each entry of the dictionary that [extract_config] returns is
    one of seven options with a value of its type: an integer for
    [max_line_length], a set for [ignore] and [ignore_path], a truth
    value for [allow_long_titles], [sphinx] and [verbose], and for
    [extension] a list that is not empty of strings that are not empty
    and have neither a comma nor a blank at an end. *)
Theorem extract_config_entries args cfg k v :
  extract_config args = inr cfg -> cfg !! k = Some v ->
  match v with
  | VInt _ => k = "max_line_length"
  | VSet _ => k = "ignore" \/ k = "ignore_path"
  | VBool _ => k = "allow_long_titles" \/ k = "sphinx" \/ k = "verbose"
  | VList l => k = "extension" /\ l <> [] /\ Forall clean l
  | VSets _ => False
  end.
Proof. apply extract_config_entry. Qed.

(** X8.  Once the configuration files are read, [extract_config]
    returns a dictionary exactly when no file was read or none of its
    seven lookups raises an exception other than [NoSectionError] and
    [NoOptionError]: a missing section or option is no error, a value
    that is not of the type of its option is one. *)
Theorem extract_config_errors args parser read_files :
  read_config_files args = inr (parser, read_files) ->
  (exists cfg, extract_config args = inr cfg) <->
  read_files = [] \/
  uncaught (getint parser "doc8" "max-line-length") = false /\
  uncaught (get parser "doc8" "ignore") = false /\
  uncaught (get parser "doc8" "ignore_path") = false /\
  uncaught (getboolean parser "doc8" "allow-long-titles") = false /\
  uncaught (getboolean parser "doc8" "sphinx") = false /\
  uncaught (getboolean parser "doc8" "verbose") = false /\
  uncaught (get parser "doc8" "extensions") = false.
Proof.
  intros Hread. unfold extract_config. rewrite Hread. cbn [ebind].
  case_bool_decide as Hrf.
  { split; [by left|]. intros _. by eexists. }
  pose proof (try_get_uncaught (getint parser "doc8" "max-line-length")) as H1.
  destruct (uncaught (getint _ _ _)).
  { destruct H1 as (e & _ & ->). split; [by intros [? ?]|].
    by intros [|(? & _)]. }
  destruct H1 as (o1 & ->). cbn [ebind].
  pose proof (try_get_uncaught (get parser "doc8" "ignore")) as H2.
  destruct (uncaught (get parser "doc8" "ignore")).
  { destruct H2 as (e & _ & ->). split; [by intros [? ?]|].
    by intros [|(_ & ? & _)]. }
  destruct H2 as (o2 & ->). cbn [ebind].
  pose proof (try_get_uncaught (get parser "doc8" "ignore_path")) as H3.
  destruct (uncaught (get parser "doc8" "ignore_path")).
  { destruct H3 as (e & _ & ->). split; [by intros [? ?]|].
    by intros [|(_ & _ & ? & _)]. }
  destruct H3 as (o3 & ->). cbn [ebind].
  pose proof (try_get_uncaught (getboolean parser "doc8" "allow-long-titles"))
    as H4.
  destruct (uncaught (getboolean parser "doc8" "allow-long-titles")).
  { destruct H4 as (e & _ & ->). split; [by intros [? ?]|].
    by intros [|(_ & _ & _ & ? & _)]. }
  destruct H4 as (o4 & ->). cbn [ebind].
  pose proof (try_get_uncaught (getboolean parser "doc8" "sphinx")) as H5.
  destruct (uncaught (getboolean parser "doc8" "sphinx")).
  { destruct H5 as (e & _ & ->). split; [by intros [? ?]|].
    by intros [|(_ & _ & _ & _ & ? & _)]. }
  destruct H5 as (o5 & ->). cbn [ebind].
  pose proof (try_get_uncaught (getboolean parser "doc8" "verbose")) as H6.
  destruct (uncaught (getboolean parser "doc8" "verbose")).
  { destruct H6 as (e & _ & ->). split; [by intros [? ?]|].
    by intros [|(_ & _ & _ & _ & _ & ? & _)]. }
  destruct H6 as (o6 & ->). cbn [ebind].
  pose proof (try_get_uncaught (get parser "doc8" "extensions")) as H7.
  destruct (uncaught (get parser "doc8" "extensions")).
  { destruct H7 as (e & _ & ->). split; [by intros [? ?]|].
    by intros [|(_ & _ & _ & _ & _ & _ & ?)]. }
  destruct H7 as (o7 & ->). cbn [ebind].
  split; [by right|]. intros _. by eexists.
Qed.

(** *** [configure] *)

Lemma extract_config_ignore args v :
  extract_config (<["ignore" := v]> args) = extract_config args.
Proof. unfold extract_config. by rewrite read_config_files_ignore. Qed.

Lemma dom_vars parsed : dom (vars parsed) = arguments.
Proof.
  unfold vars, arguments. rewrite dom_list_to_map_L. simpl. set_solver.
Qed.

(** What [configure] returns, given what [extract_config] returns: the
    options that are left in [cfg] on top of the arguments, four of which
    have a new value. *)
Lemma configure_inr parsed cfg :
  extract_config (vars parsed) = inr cfg ->
  exists ign ext ip,
    configure (vars parsed) =
    inr (delete "ignore_path"
           (delete "extension" (delete "sphinx" (delete "ignore" cfg))) ∪
         <["ignore_path" := VList (ns_ignore_path parsed ++ ip)]>
           (<["extension" := VList (ns_extension parsed ++ ext)]>
              (set_if_some "sphinx" (cfg !! "sphinx")
                 (<["ignore" := VSet (merge_sets (ns_ignore parsed) ∪ ign)]>
                    (<["ignore" := VSet (merge_sets (ns_ignore parsed))]>
                       (vars parsed)))))).
Proof.
  intros Hcfg. unfold configure.
  destruct (vars_lookup parsed) as (Hi & Hc & He & Hp & _).
  unfold getitem at 1. rewrite Hi. cbn [ebind iter_sets].
  rewrite extract_config_ignore, Hcfg. cbn [ebind].
  unfold getitem at 1. rewrite lookup_insert_eq. cbn [ebind].
  assert (exists ign,
            set_update (VSet (merge_sets (ns_ignore parsed)))
              (default (VSet ∅) (cfg !! "ignore")) =
            inr (VSet (merge_sets (ns_ignore parsed) ∪ ign)))
    as (ign & ->).
  { destruct (cfg !! "ignore") as [v|] eqn:E; simpl.
    - pose proof (extract_config_entry _ _ _ _ Hcfg E) as Hv.
      destruct v; simpl;
        first [exfalso; clear -Hv; by intuition discriminate | by eexists].
    - by eexists. }
  cbn [ebind].
  rewrite (lookup_delete_ne cfg "ignore" "sphinx") by done.
  change (match cfg !! "sphinx" with
          | Some b => <["sphinx" := b]> ?m
          | None => ?m
          end) with (set_if_some "sphinx" (cfg !! "sphinx") m).
  unfold getitem at 1. rewrite lookup_set_if_some_ne by done.
  rewrite lookup_insert_ne by done. rewrite lookup_insert_ne by done.
  rewrite He. cbn [ebind].
  rewrite (lookup_delete_ne (delete "ignore" cfg) "sphinx" "extension")
    by done.
  rewrite (lookup_delete_ne cfg "ignore" "extension") by done.
  assert (exists ext,
            list_extend (VList (ns_extension parsed))
              (default (VList []) (cfg !! "extension")) =
            inr (VList (ns_extension parsed ++ ext))) as (ext & ->).
  { destruct (cfg !! "extension") as [v|] eqn:E; simpl.
    - pose proof (extract_config_entry _ _ _ _ Hcfg E) as Hv.
      destruct v; simpl;
        first [exfalso; clear -Hv; by intuition discriminate | by eexists].
    - by eexists. }
  cbn [ebind]. unfold getitem at 1. rewrite lookup_insert_ne by done.
  rewrite lookup_set_if_some_ne by done.
  rewrite lookup_insert_ne by done. rewrite lookup_insert_ne by done.
  rewrite Hp. cbn [ebind].
  rewrite (lookup_delete_ne _ "extension" "ignore_path") by done.
  rewrite (lookup_delete_ne _ "sphinx" "ignore_path") by done.
  rewrite (lookup_delete_ne _ "ignore" "ignore_path") by done.
  assert (exists ip,
            list_extend (VList (ns_ignore_path parsed))
              (default (VList []) (cfg !! "ignore_path")) =
            inr (VList (ns_ignore_path parsed ++ ip))) as (ip & ->).
  { destruct (cfg !! "ignore_path") as [v|] eqn:E; simpl.
    - pose proof (extract_config_entry _ _ _ _ Hcfg E) as Hv.
      destruct v; simpl;
        first [exfalso; clear -Hv; by intuition discriminate | by eexists].
    - by eexists. }
  cbn [ebind]. by exists ign, ext, ip.
Qed.

Lemma configure_inl parsed e :
  extract_config (vars parsed) = inl e -> configure (vars parsed) = inl e.
Proof.
  intros Hcfg. unfold configure.
  destruct (vars_lookup parsed) as (Hi & _).
  unfold getitem at 1. rewrite Hi. cbn [ebind iter_sets].
  by rewrite extract_config_ignore, Hcfg.
Qed.

Lemma extract_config_dom args cfg k :
  extract_config args = inr cfg -> is_Some (cfg !! k) -> k ∈ arguments.
Proof.
  intros Hcfg [v Hv]. pose proof (extract_config_entry _ _ _ _ Hcfg Hv) as H.
  unfold arguments.
  destruct v; [destruct H as [->| [->| ->]]| subst |destruct H as [-> _]
              |destruct H as [->| ->]|done]; set_solver.
Qed.

(** The arguments that [run] pops have values that it can iterate
    over. *)
Lemma configure_run_inputs parsed args :
  configure (vars parsed) = inr args ->
  exists ip paths exts ign, run_inputs args = Some (ip, paths, exts, ign).
Proof.
  intros Hargs.
  destruct (extract_config (vars parsed)) as [e|cfg] eqn:Hcfg.
  { by rewrite (configure_inl _ _ Hcfg) in Hargs. }
  destruct (configure_inr _ _ Hcfg) as (ign & ext & ip & Heq).
  rewrite Heq in Hargs. injection Hargs as <-.
  destruct (vars_lookup parsed) as (_ & _ & _ & _ & _ & _ & _ & _ & Hp).
  unfold run_inputs. rewrite !lookup_union.
  rewrite (popped_eq cfg "ignore_path") by auto.
  rewrite (popped_eq cfg "extension") by auto.
  rewrite (popped_eq cfg "ignore") by auto.
  rewrite popped_ne by done.
  assert (cfg !! "paths" = None) as ->.
  { destruct (cfg !! "paths") as [v|] eqn:E; [|done].
    pose proof (extract_config_entry _ _ _ _ Hcfg E) as Hv.
    destruct v; exfalso; clear -Hv; by intuition discriminate. }
  rewrite lookup_insert_eq.
  rewrite (lookup_insert_ne _ "ignore_path" "paths") by done.
  rewrite (lookup_insert_ne _ "extension" "paths") by done.
  rewrite lookup_set_if_some_ne by done.
  rewrite !(lookup_insert_ne _ "ignore" "paths") by done. rewrite Hp.
  rewrite (lookup_insert_ne _ "ignore_path" "extension") by done.
  rewrite lookup_insert_eq.
  rewrite (lookup_insert_ne _ "ignore_path" "ignore") by done.
  rewrite (lookup_insert_ne _ "extension" "ignore") by done.
  rewrite lookup_set_if_some_ne by done. rewrite lookup_insert_eq.
  simpl. by eexists _, _, _, _.
Qed.

(** X9.  [configure] raises exactly the exceptions of [extract_config]:
    putting the options together raises none.  The dictionary that it
    returns has the ten arguments of the command line as its keys, and
    the values of [paths], [config] and [version], which a configuration
    file cannot set, are those of the command line. *)
Theorem configure_errors parsed :
  (forall e,
     configure (vars parsed) = inl e <->
     extract_config (vars parsed) = inl e) /\
  (forall args,
     configure (vars parsed) = inr args ->
     dom args = arguments /\
     args !! "paths" = Some (VList (ns_paths parsed)) /\
     args !! "config" = Some (VList (ns_config parsed)) /\
     args !! "version" = Some (VBool (ns_version parsed))).
Proof.
  split.
  - intros e. split; [|apply configure_inl].
    destruct (extract_config (vars parsed)) as [e'|cfg] eqn:Hcfg.
    + rewrite (configure_inl _ _ Hcfg). congruence.
    + by destruct (configure_inr _ _ Hcfg) as (? & ? & ? & ->).
  - intros args Hargs.
    destruct (extract_config (vars parsed)) as [e|cfg] eqn:Hcfg.
    { by rewrite (configure_inl _ _ Hcfg) in Hargs. }
    destruct (configure_inr _ _ Hcfg) as (ign & ext & ip & Heq).
    rewrite Heq in Hargs. injection Hargs as <-.
    assert (forall k, k <> "ignore" -> k <> "sphinx" -> k <> "extension" ->
              k <> "ignore_path" -> cfg !! k = None ->
              (delete "ignore_path"
                 (delete "extension" (delete "sphinx" (delete "ignore" cfg))) ∪
               <["ignore_path" := VList (ns_ignore_path parsed ++ ip)]>
                 (<["extension" := VList (ns_extension parsed ++ ext)]>
                    (set_if_some "sphinx" (cfg !! "sphinx")
                       (<["ignore" := VSet (merge_sets (ns_ignore parsed) ∪ ign)]>
                          (<["ignore" := VSet (merge_sets (ns_ignore parsed))]>
                             (vars parsed)))))) !! k = vars parsed !! k)
      as Hsame.
    { intros k ? ? ? ? Hk. rewrite lookup_union, popped_ne, Hk by done.
      rewrite !lookup_insert_ne by done.
      rewrite lookup_set_if_some_ne by done.
      rewrite !lookup_insert_ne by done. by rewrite (left_id_L None _). }
    assert (forall k, k = "paths" \/ k = "config" \/ k = "version" ->
              cfg !! k = None) as Hnone.
    { intros k Hk. destruct (cfg !! k) as [v|] eqn:E; [|done].
      pose proof (extract_config_entry _ _ _ _ Hcfg E) as Hv.
      destruct v; destruct Hk as [->| [->| ->]]; exfalso; clear -Hv;
        by intuition discriminate. }
    destruct (vars_lookup parsed) as (_ & Hc & _ & _ & _ & _ & _ & _ & Hp).
    split_and!.
    + apply set_eq. intros k. rewrite dom_union, elem_of_union.
      rewrite !dom_insert_L.
      assert (dom (set_if_some "sphinx" (cfg !! "sphinx")
                     (<["ignore" := VSet (merge_sets (ns_ignore parsed) ∪ ign)]>
                        (<["ignore" := VSet (merge_sets (ns_ignore parsed))]>
                           (vars parsed)))) = arguments) as ->.
      { unfold set_if_some. destruct (cfg !! "sphinx");
          rewrite !dom_insert_L, dom_vars; unfold arguments; set_solver. }
      split.
      * intros [Hk|Hk]; [|unfold arguments in *; set_solver].
        apply elem_of_dom in Hk as [v Hv].
        apply (extract_config_dom (vars parsed) cfg); [done|].
        exists v. revert Hv.
        rewrite !lookup_delete_Some. by intros (_ & _ & _ & _ & ?).
      * intros Hk. right. unfold arguments in *. set_solver.
    + rewrite Hsame, Hp; [done..|auto].
    + rewrite Hsame, Hc; [done..|auto].
    + rewrite Hsame; [by destruct parsed|done..|auto].
Qed.

End Configuration.

(** * More on [main] *)

Section Outcome.

Context {Self : Type} {world : Collaborators Self}.

Local Abbreviation state := (state Self).
Local Abbreviation initial_state := (@initial_state Self).

Lemma extract_config_no_file args parser :
  read_config_files args = inr (parser, []) -> extract_config args = inr ∅.
Proof. intros Hread. unfold extract_config. by rewrite Hread. Qed.

Lemma configure_inl_inv parsed e :
  configure (vars parsed) = inl e -> extract_config (vars parsed) = inl e.
Proof.
  destruct (extract_config (vars parsed)) as [e'|cfg] eqn:Hcfg.
  - rewrite (configure_inl _ _ Hcfg). congruence.
  - by destruct (configure_inr _ _ Hcfg) as (? & ? & ? & ->).
Qed.

(** X10.  When no configuration file was read, the options are those
    of the command line: [configure] returns the arguments, with the
    sets of [--ignore] merged into one. *)
Theorem configure_no_file parsed parser :
  read_config_files (vars parsed) = inr (parser, []) ->
  configure (vars parsed) =
  inr (<["ignore" := VSet (merge_sets (ns_ignore parsed))]> (vars parsed)).
Proof.
  intros Hread. unfold configure.
  destruct (vars_lookup parsed) as (Hi & Hc & He & Hp & _).
  unfold getitem at 1. rewrite Hi. cbn [ebind iter_sets].
  rewrite extract_config_ignore, (extract_config_no_file _ _ Hread).
  cbn [ebind]. unfold getitem at 1. rewrite lookup_insert_eq. cbn [ebind].
  rewrite !lookup_delete_ne, !lookup_empty by done.
  cbn [default set_update iter_strings ebind]. rewrite elements_empty.
  cbn [list_to_set foldr]. rewrite (right_id_L ∅ (∪)).
  unfold getitem at 1. rewrite !lookup_insert_ne, He by done.
  cbn [ebind list_extend iter_strings].
  unfold getitem at 1. rewrite !lookup_insert_ne, Hp by done.
  cbn [ebind list_extend iter_strings]. rewrite !app_nil_r. reflexivity.
Qed.

(** X11.  With [--version], [main] prints the version and returns 0: it
    reads no configuration file, so that it returns also where reading
    one would raise, it scans nothing and it leaves [error_counts] as it
    is. *)
Theorem version_only parsed (s : state) :
  ns_version parsed = true ->
  snd (main parsed s) = inr 0%Z /\
  trace (fst (main parsed s)) = trace s ++ [Eprint OVersion] /\
  error_counts (fst (main parsed s)) = error_counts s.
Proof. intros Hv. rewrite main_eq. by rewrite Hv. Qed.

Lemma stops_other ign f (c : check_class Self) :
  stops ign f c = true -> is_other c = true.
Proof. unfold stops. by intros [_ ?]%andb_prop. Qed.

(** How [main] ends. *)
Lemma main_ends parsed (s : state) :
  match snd (main parsed s) with
  | inr code => code = 0%Z \/ code = 1%Z
  | inl e =>
      extract_config (vars parsed) = inl e \/
      e = TypeError /\ exists c, c ∈ check_classes /\ is_other c = true
  end.
Proof.
  rewrite main_eq. destruct (ns_version parsed); [by left|].
  unfold bind, lift. cbn [fst snd].
  destruct (configure (vars parsed)) as [e|args] eqn:Hargs.
  { left. by apply configure_inl_inv. }
  destruct (configure_run_inputs _ _ Hargs) as (ip & paths & exts & ign & Hin).
  rewrite (run_eq _ _ _ _ _ _ _ Hin). cbv zeta. unfold bind.
  match goal with
  | |- context [for_each ?files (validate ?a ?i) ?s0] =>
      destruct (files_trace a i files s0) as [_ Hr];
      destruct (for_each files (validate a i) s0) as [s2 [e|[]]]
  end; cbn [fst snd] in *.
  - destruct (existsb _ _) eqn:Hex; [|done]. injection Hr as ->.
    right. split; [done|].
    apply existsb_exists in Hex as (f & _ & Hex).
    apply existsb_exists in Hex as (c & Hc%list_elem_of_In & Hstop).
    exists c. split; [done|]. by apply (stops_other (list_to_set ign) f).
  - rewrite summary_eq. cbn [snd]. unfold exit_status.
    destruct (total _ =? 0)%Z; auto.
Qed.

(** X12.  [main] returns 0 or 1, or it raises: the exception that
    reading the configuration raised, or [TypeError] when one of the
    checks is neither a [ContentCheck] nor a [LineCheck].  It raises
    nothing else: no [KeyError] for an argument or for a count.  So when
    the configuration can be read and each check is of one of the two
    kinds, [main] returns an exit status. *)
Theorem main_outcome parsed (s : state) :
  match snd (main parsed s) with
  | inr code => code = 0%Z \/ code = 1%Z
  | inl e =>
      extract_config (vars parsed) = inl e \/
      e = TypeError /\ exists c, c ∈ check_classes /\ is_other c = true
  end /\
  ((exists cfg, extract_config (vars parsed) = inr cfg) ->
   (forall c, c ∈ check_classes -> is_other c = false) ->
   exists code, snd (main parsed s) = inr code).
Proof.
  pose proof (main_ends parsed s) as H. split; [done|].
  intros [cfg Hcfg] Hkinds.
  destruct (snd (main parsed s)) as [e|code]; [|by exists code].
  destruct H as [He|(_ & c & Hc & Ho)]; [congruence|].
  rewrite (Hkinds c Hc) in Ho. done.
Qed.

(** The exit status, from the counts. *)
Lemma main_status parsed (s : state) code :
  main parsed initial_state = (s, inr code) ->
  code = exit_status (error_counts s).
Proof.
  rewrite main_eq. intros Hmain. destruct (ns_version parsed).
  - by injection Hmain as <- <-.
  - unfold bind, lift in Hmain.
    destruct (configure _) as [e|args] eqn:Hargs; [done|].
    destruct (configure_run_inputs _ _ Hargs)
      as (ip & paths & exts & ign & Hin).
    rewrite (run_eq _ _ _ _ _ _ _ Hin) in Hmain. cbv zeta in Hmain.
    unfold bind in Hmain.
    destruct (for_each _ _ _) as [s2 [e|[]]]; [done|].
    rewrite summary_eq in Hmain. by injection Hmain as <- <-.
Qed.

(** X13.  The exit status of [main] is 0 exactly when it printed no
    violation. *)
Theorem exit_status_zero parsed (s : state) code :
  main parsed initial_state = (s, inr code) ->
  code = 0%Z <-> violations (trace s) = [].
Proof.
  intros Hmain. rewrite (main_status _ _ _ Hmain).
  destruct (main_Inv parsed) as (ign & cur & HI). rewrite Hmain in HI.
  destruct HI as [_ _ _ Htotal _ _ _ _]. cbn [fst] in Htotal.
  unfold exit_status. rewrite Htotal.
  destruct (violations (trace s)) as [|v vs]; [done|].
  split; [|done]. destruct (Z.of_nat _ =? 0)%Z eqn:E; [|done].
  apply Z.eqb_eq in E. simpl in E. lia.
Qed.

End Outcome.

(** * More on the run *)

Section Run.

Context {Self : Type} {world : Collaborators Self}.

Local Abbreviation check_class := (check_class Self).
Local Abbreviation instance := (instance Self).
Local Abbreviation event := (event Self).
Local Abbreviation state := (state Self).

(** The trace and the result of [run]. *)
Lemma run_trace args_id args ip paths exts ign (s : state) :
  run_inputs args = Some (ip, paths, exts, ign) ->
  let file_iter := find_files paths exts ip in
  let files := parse <$> selected file_iter in
  let s' := fst (run args_id args s) in
  let before :=
    Eprint OScanning ::
    (Eprint <$> scan_lines (get_truthy args "verbose") file_iter) ++
    files_events (loop_args args_id args) (list_to_set ign) files
      (next_id s) in
  if existsb (fun f => existsb (stops (list_to_set ign) f) check_classes) files
  then snd (run args_id args s) = inl TypeError /\
       trace s' = trace s ++ before
  else snd (run args_id args s) = inr (exit_status (error_counts s')) /\
       trace s' =
       trace s ++ before ++
       (Eprint <$>
          summary_lines (error_counts s')
            (Z.of_nat (length (selected file_iter)))
            (Z.of_nat (length (ignored file_iter)))).
Proof.
  intros Hin file_iter files s' before. subst s'.
  rewrite (run_eq _ _ _ _ _ _ _ Hin). cbv zeta. fold file_iter. fold files.
  unfold bind.
  match goal with
  | |- context [for_each files (validate ?a ?i) ?s0] =>
      destruct (files_trace a i files s0) as [Ht Hr];
      destruct (for_each files (validate a i) s0) as [s2 [e|[]]]
  end; cbn [fst snd append trace next_id] in *;
    destruct (existsb _ files); try done.
  - injection Hr as ->. split; [done|]. rewrite Ht. subst before.
    by rewrite <- app_assoc.
  - rewrite summary_eq. cbn [fst snd append trace error_counts].
    split; [done|]. rewrite Ht. subst before.
    rewrite <- !app_assoc. cbn [app]. by rewrite <- !app_assoc.
Qed.

(** ** The events of the loop over the files *)

Section Selected_events.

Variable args : pydict.
Variable ign : gset string.
Variable files : list ParsedFile.

Local Abbreviation ok := (run_event args ign files).
Local Abbreviation v := (verbose args).

Lemma ok_emitted (c : check_class) f line_num code message :
  c ∈ check_classes -> f ∈ files ->
  Forall ok (emitted v ign (check_name c) (filename f) line_num code message).
Proof.
  intros Hc Hf. unfold emitted. case_bool_decide; [constructor|].
  constructor; [|constructor; [|constructor]].
  - split; [done|]. split; [done|]. by exists f.
  - by exists c.
Qed.

Lemma ok_flat_map {A} (g : A -> list event) ys :
  (forall y, Forall ok (g y)) -> Forall ok (flat_map g ys).
Proof.
  intros Hg. induction ys as [|y ys IH]; simpl; [constructor|].
  apply Forall_app. by split.
Qed.

Lemma ok_line_blocks (c : check_class) id f numbered : forall first,
  c ∈ check_classes -> f ∈ files ->
  Forall ok (line_blocks v ign c id f first numbered).
Proof.
  induction numbered as [|[line ys] numbered IH]; intros first Hc Hf.
  - constructor.
  - rewrite line_blocks_cons. apply Forall_app. split; [|by apply IH].
    constructor; [done|]. apply ok_flat_map. intros y. by apply ok_emitted.
Qed.

Lemma ok_dispatch_events f (c : instance) :
  cls c ∈ check_classes -> f ∈ files ->
  Forall ok (dispatch_events v ign f c).
Proof.
  intros Hc Hf. unfold dispatch_events. destruct (body (cls c)).
  - constructor; [done|]. apply ok_flat_map. intros y. by apply ok_emitted.
  - by apply ok_line_blocks.
  - constructor.
Qed.

Lemma ok_said l :
  (v = true -> ok (Eprint l)) -> Forall ok (said v l).
Proof. unfold said. destruct v; intros H; repeat constructor. by apply H. Qed.

Lemma ok_check_events f (c : instance) :
  cls c ∈ check_classes -> f ∈ files ->
  Forall ok (check_events v ign f c).
Proof.
  intros Hc Hf. unfold check_events. constructor; [done|].
  destruct (extension_ok (cls c) f); cbn [negb];
    [destruct (reports_ok ign (cls c)); cbn [negb]|];
    apply Forall_app; (split; [by apply ok_said|]).
  - constructor; [by split|]. by apply ok_dispatch_events.
  - constructor; [by split|constructor].
  - constructor; [by split|constructor].
Qed.

Lemma ok_checks_events f (checks : list instance) :
  Forall (fun c => cls c ∈ check_classes) checks -> f ∈ files ->
  Forall ok (checks_events v ign f checks).
Proof.
  intros Hcs Hf. induction Hcs as [|c checks Hc _ IH]; [constructor|].
  cbn [checks_events]. apply Forall_app. split; [by apply ok_check_events|].
  destruct (stops ign f (cls c)); [constructor | done].
Qed.

Lemma fetched_known n :
  Forall (fun c : instance =>
            cls c ∈ check_classes /\ items (cfg_ref c) = items args)
    (fetched args n).
Proof.
  apply Forall_forall. intros c Hc. split.
  - rewrite <- (fetched_classes args n). by apply list_elem_of_fmap_2.
  - unfold fetched in Hc. apply elem_of_app in Hc as [Hc|Hc].
    + repeat (apply elem_of_cons in Hc as [->|Hc]; [done|]).
      by apply elem_of_nil in Hc.
    + by apply elem_of_lookup_imap in Hc as (i & p & -> & _).
Qed.

Lemma ok_validate_events f n :
  f ∈ files -> Forall ok (validate_events args ign f n).
Proof.
  intros Hf. unfold validate_events. apply Forall_app. split.
  { apply ok_said. by intros Hv. }
  constructor; [done|]. apply Forall_app. split.
  - apply Forall_fmap. eapply Forall_impl; [apply fetched_known|].
    by intros c [? ?].
  - apply ok_checks_events; [|done].
    eapply Forall_impl; [apply fetched_known|]. by intros c [? ?].
Qed.

Lemma ok_files_events fs : forall n,
  fs ⊆ files -> Forall ok (files_events args ign fs n).
Proof.
  induction fs as [|f fs IH]; intros n Hfs; [constructor|].
  cbn [files_events]. apply Forall_app. split.
  - apply ok_validate_events. apply Hfs. by left.
  - destruct (existsb _ _); [constructor|]. apply IH.
    intros x Hx. apply Hfs. by right.
Qed.

End Selected_events.

(** What [run] adds to the trace, in three parts: scanning, the loop
    over the files, and the summary when no check stopped the run. *)
Lemma run_parts args_id args ip paths exts ign (s : state) :
  run_inputs args = Some (ip, paths, exts, ign) ->
  let file_iter := find_files paths exts ip in
  let s' := fst (run args_id args s) in
  exists tail,
    trace s' =
    trace s ++
    (Eprint <$> OScanning :: scan_lines (get_truthy args "verbose") file_iter) ++
    files_events (loop_args args_id args) (list_to_set ign)
      (parse <$> selected file_iter) (next_id s) ++
    (Eprint <$> tail) /\
    (tail = [] /\ snd (run args_id args s) = inl TypeError \/
     tail = summary_lines (error_counts s')
              (Z.of_nat (length (selected file_iter)))
              (Z.of_nat (length (ignored file_iter))) /\
     snd (run args_id args s) = inr (exit_status (error_counts s'))).
Proof.
  intros Hin file_iter s'. pose proof (run_trace args_id _ _ _ _ _ s Hin) as H.
  cbv zeta in H. fold file_iter in H. fold s' in H.
  destruct (existsb _ _); destruct H as [Hr Ht].
  - exists []. split; [|by left]. rewrite Ht, fmap_cons. cbn [app].
    by rewrite app_nil_r.
  - eexists. split; [|by right]. rewrite Ht, fmap_cons. cbn [app].
    by rewrite <- !app_assoc.
Qed.

Lemma scan_lines_kind verbosely file_iter :
  Forall (fun l => is_violation l = false /\ is_summary l = false)
    (scan_lines verbosely file_iter).
Proof.
  unfold scan_lines. destruct verbosely; [|constructor].
  apply Forall_fmap, Forall_forall. intros [fn []] _; by split.
Qed.

Lemma summary_lines_kind counts fs fi :
  Forall (fun l => is_summary l = true) (summary_lines counts fs fi).
Proof.
  unfold summary_lines, detail_lines. repeat (constructor; [done|]).
  case_bool_decide; [constructor|]. constructor; [done|].
  apply Forall_fmap, Forall_forall. by intros name _.
Qed.

Lemma output_prints (ls : list out_line) :
  output (Eprint (Self := Self) <$> ls) = ls.
Proof. induction ls as [|l ls IH]; [done|]. by rewrite fmap_cons; cbn; f_equal. Qed.

Lemma output_In l (t : list event) : In l (output t) <-> In (Eprint l) t.
Proof.
  rewrite <- !list_elem_of_In. unfold output. rewrite list_elem_of_omap. split.
  - intros (e & He & Hl). by destruct e; simplify_eq.
  - intros He. by exists (Eprint l).
Qed.

(** X14.  What a run that returns prints, after what was printed
    before: the line [Scanning...], lines that are no line of the
    summary, the separator, the three totals and the detailed counts.
    The numbers of the files scanned and of the files ignored add up to
    the number of the files that [find_files] yielded, and the total of
    the errors is the sum of the counts. *)
Theorem run_output args_id args ip paths exts ign (s : state) code :
  run_inputs args = Some (ip, paths, exts, ign) ->
  snd (run args_id args s) = inr code ->
  let file_iter := find_files paths exts ip in
  let s' := fst (run args_id args s) in
  let files_selected := length (selected file_iter) in
  let files_ignored := length (ignored file_iter) in
  files_selected + files_ignored = length file_iter /\
  exists lines,
    output (trace s') =
    output (trace s) ++ [OScanning] ++ lines ++
    [OSeparator; OFilesScanned (Z.of_nat files_selected);
     OFilesIgnored (Z.of_nat files_ignored);
     OTotalErrors (total (error_counts s'))] ++
    detail_lines (error_counts s') /\
    Forall (fun l => is_summary l = false) lines.
Proof.
  intros Hin Hcode file_iter s' fs fi.
  split; [apply selected_ignored_length|].
  destruct (run_parts args_id _ _ _ _ _ s Hin) as (tail & Ht & Htail).
  fold file_iter in Ht, Htail. fold s' in Ht, Htail.
  destruct Htail as [[_ Hr]|[-> _]]; [congruence|].
  exists (scan_lines (get_truthy args "verbose") file_iter ++
          output (files_events (loop_args args_id args) (list_to_set ign)
                    (parse <$> selected file_iter) (next_id s))).
  split.
  - rewrite Ht, !output_app, !output_prints. unfold summary_lines.
    cbn [app]. by rewrite <- !app_assoc.
  - apply Forall_app. split.
    + eapply Forall_impl; [apply scan_lines_kind|]. by intros l [_ ?].
    + apply Forall_forall. intros l Hl%list_elem_of_In%output_In.
      pose proof (not_summary_files (loop_args args_id args)
                    (list_to_set ign) (parse <$> selected file_iter)
                    (next_id s)) as Hns.
      rewrite Forall_forall in Hns.
      by apply (Hns (Eprint l)), list_elem_of_In.
Qed.

Lemma output_quiet args ign files (d : list event) :
  verbose args = false -> Forall (run_event args ign files) d ->
  Forall (fun l => is_violation l = true) (output d).
Proof.
  intros Hv Hd. apply Forall_forall. intros l Hl%list_elem_of_In%output_In.
  rewrite Forall_forall in Hd. specialize (Hd _ (proj2 (list_elem_of_In _ _) Hl)).
  destruct l; simpl in Hd; try done; try congruence.
  destruct Hd. congruence.
Qed.

(** X15.  Without [verbose], a run prints nothing but the line
    [Scanning...], violations, and the summary when it returns. *)
Theorem quiet_output args_id args ip paths exts ign (s : state) :
  run_inputs args = Some (ip, paths, exts, ign) ->
  get_truthy args "verbose" = false ->
  exists found summary_part,
    output (trace (fst (run args_id args s))) =
    output (trace s) ++ [OScanning] ++ found ++ summary_part /\
    Forall (fun l => is_violation l = true) found /\
    Forall (fun l => is_summary l = true) summary_part.
Proof.
  intros Hin Hv.
  destruct (run_parts args_id _ _ _ _ _ s Hin) as (tail & Ht & Htail).
  cbv zeta in Ht, Htail.
  exists (output (files_events (loop_args args_id args) (list_to_set ign)
                    (parse <$> selected (find_files paths exts ip))
                    (next_id s))), tail.
  split_and!.
  - rewrite Ht, !output_app, !output_prints. unfold scan_lines.
    by rewrite Hv.
  - apply (output_quiet (loop_args args_id args) (list_to_set ign)
             (parse <$> selected (find_files paths exts ip))).
    + by rewrite verbose_loop_args.
    + by apply ok_files_events.
  - destruct Htail as [[-> _]|[-> _]]; [constructor|].
    apply summary_lines_kind.
Qed.

(** The events that the loop over the files adds are events of the
    selected files. *)
Lemma run_added args_id args ip paths exts ign (s : state) :
  run_inputs args = Some (ip, paths, exts, ign) ->
  exists d,
    trace (fst (run args_id args s)) = trace s ++ d /\
    forall e, In e d ->
      (exists l, e = Eprint l /\
                 is_violation l = false /\
                 match l with OValidating _ => False | _ => True end) \/
      run_event (loop_args args_id args) (list_to_set ign)
        (parse <$> selected (find_files paths exts ip)) e.
Proof.
  intros Hin.
  destruct (run_parts args_id _ _ _ _ _ s Hin) as (tail & Ht & Htail).
  cbv zeta in Ht, Htail. eexists. split; [exact Ht|].
  intros e. rewrite !in_app_iff. intros [He|[He|He]].
  - left. apply list_elem_of_In, list_elem_of_fmap in He as (l & -> & Hl).
    exists l. split; [done|].
    apply elem_of_cons in Hl as [->|Hl]; [done|].
    pose proof (scan_lines_kind (get_truthy args "verbose")
                  (find_files paths exts ip)) as Hk.
    rewrite Forall_forall in Hk. destruct (Hk l Hl) as [? _].
    split; [done|]. unfold scan_lines in Hl.
    destruct (get_truthy args "verbose"); [|by apply elem_of_nil in Hl].
    apply list_elem_of_fmap in Hl as ([fn []] & -> & _); done.
  - right. pose proof (ok_files_events (loop_args args_id args)
                         (list_to_set ign)
                         (parse <$> selected (find_files paths exts ip))
                         _ (next_id s) (reflexivity _)) as Hok.
    rewrite Forall_forall in Hok. by apply Hok, list_elem_of_In.
  - left. apply list_elem_of_In, list_elem_of_fmap in He as (l & -> & Hl).
    exists l. split; [done|].
    destruct Htail as [[-> _]|[-> _]]; [by apply elem_of_nil in Hl|].
    pose proof (summary_lines_kind (error_counts (fst (run args_id args s)))
                  (Z.of_nat (length (selected (find_files paths exts ip))))
                  (Z.of_nat (length (ignored (find_files paths exts ip)))))
      as Hk.
    rewrite Forall_forall in Hk. specialize (Hk l Hl). by destruct l.
Qed.

(** X16.  Checks are run on the selected files only: each violation
    that a run prints is about a file that [find_files] yielded as not
    ignoreable, and it has the form of the verbose mode exactly in
    verbose mode; each call of [report_iter] is a call of an installed
    check with such a file, or with a line of one. *)
Theorem selected_files_only args_id args ip paths exts ign (s : state) :
  run_inputs args = Some (ip, paths, exts, ign) ->
  exists d,
    trace (fst (run args_id args s)) = trace s ++ d /\
    (forall v fn line_num code message,
       In (Eprint (OViolation v fn line_num code message)) d ->
       v = get_truthy args "verbose" /\
       exists name,
         name ∈ selected (find_files paths exts ip) /\
         fn = filename (parse name)) /\
    (forall c id f ys,
       In (Ecall_file c id f ys) d ->
       c ∈ check_classes /\
       exists name,
         name ∈ selected (find_files paths exts ip) /\ f = parse name) /\
    (forall c id f line_num line ys,
       In (Ecall_line c id f line_num line ys) d ->
       c ∈ check_classes /\
       exists name,
         name ∈ selected (find_files paths exts ip) /\ f = parse name).
Proof.
  intros Hin. destruct (run_added args_id _ _ _ _ _ s Hin) as (d & Ht & Hd).
  exists d. split; [done|]. split_and!.
  - intros v fn line_num code message He.
    destruct (Hd _ He) as [(l & [= <-] & ? & _)|Hok]; [done|].
    destruct Hok as (-> & _ & f & (name & -> & Hn)%list_elem_of_fmap & ->).
    split; [apply verbose_loop_args|]. by exists name.
  - intros c id f ys He.
    destruct (Hd _ He) as [(l & ? & _)|[Hc Hf]]; [done|].
    split; [done|].
    apply list_elem_of_fmap in Hf as (name & -> & Hn). by exists name.
  - intros c id f line_num line ys He.
    destruct (Hd _ He) as [(l & ? & _)|[Hc Hf]]; [done|].
    split; [done|].
    apply list_elem_of_fmap in Hf as (name & -> & Hn). by exists name.
Qed.

(** X17.  Each check object that is made during a run is an object of
    an installed check, made with the items that are left in [args]
    after [ignore_path], [paths], [extension] and [ignore] were popped:
    a check sees neither the ignored codes nor the paths. *)
Theorem checks_configuration args_id args ip paths exts ign (s : state) :
  run_inputs args = Some (ip, paths, exts, ign) ->
  exists d,
    trace (fst (run args_id args s)) = trace s ++ d /\
    forall c id cfg,
      In (Enew c id cfg) d ->
      c ∈ check_classes /\
      items cfg =
        delete "ignore"
          (delete "extension" (delete "paths" (delete "ignore_path" args))) /\
      items cfg !! "ignore" = None /\ items cfg !! "extension" = None /\
      items cfg !! "paths" = None /\ items cfg !! "ignore_path" = None /\
      (forall k, k <> "ignore" -> k <> "extension" -> k <> "paths" ->
                 k <> "ignore_path" -> items cfg !! k = args !! k).
Proof.
  intros Hin. destruct (run_added args_id _ _ _ _ _ s Hin) as (d & Ht & Hd).
  exists d. split; [done|]. intros c id cfg He.
  destruct (Hd _ He) as [(l & ? & _)|[Hc Hi]]; [done|].
  split; [done|]. split; [done|]. rewrite Hi. cbn [loop_args items].
  split_and!.
  - apply lookup_delete_eq.
  - rewrite lookup_delete_ne by done. apply lookup_delete_eq.
  - rewrite !lookup_delete_ne by done. apply lookup_delete_eq.
  - rewrite !lookup_delete_ne by done. apply lookup_delete_eq.
  - intros k ? ? ? ?. by rewrite !lookup_delete_ne.
Qed.

End Run.

(** * More on the counts *)

Section Counts.

Context {Self : Type} {world : Collaborators Self}.

Local Abbreviation check_class := (check_class Self).
Local Abbreviation instance := (instance Self).
Local Abbreviation event := (event Self).
Local Abbreviation state := (state Self).
Local Abbreviation M := (M Self).
Local Abbreviation initial_state := (@initial_state Self).
Local Abbreviation ledger := (@ledger Self).

Lemma considered_app (t d : list event) :
  considered (t ++ d) = considered t ++ considered d.
Proof. unfold considered. apply omap_app. Qed.

Lemma incrs_app name (t d : list event) :
  incrs name (t ++ d) = incrs name t + incrs name d.
Proof. unfold incrs. by rewrite List.filter_app, length_app. Qed.

Lemma considered_silent (d : list event) :
  Forall silent d -> considered d = [].
Proof.
  induction 1 as [|e d He _ IH]; [done|].
  change (e :: d) with ([e] ++ d). rewrite considered_app, IH.
  by destruct e.
Qed.

Lemma incrs_silent name (d : list event) :
  Forall silent d -> incrs name d = 0.
Proof.
  induction 1 as [|e d He _ IH]; [done|].
  change (e :: d) with ([e] ++ d). rewrite incrs_app, IH.
  by destruct e.
Qed.

Lemma quiet_silent (e : event) : quiet e -> silent e.
Proof. by destruct e. Qed.

Lemma prints_silent (ls : list out_line) :
  Forall silent (Eprint (Self := Self) <$> ls).
Proof. apply Forall_fmap, Forall_forall. by intros l _. Qed.

Lemma bind_assoc {A B C} (m : M A) (k : A -> M B) (h : B -> M C) (s : state) :
  bind (bind m k) h s = bind m (fun a => bind (k a) h) s.
Proof. unfold bind. by destruct (m s) as [s1 [e|a]]. Qed.

(** ** The ledger is kept *)

Lemma ledger_ext (s s' : state) :
  error_counts s' = error_counts s -> trace s' = trace s ->
  ledger s -> ledger s'.
Proof. intros Hc Ht H name. rewrite Hc, Ht. apply H. Qed.

Lemma ledger_silent (d : list event) (s : state) :
  Forall silent d -> ledger s -> ledger (append d s).
Proof.
  intros Hd H name. cbn [append error_counts trace].
  rewrite considered_app, incrs_app, (considered_silent d Hd),
    (incrs_silent name d Hd), app_nil_r, Nat.add_0_r.
  apply H.
Qed.

Lemma ledger_initial : ledger initial_state.
Proof.
  intros name. cbn. rewrite lookup_empty. split; [|done]. split.
  - by intros [? ?].
  - by intros (c & f & ?%elem_of_nil & _).
Qed.

Lemma ledger_log (e : event) : silent e -> preserves ledger (log e).
Proof. intros He s Hs. by apply (ledger_silent [e]); [constructor|]. Qed.

Lemma ledger_incr name : preserves ledger (incr name).
Proof.
  intros s Hs. unfold incr.
  destruct (error_counts s !! name) as [n|] eqn:Hn; [|done].
  cbn [fst snd]. intros name'. cbn [error_counts trace].
  rewrite considered_app, incrs_app, app_nil_r.
  destruct (Hs name') as [Hdom Hcount]. cbn [considered omap incrs].
  destruct (decide (name = name')) as [<-|Hne].
  - rewrite lookup_insert_eq. rewrite Hn in Hdom, Hcount. split.
    + rewrite <- Hdom. split; by eexists.
    + cbn in *. rewrite bool_decide_eq_true_2 by done. cbn. lia.
  - rewrite lookup_insert_ne by done. split; [done|].
    cbn. rewrite bool_decide_eq_false_2 by done. cbn. lia.
Qed.

(** [error_counts.setdefault(check_name, 0)], and then its record. *)
Lemma ledger_consider (c : check_class) id f :
  preserves ledger
    (setdefault (check_name c) 0 ;; log (Econsider c id f)).
Proof.
  intros s Hs name. unfold bind, setdefault, log.
  assert (forall counts : gmap string Z,
            is_Some (counts !! check_name c) ->
            (forall n, n <> check_name c ->
                       counts !! n = error_counts s !! n) ->
            default 0%Z (counts !! check_name c) =
              default 0%Z (error_counts s !! check_name c) ->
            (is_Some (counts !! name) <->
             exists c' f',
               (c', f') ∈ considered (trace s ++ [Econsider c id f]) /\
               check_name c' = name) /\
            default 0%Z (counts !! name) =
              Z.of_nat (incrs name (trace s ++ [Econsider c id f]))) as Hgen.
  { intros counts Hin Hother Hsame.
    rewrite considered_app, incrs_app. cbn [considered omap incrs].
    cbn. rewrite Nat.add_0_r. destruct (Hs name) as [Hdom Hcount].
    destruct (decide (name = check_name c)) as [->|Hne].
    - rewrite Hsame. split; [|done]. split; [|done]. intros _.
      exists c, f. split; [|done]. apply elem_of_app. right. by left.
    - rewrite (Hother name Hne). split; [|done]. rewrite Hdom. split.
      + intros (c' & f' & Hin' & Hn). exists c', f'.
        split; [|done]. apply elem_of_app. by left.
      + intros (c' & f' & [Hin'|Hin']%elem_of_app & Hn).
        * by exists c', f'.
        * apply list_elem_of_singleton in Hin'. by simplify_eq. }
  destruct (error_counts s !! check_name c) as [n|] eqn:Hn; cbn.
  - apply Hgen; [by rewrite Hn|done|by rewrite ?Hn].
  - apply Hgen.
    + rewrite lookup_insert_eq. by eexists.
    + intros n Hne. by rewrite lookup_insert_ne.
    + by rewrite lookup_insert_eq, ?Hn.
Qed.

Section Loop_ledger.

Variable args : pydict.
Variable ignoreables : gset string.

Lemma ledger_emit name f line_num code message :
  preserves ledger (emit args ignoreables name f line_num code message).
Proof.
  unfold emit. case_bool_decide; [apply preserves_ret|].
  apply preserves_bind; [by apply ledger_log|]. intros _. apply ledger_incr.
Qed.

Lemma ledger_line_loop (c : check_class) id report_iter f lines :
  forall line_num me,
    preserves ledger
      (line_loop args ignoreables c id report_iter f line_num lines me).
Proof.
  induction lines as [|line lines IH]; intros line_num me; cbn [line_loop].
  - apply preserves_ret.
  - destruct (report_iter me line) as [yielded me'].
    apply preserves_bind; [by apply ledger_log|]. intros _.
    apply preserves_bind; [|intros _; apply IH].
    apply preserves_for_each. intros [code message] _. apply ledger_emit.
Qed.

Lemma ledger_dispatch f (c : instance) :
  preserves ledger (dispatch args ignoreables f c).
Proof.
  unfold dispatch. destruct (body (cls c)) as [report_iter|report_iter|].
  - destruct (report_iter (self c) f) as [yielded me'].
    apply preserves_bind; [by apply ledger_log|]. intros _.
    apply preserves_for_each. intros [[line_num code] message] _.
    apply ledger_emit.
  - apply ledger_line_loop.
  - apply preserves_raise.
Qed.

Lemma ledger_run_check f (c : instance) :
  preserves ledger (run_check args ignoreables f c).
Proof.
  intros s Hs. unfold run_check. cbv zeta. rewrite <- bind_assoc.
  revert s Hs. apply preserves_bind; [apply ledger_consider|]. intros _.
  assert (forall b l, preserves ledger
            (when b (print l) ;; log (Eskip (cls c) (obj_id c) f))) as Hskip.
  { intros b l. apply preserves_bind; [|by intros _; apply ledger_log].
    apply preserves_when. by apply ledger_log. }
  destruct (extension_ok (cls c) f); cbn [negb];
    [destruct (reports_ok ignoreables (cls c)); cbn [negb]|].
  - apply preserves_bind.
    { apply preserves_when. by apply ledger_log. }
    intros _. apply preserves_bind; [by apply ledger_log|]. intros _.
    apply ledger_dispatch.
  - by apply Hskip.
  - by apply Hskip.
Qed.

Lemma ledger_fetch_checks cfg : preserves ledger (fetch_checks cfg).
Proof.
  intros s Hs. rewrite fetch_checks_eq. cbn [fst].
  apply (ledger_ext
           (append (Efetch_checks :: (constructed <$> fetched cfg (next_id s)))
              s)); [done..|].
  apply ledger_silent; [|done].
  eapply Forall_impl; [apply fetched_quiet|]. apply quiet_silent.
Qed.

Lemma ledger_validate f : preserves ledger (validate args ignoreables f).
Proof.
  unfold validate. apply preserves_bind.
  { apply preserves_when. by apply ledger_log. }
  intros _. apply preserves_bind; [apply ledger_fetch_checks|].
  intros checks. apply preserves_for_each. intros c _.
  apply ledger_run_check.
Qed.

End Loop_ledger.

Lemma ledger_run args_id args (s : state) :
  ledger s -> ledger (fst (run args_id args s)).
Proof.
  intros Hs.
  destruct (run_inputs args) as [[[[ip paths] exts] ign]|] eqn:Hin.
  - rewrite (run_eq _ _ _ _ _ _ _ Hin). cbv zeta.
    match goal with
    | |- context [bind ?m ?k (append ?d s)] =>
        apply (preserves_bind ledger m k)
    end.
    + apply preserves_for_each. intros f _. apply ledger_validate.
    + intros _ s1 Hs1. rewrite summary_eq. cbn [fst].
      apply ledger_silent; [apply prints_silent|done].
    + apply ledger_silent; [|done].
      constructor; [done|]. apply prints_silent.
  - destruct (run_early args_id args s Hin) as (e & d & -> & Hd).
    cbn [fst]. apply ledger_silent; [|done].
    eapply Forall_impl; [exact Hd|]. apply quiet_silent.
Qed.

Lemma ledger_main parsed : ledger (fst (main parsed initial_state)).
Proof.
  rewrite main_eq.
  assert (ledger (bump initial_state)) as H0.
  { by apply (ledger_ext initial_state); [..|apply ledger_initial]. }
  destruct (ns_version parsed).
  - cbn [fst]. by apply ledger_silent; [repeat constructor|].
  - unfold bind, lift. destruct (configure _) as [e|args]; [done|].
    by apply ledger_run.
Qed.

(** ** The order in which the checks are considered *)

Lemma considered_emitted v ign name fn line_num code message :
  considered (emitted (Self := Self) v ign name fn line_num code message) = [].
Proof. unfold emitted. by case_bool_decide. Qed.

Lemma considered_flat_map {A} (g : A -> list event) ys :
  (forall y, considered (g y) = []) -> considered (flat_map g ys) = [].
Proof.
  intros Hg. induction ys as [|y ys IH]; [done|].
  cbn [flat_map]. by rewrite considered_app, Hg, IH.
Qed.

Lemma considered_line_blocks v ign (c : check_class) id f numbered :
  forall first, considered (line_blocks v ign c id f first numbered) = [].
Proof.
  induction numbered as [|[line ys] numbered IH]; intros first; [done|].
  rewrite line_blocks_cons, considered_app, IH, app_nil_r.
  unfold line_block. change (?e :: ?l) with ([e] ++ l).
  rewrite considered_app. cbn [considered omap app].
  apply considered_flat_map. intros y. apply considered_emitted.
Qed.

Lemma considered_dispatch_events v ign f (c : instance) :
  considered (dispatch_events v ign f c) = [].
Proof.
  unfold dispatch_events. destruct (body (cls c)); [| |done].
  - unfold file_block. change (?e :: ?l) with ([e] ++ l).
    rewrite considered_app. cbn [considered omap app].
    apply considered_flat_map. intros y. apply considered_emitted.
  - apply considered_line_blocks.
Qed.

Lemma considered_said v l : considered (said (Self := Self) v l) = [].
Proof. unfold said. by destruct v. Qed.

Lemma considered_check_events v ign f (c : instance) :
  considered (check_events v ign f c) = [(cls c, f)].
Proof.
  unfold check_events. change (?e :: ?l) with ([e] ++ l).
  rewrite considered_app. cbn [considered omap app]. f_equal.
  destruct (extension_ok (cls c) f); cbn [negb];
    [destruct (reports_ok ign (cls c)); cbn [negb]|];
    rewrite considered_app, considered_said; cbn [app]; [|done..].
  change (?e :: ?l) with ([e] ++ l). rewrite considered_app.
  cbn [considered omap app]. apply considered_dispatch_events.
Qed.

Lemma considered_checks_events v ign f (checks : list instance) :
  existsb (stops ign f) (cls <$> checks) = false ->
  considered (checks_events v ign f checks) =
  (fun c => (c, f)) <$> (cls <$> checks).
Proof.
  induction checks as [|c checks IH]; [done|].
  rewrite fmap_cons. cbn [existsb checks_events].
  intros [Hc Hcs]%orb_false_elim.
  by rewrite considered_app, considered_check_events, Hc, IH.
Qed.

Lemma considered_validate_events args ign f n :
  existsb (stops ign f) check_classes = false ->
  considered (validate_events args ign f n) =
  (fun c => (c, f)) <$> check_classes.
Proof.
  intros Hstop. unfold validate_events.
  change (Efetch_checks :: ?l) with ([Efetch_checks (Self := Self)] ++ l).
  rewrite !considered_app, considered_said.
  rewrite (considered_silent (constructed <$> _)).
  2: { apply Forall_fmap, Forall_forall. by intros c _. }
  cbn [considered omap app].
  rewrite considered_checks_events; rewrite fetched_classes; done.
Qed.

Lemma considered_files_events args ign files : forall n,
  existsb (fun f => existsb (stops ign f) check_classes) files = false ->
  considered (files_events args ign files n) =
  flat_map (fun f => (fun c => (c, f)) <$> check_classes) files.
Proof.
  induction files as [|f files IH]; intros n; [done|].
  cbn [existsb files_events flat_map].
  intros [Hf Hfs]%orb_false_elim.
  by rewrite considered_app, considered_validate_events, Hf, IH.
Qed.

(** The checks and files that a run that returns considered. *)
Lemma considered_run args_id args ip paths exts ign (s : state) code :
  run_inputs args = Some (ip, paths, exts, ign) ->
  snd (run args_id args s) = inr code ->
  considered (trace (fst (run args_id args s))) =
  considered (trace s) ++
  flat_map (fun f => (fun c => (c, f)) <$> check_classes)
    (parse <$> selected (find_files paths exts ip)).
Proof.
  intros Hin Hcode. pose proof (run_trace args_id _ _ _ _ _ s Hin) as H.
  cbv zeta in H. destruct (existsb _ _) eqn:Hstop; destruct H as [Hr Ht].
  { congruence. }
  rewrite Ht. change (Eprint OScanning :: ?l) with ([Eprint OScanning] ++ l).
  rewrite !considered_app, considered_files_events by done.
  rewrite !(considered_silent (Eprint <$> _)) by apply prints_silent.
  cbn [considered omap app]. by rewrite app_nil_r.
Qed.

(** X18.  A run that returns has gone through the selected files in
    the order in which [find_files] yielded them, and for each file
    through the checks in the order of the list of [fetch_checks]:
    [error_counts.setdefault] was called for each check and each
    selected file, in this order, whether the check was then skipped or
    run. *)
Theorem files_then_checks args_id args ip paths exts ign (s : state) code :
  run_inputs args = Some (ip, paths, exts, ign) ->
  snd (run args_id args s) = inr code ->
  considered (trace (fst (run args_id args s))) =
  considered (trace s) ++
  flat_map (fun f => (fun c => (c, f)) <$> check_classes)
    (parse <$> selected (find_files paths exts ip)).
Proof. apply considered_run. Qed.

(** X19.  When [main] ends, a name has a count exactly when a check of
    that name was considered for a file, and its count is the number
    of times that [error_counts[name] += 1] was run. *)
Theorem counts_ledger parsed name :
  let s := fst (main parsed initial_state) in
  (is_Some (error_counts s !! name) <->
   exists c f, (c, f) ∈ considered (trace s) /\ check_name c = name) /\
  (forall n,
     error_counts s !! name = Some n -> n = Z.of_nat (incrs name (trace s))).
Proof.
  intros s. destruct (ledger_main parsed name) as [Hdom Hcount].
  fold s in Hdom, Hcount. split; [done|].
  intros n Hn. by rewrite Hn in Hcount.
Qed.

(** X20.  After a run that returns and for which at least one file
    was selected, the names that have a count are the names of the
    installed checks, all of them: those of the checks that were
    skipped for every file too. *)
Theorem counts_keys args_id args ip paths exts ign (s : state) code :
  run_inputs args = Some (ip, paths, exts, ign) ->
  trace s = [] -> error_counts s = ∅ ->
  snd (run args_id args s) = inr code ->
  selected (find_files paths exts ip) <> [] ->
  dom (error_counts (fst (run args_id args s))) =
  list_to_set (check_name <$> check_classes).
Proof.
  intros Hin Ht Hc Hcode Hsel.
  assert (ledger s) as Hs.
  { by apply (ledger_ext initial_state); [..|apply ledger_initial]. }
  pose proof (ledger_run args_id args s Hs) as Hl.
  pose proof (considered_run args_id _ _ _ _ _ s code Hin Hcode) as Hcons.
  rewrite Ht in Hcons. cbn [considered omap app] in Hcons.
  apply set_eq. intros name. rewrite elem_of_dom, (proj1 (Hl name)), Hcons.
  rewrite elem_of_list_to_set, list_elem_of_fmap. split.
  - intros (c & f & Hin' & <-). exists c. split; [done|].
    apply list_elem_of_In, in_flat_map in Hin' as (f' & _ & Hin').
    by apply list_elem_of_In, list_elem_of_fmap in Hin'
      as (c' & [= -> ->] & ?).
  - intros (c & -> & Hc'). destruct (selected _) as [|fn fns]; [done|].
    exists c, (parse fn). split; [|done].
    apply list_elem_of_In, in_flat_map. exists (parse fn).
    split; [by left|]. apply list_elem_of_In, list_elem_of_fmap. by exists c.
Qed.

(** ** The summary *)

Lemma leb_ltb a b : String.leb a b = true -> a <> b -> String.ltb a b = true.
Proof.
  unfold String.leb, String.ltb. intros Hle Hne.
  destruct (String.compare a b) eqn:E; [|done..].
  by apply String.compare_eq_iff in E.
Qed.

Lemma Sorted_increasing (l : list string) :
  Sorted (fun a b => Is_true (String.leb a b)) l -> NoDup l ->
  Sorted (fun a b => String.ltb a b = true) l.
Proof.
  induction 1 as [|a l Hl IH Hhd]; [constructor|].
  intros [Ha Hnd]%NoDup_cons. constructor; [by apply IH|].
  destruct Hhd as [|b l Hab]; constructor.
  apply leb_ltb; [by apply Is_true_eq_true|].
  intros ->. apply Ha. by left.
Qed.

Lemma sorted_keys_increasing (counts : gmap string Z) :
  Sorted (fun a b => String.ltb a b = true) (sorted_keys counts) /\
  forall name, name ∈ sorted_keys counts <-> is_Some (counts !! name).
Proof.
  unfold sorted_keys.
  set (R := fun a b : string => Is_true (String.leb a b)).
  assert (Total R) as HR.
  { intros a b. unfold R. destruct (String.leb_total a b) as [->| ->]; auto. }
  pose proof (merge_sort_Permutation R (elements (dom counts))) as Hp.
  split.
  - apply Sorted_increasing; [by apply Sorted_merge_sort|].
    rewrite Hp. apply NoDup_elements.
  - intros name. by rewrite Hp, elem_of_elements, elem_of_dom.
Qed.

(** X21.  The summary: the separator, the three totals, and, when
    there are counts, the header and one line for each name that has a
    count, the names in increasing order.  It changes no count, and the
    status is 0 exactly when the sum of the counts is 0. *)
Theorem summary_details files_selected files_ignored (s : state) :
  let counts := error_counts s in
  let s' := fst (summary files_selected files_ignored s) in
  exists names,
    output (trace s') =
    output (trace s) ++
    [OSeparator; OFilesScanned files_selected; OFilesIgnored files_ignored;
     OTotalErrors (total counts)] ++
    (if bool_decide (counts = ∅) then []
     else ODetailedHeader ::
          ((fun name => ODetail name (default 0%Z (counts !! name)))
             <$> names)) /\
    Sorted (fun a b => String.ltb a b = true) names /\
    (forall name, name ∈ names <-> is_Some (counts !! name)) /\
    error_counts s' = counts /\
    snd (summary files_selected files_ignored s) =
    inr (if (total counts =? 0)%Z then 0%Z else 1%Z).
Proof.
  intros counts s'. subst s'. rewrite summary_eq. cbn [fst snd].
  exists (sorted_keys counts).
  destruct (sorted_keys_increasing counts) as [Hs Hm].
  split_and!; [|done..].
  cbn [append trace]. by rewrite output_app, output_prints.
Qed.

(** ** [fetch_checks] *)

(** X22.  [fetch_checks] raises nothing, prints nothing and changes no
    count.  It returns five objects and one for each plugin; their
    identities are new and differ from each other, and the attributes
    of each one are those that the constructor of its class makes from
    the items of [cfg]. *)
Theorem fetch_checks_effect cfg (s : state) :
  let s' := fst (fetch_checks cfg s) in
  exists checks,
    snd (fetch_checks cfg s) = inr checks /\
    length checks = 5 + length extensions /\
    NoDup (obj_id <$> checks) /\
    Forall (fun c => next_id s <= obj_id c < next_id s') checks /\
    Forall (fun c => self c = init (cls c) (items cfg)) checks /\
    output (trace s') = output (trace s) /\
    error_counts s' = error_counts s.
Proof.
  intros s'. subst s'. rewrite fetch_checks_eq. cbn [fst snd].
  exists (fetched cfg (next_id s)). split_and!.
  - done.
  - unfold fetched. rewrite length_app, length_imap. done.
  - apply fetched_NoDup.
  - apply Forall_forall. intros c Hc. cbn [next_id].
    by apply (fetched_ids cfg).
  - apply Forall_forall. intros c Hc. unfold fetched in Hc.
    apply elem_of_app in Hc as [Hc|Hc].
    + repeat (apply elem_of_cons in Hc as [->|Hc]; [done|]).
      by apply elem_of_nil in Hc.
    + by apply elem_of_lookup_imap in Hc as (i & p & -> & _).
  - cbn [trace]. rewrite output_app.
    change (Efetch_checks :: ?l) with ([Efetch_checks (Self := Self)] ++ l).
    rewrite output_app. cbn [output omap app].
    assert (output (constructed <$> fetched cfg (next_id s)) = []) as ->.
    { generalize (fetched cfg (next_id s)). intros l.
      induction l as [|c l IH]; [done|]. by rewrite fmap_cons. }
    by rewrite app_nil_r.
  - done.
Qed.

End Counts.

(** * Ignoring more codes *)

Section Ignoring.

Context {Self : Type} {world : Collaborators Self}.

Local Abbreviation check_class := (check_class Self).
Local Abbreviation instance := (instance Self).
Local Abbreviation event := (event Self).
Local Abbreviation state := (state Self).

Section Loop_ignoring.

Variable args : pydict.
Variables ign more : gset string.

Local Abbreviation v := (verbose args).
Local Abbreviation both := (ign ∪ more).

Lemma violations_cons_other (e : event) (t : list event) :
  match e with Eprint l => is_violation l = false | _ => True end ->
  violations (e :: t) = violations t.
Proof.
  intros He. change (e :: t) with ([e] ++ t). rewrite violations_app.
  destruct e as [l| | | | | | | |]; try done.
  unfold violations. cbn. by rewrite He.
Qed.

Lemma violations_said l :
  is_violation l = false -> violations (said (Self := Self) v l) = [].
Proof.
  intros Hl. unfold said. destruct v; [|done].
  by rewrite violations_cons_other.
Qed.

Lemma violations_emitted name fn line_num code message :
  violations (emitted (Self := Self) v both name fn line_num code message) =
  List.filter (kept both)
    (violations (emitted (Self := Self) v ign name fn line_num code message)).
Proof.
  unfold emitted. case_bool_decide as H1; case_bool_decide as H2; try done.
  - unfold violations. cbn. by rewrite bool_decide_eq_false_2 by auto.
  - destruct H1. apply elem_of_union. by left.
  - unfold violations. cbn. by rewrite bool_decide_eq_true_2.
Qed.

Lemma violations_flat_map {A} (g g' : A -> list event) ys :
  (forall y, violations (g' y) = List.filter (kept both) (violations (g y))) ->
  violations (flat_map g' ys) =
  List.filter (kept both) (violations (flat_map g ys)).
Proof.
  intros Hg. induction ys as [|y ys IH]; [done|].
  cbn [flat_map]. by rewrite !violations_app, List.filter_app, Hg, IH.
Qed.

Lemma violations_line_blocks (c : check_class) id f numbered : forall first,
  violations (line_blocks v both c id f first numbered) =
  List.filter (kept both) (violations (line_blocks v ign c id f first numbered)).
Proof.
  induction numbered as [|[line ys] numbered IH]; intros first; [done|].
  rewrite !line_blocks_cons, !violations_app, List.filter_app, IH. f_equal.
  unfold line_block. rewrite !violations_cons_other by done.
  apply violations_flat_map. intros y. apply violations_emitted.
Qed.

Lemma violations_dispatch_events f (c : instance) :
  violations (dispatch_events v both f c) =
  List.filter (kept both) (violations (dispatch_events v ign f c)).
Proof.
  unfold dispatch_events. destruct (body (cls c)); [| |done].
  - unfold file_block. rewrite !violations_cons_other by done.
    apply violations_flat_map. intros y. apply violations_emitted.
  - apply violations_line_blocks.
Qed.

(** The violations of a check whose codes are all ignored. *)
Lemma filter_emitted_declared name fn line_num code message :
  code ∈ both ->
  List.filter (kept both)
    (violations (emitted (Self := Self) v ign name fn line_num code message)) =
  [].
Proof.
  intros Hc. unfold emitted. case_bool_decide; [done|].
  unfold violations. cbn. by rewrite bool_decide_eq_false_2 by auto.
Qed.

Lemma filter_flat_map {A} (g : A -> list event) ys :
  (forall y, y ∈ ys -> List.filter (kept both) (violations (g y)) = []) ->
  List.filter (kept both) (violations (flat_map g ys)) = [].
Proof.
  induction ys as [|y ys IH]; intros Hg; [done|].
  cbn [flat_map]. rewrite violations_app, List.filter_app, Hg by (by left).
  apply IH. intros y' Hy'. apply Hg. by right.
Qed.

Lemma filter_line_blocks (c : check_class) id f numbered : forall first,
  Forall (fun ly => forall y, y ∈ snd ly -> fst y ∈ both) numbered ->
  List.filter (kept both)
    (violations (line_blocks v ign c id f first numbered)) = [].
Proof.
  induction numbered as [|[line ys] numbered IH]; intros first Hn; [done|].
  apply Forall_cons in Hn as [Hys Hn].
  rewrite line_blocks_cons, violations_app, List.filter_app, IH by done.
  rewrite app_nil_r. unfold line_block.
  rewrite violations_cons_other by done.
  apply filter_flat_map. intros y Hy. apply filter_emitted_declared.
  by apply Hys.
Qed.

Lemma yields_declared report_iter (reports : list string) lines : forall me,
  (forall me line y, y ∈ fst (report_iter me line) -> fst y ∈ reports) ->
  Forall (fun ly : string * list line_finding =>
            forall y, y ∈ snd ly -> fst y ∈ reports)
    (zip lines (yields (Self := Self) report_iter me lines)).
Proof.
  induction lines as [|line lines IH]; intros me Hd; [constructor|].
  cbn [yields]. pose proof (Hd me line) as Hy.
  destruct (report_iter me line) as [ys me']. cbn [zip zip_with].
  constructor; [done|]. by apply IH.
Qed.

Lemma filter_dispatch_events f (c : instance) reports :
  REPORTS (cls c) = Some reports -> truthful (cls c) ->
  list_to_set reports ∖ both = (∅ : gset string) ->
  List.filter (kept both) (violations (dispatch_events v ign f c)) = [].
Proof.
  intros Hr Ht Hall. unfold truthful in Ht. rewrite Hr in Ht.
  assert (forall code, code ∈ reports -> code ∈ both) as Hin.
  { intros code Hc. destruct (decide (code ∈ both)) as [|Hn]; [done|].
    assert (code ∈ list_to_set (C := gset string) reports ∖ both) as H
      by (apply elem_of_difference; split;
          [by apply elem_of_list_to_set|done]).
    rewrite Hall in H. by apply not_elem_of_empty in H. }
  unfold dispatch_events. destruct (body (cls c)) as [ri|ri|]; [| |done].
  - unfold file_block. rewrite violations_cons_other by done.
    apply filter_flat_map. intros y Hy. apply filter_emitted_declared.
    by apply Hin, (Ht (self c) f).
  - apply filter_line_blocks.
    eapply Forall_impl; [by apply (yields_declared ri reports)|].
    intros ly Hly y Hy. by apply Hin, Hly.
Qed.

Lemma reports_ok_more (c : check_class) :
  reports_ok both c = true -> reports_ok ign c = true.
Proof.
  unfold reports_ok. destruct (REPORTS c) as [reports|]; [|done].
  rewrite !negb_true_iff, !bool_decide_eq_false. intros H1 H2. apply H1.
  apply (anti_symm (⊆)); [|apply empty_subseteq]. rewrite <- H2.
  intros x [Hx Hn]%elem_of_difference. apply elem_of_difference.
  split; [done|]. intros ?. apply Hn, elem_of_union. by left.
Qed.

Lemma violations_check_events f (c : instance) :
  truthful (cls c) ->
  violations (check_events v both f c) =
  List.filter (kept both) (violations (check_events v ign f c)).
Proof.
  intros Ht. unfold check_events. rewrite !violations_cons_other by done.
  destruct (extension_ok (cls c) f); cbn [negb].
  2: { by rewrite !violations_app, violations_said. }
  destruct (reports_ok both (cls c)) eqn:Hb; cbn [negb].
  - rewrite (reports_ok_more _ Hb). cbn [negb].
    rewrite !violations_app, !violations_said by done. cbn [app].
    rewrite !violations_cons_other by done.
    apply violations_dispatch_events.
  - rewrite violations_app, violations_said by done. cbn [app].
    rewrite violations_cons_other by done. cbn [violations output omap List.filter].
    destruct (reports_ok ign (cls c)) eqn:Hi; cbn [negb].
    + rewrite violations_app, violations_said by done. cbn [app].
      rewrite violations_cons_other by done. symmetry.
      unfold reports_ok in Hb.
      destruct (REPORTS (cls c)) as [reports|] eqn:Hr; [|done].
      apply negb_false_iff, bool_decide_eq_true in Hb.
      by apply (filter_dispatch_events f c reports).
    + rewrite violations_app, violations_said by done. cbn [app].
      by rewrite violations_cons_other.
Qed.

Lemma violations_checks_events f (checks : list instance) :
  Forall (fun c => is_other (cls c) = false /\ truthful (cls c)) checks ->
  violations (checks_events v both f checks) =
  List.filter (kept both) (violations (checks_events v ign f checks)).
Proof.
  induction 1 as [|c checks [Ho Ht] _ IH]; [done|].
  cbn [checks_events]. unfold stops. rewrite Ho, !andb_false_r.
  by rewrite !violations_app, List.filter_app, violations_check_events, IH.
Qed.

Lemma violations_constructed (l : list instance) :
  violations (constructed <$> l) = [].
Proof.
  induction l as [|c l IH]; [done|].
  rewrite fmap_cons. by rewrite violations_cons_other.
Qed.

Lemma violations_validate_events f n :
  (forall c, c ∈ check_classes -> is_other c = false /\ truthful c) ->
  violations (validate_events args both f n) =
  List.filter (kept both) (violations (validate_events args ign f n)).
Proof.
  intros Hc. unfold validate_events.
  rewrite !violations_app, !violations_said by done. cbn [app].
  rewrite !violations_cons_other by done.
  rewrite !violations_app, !violations_constructed. cbn [app].
  apply violations_checks_events. apply Forall_forall. intros c Hin.
  apply Hc. rewrite <- (fetched_classes args n).
  by apply list_elem_of_fmap_2.
Qed.

Lemma never_stops (ignoreables : gset string) f :
  (forall c, c ∈ check_classes -> is_other c = false /\ truthful c) ->
  existsb (stops ignoreables f) (check_classes (Self := Self)) = false.
Proof.
  intros Hc. apply not_true_is_false.
  intros (c & Hin%list_elem_of_In & Hs)%existsb_exists.
  apply stops_other in Hs. destruct (Hc c Hin). congruence.
Qed.

Lemma violations_files_events files : forall n,
  (forall c, c ∈ check_classes -> is_other c = false /\ truthful c) ->
  violations (files_events args both files n) =
  List.filter (kept both) (violations (files_events args ign files n)).
Proof.
  induction files as [|f files IH]; intros n Hc; [done|].
  cbn [files_events]. rewrite !never_stops by done.
  by rewrite !violations_app, List.filter_app, violations_validate_events, IH.
Qed.

End Loop_ignoring.

Lemma violations_prints (ls : list out_line) :
  Forall (fun l => is_violation l = false) ls ->
  violations (Eprint (Self := Self) <$> ls) = [].
Proof.
  induction 1 as [|l ls Hl _ IH]; [done|].
  rewrite fmap_cons. by rewrite violations_cons_other.
Qed.

(** The violations that [run] prints are those of the loop over the
    files. *)
Lemma violations_run args_id args ip paths exts ign (s : state) :
  run_inputs args = Some (ip, paths, exts, ign) ->
  violations (trace (fst (run args_id args s))) =
  violations (trace s) ++
  violations
    (files_events (loop_args args_id args) (list_to_set ign)
       (parse <$> selected (find_files paths exts ip)) (next_id s)).
Proof.
  intros Hin.
  destruct (run_parts args_id _ _ _ _ _ s Hin) as (tail & Ht & Htail).
  cbv zeta in Ht, Htail. rewrite Ht, !violations_app.
  rewrite (violations_prints (OScanning :: _)).
  2: { constructor; [done|]. eapply Forall_impl; [apply scan_lines_kind|].
       by intros l [? _]. }
  rewrite (violations_prints tail); [by rewrite app_nil_r|].
  destruct Htail as [[-> _]|[-> _]]; [constructor|].
  eapply Forall_impl; [apply summary_lines_kind|]. intros l Hl. by destruct l.
Qed.

Lemma run_inputs_more args ip paths exts ign (more : gset string) :
  run_inputs args = Some (ip, paths, exts, ign) ->
  run_inputs (<["ignore" := VSet (list_to_set ign ∪ more)]> args) =
  Some (ip, paths, exts, elements (list_to_set ign ∪ more : gset string)).
Proof.
  unfold run_inputs. rewrite !lookup_insert_ne by done.
  rewrite lookup_insert_eq.
  destruct (args !! "ignore_path") as [v1|]; [|done].
  destruct (strings_of v1); [|done].
  destruct (strings_of (default _ (args !! "paths"))); [|done].
  destruct (strings_of (default _ (args !! "extension"))); [|done].
  destruct (strings_of (default _ (args !! "ignore"))); [|done].
  by intros [= -> -> -> ->].
Qed.

Lemma loop_args_ignore args_id args w :
  loop_args args_id (<["ignore" := w]> args) = loop_args args_id args.
Proof.
  unfold loop_args. f_equal.
  rewrite !(delete_insert_ne _ _ "ignore") by done.
  by rewrite delete_insert_eq.
Qed.

(** X23.  Ignoring more codes takes the violations with these codes
    away and changes nothing else, when each check is a [ContentCheck]
    or a [LineCheck] that yields no code that is not in its [REPORTS]:
    the violations that a run prints with more ignored codes are those
    that it prints without them, less the violations with an ignored
    code, in the same order. *)
Theorem ignoring_more args_id args ip paths exts ign (more : gset string)
    (s : state) :
  run_inputs args = Some (ip, paths, exts, ign) ->
  trace s = [] ->
  (forall c, c ∈ check_classes -> is_other c = false /\ truthful c) ->
  let ignoreables : gset string := list_to_set ign ∪ more in
  violations
    (trace (fst (run args_id (<["ignore" := VSet ignoreables]> args) s))) =
  List.filter (kept ignoreables)
    (violations (trace (fst (run args_id args s)))).
Proof.
  intros Hin Ht Hc ignoreables.
  rewrite (violations_run _ _ _ _ _ _ _ (run_inputs_more _ _ _ _ _ more Hin)).
  rewrite (violations_run _ _ _ _ _ _ _ Hin), Ht. cbn [violations output omap List.filter app].
  rewrite loop_args_ignore, list_to_set_elements_L.
  by apply violations_files_events.
Qed.

End Ignoring.

(** * What verbose mode says *)

Section Verbose.

Context {Self : Type} {world : Collaborators Self}.

Local Abbreviation check_class := (check_class Self).
Local Abbreviation instance := (instance Self).
Local Abbreviation event := (event Self).
Local Abbreviation state := (state Self).

Lemma narrated_app (t d : list event) :
  narrated (t ++ d) = narrated t ++ narrated d.
Proof. unfold narrated. by rewrite output_app, List.filter_app. Qed.

Lemma narrated_prints (ls : list out_line) :
  Forall (fun l => is_violation l = false) ls ->
  narrated (Eprint (Self := Self) <$> ls) = ls.
Proof.
  intros Hls. unfold narrated. rewrite output_prints.
  induction Hls as [|l ls Hl _ IH]; [done|]. cbn. by rewrite Hl, IH.
Qed.

Lemma narrated_emitted v ign name fn line_num code message :
  narrated (emitted (Self := Self) v ign name fn line_num code message) = [].
Proof. unfold emitted. by case_bool_decide. Qed.

Lemma narrated_flat_map {A} (g : A -> list event) ys :
  (forall y, narrated (g y) = []) -> narrated (flat_map g ys) = [].
Proof.
  intros Hg. induction ys as [|y ys IH]; [done|].
  cbn [flat_map]. by rewrite narrated_app, Hg, IH.
Qed.

Lemma narrated_line_blocks v ign (c : check_class) id f numbered :
  forall first, narrated (line_blocks v ign c id f first numbered) = [].
Proof.
  induction numbered as [|[line ys] numbered IH]; intros first; [done|].
  rewrite line_blocks_cons, narrated_app, IH, app_nil_r.
  unfold line_block. change (?e :: ?l) with ([e] ++ l).
  rewrite narrated_app. cbn [narrated output omap List.filter app].
  apply narrated_flat_map. intros y. apply narrated_emitted.
Qed.

Lemma narrated_dispatch_events v ign f (c : instance) :
  narrated (dispatch_events v ign f c) = [].
Proof.
  unfold dispatch_events. destruct (body (cls c)); [| |done].
  - unfold file_block. change (?e :: ?l) with ([e] ++ l).
    rewrite narrated_app. cbn [narrated output omap List.filter app].
    apply narrated_flat_map. intros y. apply narrated_emitted.
  - apply narrated_line_blocks.
Qed.

Lemma narrated_check_events ign f (c : instance) :
  narrated (check_events true ign f c) = [decision ign (cls c) f].
Proof.
  unfold check_events, decision, said.
  change (Econsider ?a ?b ?d :: ?l) with ([Econsider a b d] ++ l).
  rewrite narrated_app. cbn [narrated output omap List.filter app].
  destruct (extension_ok (cls c) f); cbn [negb]; [|done].
  destruct (reports_ok ign (cls c)); cbn [negb]; [|done].
  cbn [app].
  change (?e1 :: ?e2 :: ?l) with ([e1; e2] ++ l).
  by rewrite narrated_app, narrated_dispatch_events.
Qed.

Lemma narrated_checks_events ign f (checks : list instance) :
  existsb (stops ign f) (cls <$> checks) = false ->
  narrated (checks_events true ign f checks) =
  (fun c => decision ign c f) <$> (cls <$> checks).
Proof.
  induction checks as [|c checks IH]; [done|].
  rewrite fmap_cons. cbn [existsb checks_events].
  intros [Hc Hcs]%orb_false_elim.
  by rewrite narrated_app, narrated_check_events, Hc, IH.
Qed.

Lemma narrated_constructed (l : list instance) :
  narrated (constructed <$> l) = [].
Proof. induction l as [|c l IH]; [done|]. by rewrite fmap_cons. Qed.

Lemma narrated_validate_events args ign f n :
  verbose args = true ->
  existsb (stops ign f) check_classes = false ->
  narrated (validate_events args ign f n) =
  OValidating f :: ((fun c => decision ign c f) <$> check_classes).
Proof.
  intros Hv Hstop. unfold validate_events. rewrite Hv. unfold said.
  change (Efetch_checks :: ?l) with ([Efetch_checks (Self := Self)] ++ l).
  rewrite !narrated_app, narrated_constructed.
  cbn [narrated output omap List.filter app negb is_violation].
  rewrite narrated_checks_events; rewrite fetched_classes; done.
Qed.

Lemma narrated_files_events args ign files : forall n,
  verbose args = true ->
  existsb (fun f => existsb (stops ign f) check_classes) files = false ->
  narrated (files_events args ign files n) =
  flat_map
    (fun f => OValidating f :: ((fun c => decision ign c f) <$> check_classes))
    files.
Proof.
  induction files as [|f files IH]; intros n Hv; [done|].
  cbn [existsb files_events flat_map].
  intros [Hf Hfs]%orb_false_elim.
  by rewrite narrated_app, narrated_validate_events, Hf, IH.
Qed.

(** X24.  What a run that returns says in verbose mode, apart from the
    violations: [Scanning...]; one line for each file that
    [find_files] yielded, in order, saying whether it is ignored or
    selected; for each selected file, in order, the line [Validating]
    and then one line for each check, in the order of the list of
    [fetch_checks], saying whether the check is skipped for its
    extension, skipped for its codes, or run; then the summary. *)
Theorem verbose_narration args_id args ip paths exts ign (s : state) code :
  run_inputs args = Some (ip, paths, exts, ign) ->
  get_truthy args "verbose" = true ->
  snd (run args_id args s) = inr code ->
  let file_iter := find_files paths exts ip in
  let s' := fst (run args_id args s) in
  narrated (trace s') =
  narrated (trace s) ++
  [OScanning] ++
  ((fun p : string * bool =>
      if snd p then OIgnoring (fst p) else OSelecting (fst p)) <$> file_iter) ++
  flat_map
    (fun f =>
       OValidating f ::
       ((fun c => decision (list_to_set ign) c f) <$> check_classes))
    (parse <$> selected file_iter) ++
  summary_lines (error_counts s')
    (Z.of_nat (length (selected file_iter)))
    (Z.of_nat (length (ignored file_iter))).
Proof.
  intros Hin Hv Hcode file_iter s'.
  pose proof (run_trace args_id _ _ _ _ _ s Hin) as H.
  cbv zeta in H. fold file_iter in H. fold s' in H.
  destruct (existsb _ _) eqn:Hstop; destruct H as [Hr Ht].
  { subst s'. congruence. }
  rewrite Ht. change (Eprint OScanning :: ?l) with ([Eprint OScanning] ++ l).
  rewrite !narrated_app.
  rewrite narrated_files_events;
    [|by rewrite verbose_loop_args|done].
  rewrite !narrated_prints.
  - unfold scan_lines. rewrite Hv. by rewrite <- !app_assoc.
  - eapply Forall_impl; [apply summary_lines_kind|]. intros l Hl.
    by destruct l.
  - eapply Forall_impl; [apply scan_lines_kind|]. by intros l [? _].
Qed.

End Verbose.

(** * The further properties on the small installation *)

(** X1 on a text with blanks, an empty piece and a code given twice. *)
Lemma split_set_type_clean_witness :
  "D002" ∈ split_set_type " D001, D002 ,,D001 " /\
  clean "D002" /\ strip "D002" = "D002".
Proof.
  assert ("D002" ∈ split_set_type " D001, D002 ,,D001 ") as H
    by (vm_compute; reflexivity).
  split; [exact H|].
  destruct (split_set_type_clean " D001, D002 ,,D001 " "D002" H)
    as (Hc & Hs & _).
  split; [exact Hc|exact Hs].
Defined.

Lemma clean_codes : clean "D001" /\ clean "D002".
Proof.
  split; (split; [discriminate|]); (split; [|split]).
  - vm_compute. intuition discriminate.
  - intros a [= <-]. reflexivity.
  - intros a [= <-]. reflexivity.
  - vm_compute. intuition discriminate.
  - intros a [= <-]. reflexivity.
  - intros a [= <-]. reflexivity.
Qed.

(** X3 on two codes. *)
Lemma split_join_round_trip_witness :
  Forall clean ["D001"; "D002"] /\
  join_commas ["D001"; "D002"] = "D001,D002" /\
  split_strip (join_commas ["D001"; "D002"]) = ["D001"; "D002"] /\
  split_set_type (join_commas ["D001"; "D002"]) =
    list_to_set ["D001"; "D002"].
Proof.
  assert (Forall clean ["D001"; "D002"]) as H.
  { constructor; [exact (proj1 clean_codes)|].
    constructor; [exact (proj2 clean_codes)|constructor]. }
  split; [exact H|]. split; [reflexivity|].
  exact (split_join_round_trip ["D001"; "D002"] H).
Defined.

(** X7 and X8 on the configuration file [doc8.ini]. *)
Lemma extract_config_entries_witness :
  let cfg : gmap string pyval :=
    list_to_map [("max_line_length", VInt 90);
                 ("allow_long_titles", VBool false);
                 ("verbose", VBool false)] in
  extract_config (world := Demo.with_ini) (vars Demo.long_lines) = inr cfg /\
  cfg !! "verbose" = Some (VBool false) /\
  ("verbose" = "allow_long_titles" \/ "verbose" = "sphinx" \/
   "verbose" = "verbose").
Proof.
  intros cfg.
  assert (extract_config (world := Demo.with_ini) (vars Demo.long_lines) =
          inr cfg) as H1 by (vm_compute; reflexivity).
  assert (cfg !! "verbose" = Some (VBool false)) as H2 by reflexivity.
  split; [exact H1|]. split; [exact H2|].
  exact (extract_config_entries (world := Demo.with_ini)
           (vars Demo.long_lines) cfg "verbose" (VBool false) H1 H2).
Defined.

Lemma extract_config_errors_witness :
  read_config_files (world := Demo.with_ini) (vars Demo.long_lines) =
    inr (Demo.ini 90 false false, ["doc8.ini"]) /\
  exists cfg,
    extract_config (world := Demo.with_ini) (vars Demo.long_lines) = inr cfg.
Proof.
  assert (read_config_files (world := Demo.with_ini) (vars Demo.long_lines) =
          inr (Demo.ini 90 false false, ["doc8.ini"])) as H
    by (vm_compute; reflexivity).
  split; [exact H|].
  apply (proj2 (extract_config_errors (world := Demo.with_ini)
                  (vars Demo.long_lines) (Demo.ini 90 false false)
                  ["doc8.ini"] H)).
  right. repeat split; reflexivity.
Defined.

(** X10 where there is no configuration file. *)
Lemma configure_no_file_witness :
  read_config_files (world := Demo.plain) (vars Demo.defaults) =
    inr (Demo.no_option, []) /\
  configure (world := Demo.plain) (vars Demo.defaults) =
    inr (<["ignore" := VSet ∅]> (vars Demo.defaults)).
Proof.
  assert (read_config_files (world := Demo.plain) (vars Demo.defaults) =
          inr (Demo.no_option, [])) as H by (vm_compute; reflexivity).
  split; [exact H|].
  exact (configure_no_file (world := Demo.plain) Demo.defaults Demo.no_option
           H).
Defined.

(** X11 on [doc8 --version]. *)
Lemma version_only_witness :
  ns_version Demo.asking_version = true /\
  snd (main (world := Demo.plain) Demo.asking_version initial_state) =
    inr 0%Z /\
  output (trace (fst (main (world := Demo.plain) Demo.asking_version
                        initial_state))) = [OVersion].
Proof.
  assert (ns_version Demo.asking_version = true) as H by reflexivity.
  split; [exact H|].
  destruct (version_only (world := Demo.plain) Demo.asking_version
              initial_state H) as (H1 & H2 & _).
  split; [exact H1|]. rewrite H2. reflexivity.
Defined.

(** X13 on the two files: violations are printed, the status is 1. *)
Lemma exit_status_zero_witness :
  exists s,
    main (world := Demo.plain) Demo.defaults initial_state = (s, inr 1%Z) /\
    (1%Z = 0%Z <-> violations (trace s) = []).
Proof.
  assert (snd (main (world := Demo.plain) Demo.defaults initial_state) =
          inr 1%Z) as Hs by (vm_compute; reflexivity).
  destruct (main (world := Demo.plain) Demo.defaults initial_state)
    as [s r] eqn:E.
  cbn [snd] in Hs. subst r. exists s. split; [reflexivity|].
  exact (exit_status_zero (world := Demo.plain) Demo.defaults s 1 E).
Defined.

(** X14 to X18 and X20 on the two files. *)
Lemma run_output_witness :
  run_inputs (Demo.finished []) = Some ([], ["."], FILE_PATTERNS, []) /\
  snd (run (world := Demo.plain) 0 (Demo.finished []) initial_state) =
    inr 1%Z /\
  2 + 0 = 2.
Proof.
  assert (run_inputs (Demo.finished []) = Some ([], ["."], FILE_PATTERNS, []))
    as H1 by (vm_compute; reflexivity).
  assert (snd (run (world := Demo.plain) 0 (Demo.finished []) initial_state) =
          inr 1%Z) as H2 by (vm_compute; reflexivity).
  split; [exact H1|]. split; [exact H2|].
  exact (proj1 (run_output (world := Demo.plain) 0 (Demo.finished []) []
                  ["."] FILE_PATTERNS [] initial_state 1 H1 H2)).
Defined.

Lemma quiet_output_witness :
  run_inputs (Demo.finished []) = Some ([], ["."], FILE_PATTERNS, []) /\
  get_truthy (Demo.finished []) "verbose" = false /\
  exists found summary_part,
    output (trace (fst (run (world := Demo.plain) 0 (Demo.finished [])
                          initial_state))) =
    [] ++ [OScanning] ++ found ++ summary_part /\
    Forall (fun l => is_violation l = true) found /\
    Forall (fun l => is_summary l = true) summary_part.
Proof.
  assert (run_inputs (Demo.finished []) = Some ([], ["."], FILE_PATTERNS, []))
    as H1 by (vm_compute; reflexivity).
  assert (get_truthy (Demo.finished []) "verbose" = false) as H2
    by (vm_compute; reflexivity).
  split; [exact H1|]. split; [exact H2|].
  exact (quiet_output (world := Demo.plain) 0 (Demo.finished []) []
           ["."] FILE_PATTERNS [] initial_state H1 H2).
Defined.

Lemma selected_files_only_witness :
  run_inputs (Demo.finished []) = Some ([], ["."], FILE_PATTERNS, []) /\
  exists d,
    trace (fst (run (world := Demo.plain) 0 (Demo.finished [])
                  initial_state)) = [] ++ d /\
    forall v fn line_num code message,
      In (Eprint (OViolation v fn line_num code message)) d ->
      v = false /\
      exists name, name ∈ ["a.rst"; "b.txt"] /\
                   fn = filename (Demo.the_files name).
Proof.
  assert (run_inputs (Demo.finished []) = Some ([], ["."], FILE_PATTERNS, []))
    as H1 by (vm_compute; reflexivity).
  split; [exact H1|].
  destruct (selected_files_only (world := Demo.plain) 0 (Demo.finished []) []
              ["."] FILE_PATTERNS [] initial_state H1) as (d & Hd & Hv & _).
  exists d. split; [exact Hd|exact Hv].
Defined.

Lemma checks_configuration_witness :
  run_inputs (Demo.finished []) = Some ([], ["."], FILE_PATTERNS, []) /\
  exists d,
    trace (fst (run (world := Demo.plain) 0 (Demo.finished [])
                  initial_state)) = [] ++ d /\
    forall c id cfg,
      In (Enew c id cfg) d ->
      items cfg !! "ignore" = None /\
      items cfg !! "max_line_length" = Some (VInt 79).
Proof.
  assert (run_inputs (Demo.finished []) = Some ([], ["."], FILE_PATTERNS, []))
    as H1 by (vm_compute; reflexivity).
  split; [exact H1|].
  destruct (checks_configuration (world := Demo.plain) 0 (Demo.finished []) []
              ["."] FILE_PATTERNS [] initial_state H1) as (d & Hd & Hc).
  exists d. split; [exact Hd|]. intros c id cfg Hin.
  destruct (Hc c id cfg Hin) as (_ & _ & Hi & _ & _ & _ & Hk).
  split; [exact Hi|]. rewrite Hk; [reflexivity|discriminate..].
Defined.

Lemma files_then_checks_witness :
  run_inputs (Demo.finished []) = Some ([], ["."], FILE_PATTERNS, []) /\
  snd (run (world := Demo.plain) 0 (Demo.finished []) initial_state) =
    inr 1%Z /\
  considered
    (trace (fst (run (world := Demo.plain) 0 (Demo.finished [])
                   initial_state))) =
  ((fun c => (c, Demo.the_files "a.rst")) <$>
     [Demo.validity; Demo.trailing_whitespace; Demo.indentation_no_tab;
      Demo.carriage_return; Demo.max_line_length]) ++
  ((fun c => (c, Demo.the_files "b.txt")) <$>
     [Demo.validity; Demo.trailing_whitespace; Demo.indentation_no_tab;
      Demo.carriage_return; Demo.max_line_length]).
Proof.
  assert (run_inputs (Demo.finished []) = Some ([], ["."], FILE_PATTERNS, []))
    as H1 by (vm_compute; reflexivity).
  assert (snd (run (world := Demo.plain) 0 (Demo.finished []) initial_state) =
          inr 1%Z) as H2 by (vm_compute; reflexivity).
  split; [exact H1|]. split; [exact H2|].
  exact (files_then_checks (world := Demo.plain) 0 (Demo.finished []) []
           ["."] FILE_PATTERNS [] initial_state 1 H1 H2).
Defined.

Lemma counts_keys_witness :
  run_inputs (Demo.finished []) = Some ([], ["."], FILE_PATTERNS, []) /\
  snd (run (world := Demo.plain) 0 (Demo.finished []) initial_state) =
    inr 1%Z /\
  selected (find_files (Collaborators := Demo.plain) ["."] FILE_PATTERNS [])
    <> [] /\
  dom (error_counts (fst (run (world := Demo.plain) 0 (Demo.finished [])
                            initial_state))) =
  list_to_set
    ["CheckValidity"; "CheckTrailingWhitespace"; "CheckIndentationNoTab";
     "CheckCarriageReturn"; "CheckMaxLineLength"].
Proof.
  assert (run_inputs (Demo.finished []) = Some ([], ["."], FILE_PATTERNS, []))
    as H1 by (vm_compute; reflexivity).
  assert (snd (run (world := Demo.plain) 0 (Demo.finished []) initial_state) =
          inr 1%Z) as H2 by (vm_compute; reflexivity).
  assert (selected (find_files (Collaborators := Demo.plain) ["."]
                      FILE_PATTERNS []) <> []) as H3 by discriminate.
  split; [exact H1|]. split; [exact H2|]. split; [exact H3|].
  exact (counts_keys (world := Demo.plain) 0 (Demo.finished []) []
           ["."] FILE_PATTERNS [] initial_state 1 H1 eq_refl eq_refl H2 H3).
Defined.

(** The checks of the small installation yield the codes that they
    declare. *)
Lemma plain_checks_truthful (c : check_class Z) :
  c ∈ check_classes (world := Demo.plain) ->
  is_other c = false /\ truthful c.
Proof.
  intros Hc. unfold check_classes in Hc. cbn in Hc.
  repeat (apply elem_of_cons in Hc as [->|Hc]);
    [..|by apply elem_of_nil in Hc]; (split; [reflexivity|]);
    unfold truthful; cbn.
  - intros me f y Hy. by apply elem_of_nil in Hy.
  - intros me line y. destruct (Demo.ends_with_space line).
    + intros ->%list_elem_of_singleton. by left.
    + by intros ?%elem_of_nil.
  - intros me line y. destruct (Demo.starts_with_tab line).
    + intros ->%list_elem_of_singleton. by left.
    + by intros ?%elem_of_nil.
  - intros me line y Hy. by apply elem_of_nil in Hy.
  - intros me line y. destruct (me <? _)%Z.
    + intros ->%list_elem_of_singleton. by left.
    + by intros ?%elem_of_nil.
Qed.

(** X23 on the two files: with D002 ignored too, the violation of
    [a.rst] is gone and that of [b.txt] stays. *)
Lemma ignoring_more_witness :
  run_inputs (Demo.finished []) = Some ([], ["."], FILE_PATTERNS, []) /\
  violations
    (trace (fst (run (world := Demo.plain) 0
                   (<["ignore" := VSet (list_to_set [] ∪ {["D002"]})]>
                      (Demo.finished []))
                   initial_state))) =
  List.filter (kept (list_to_set [] ∪ {["D002"]}))
    (violations
       (trace (fst (run (world := Demo.plain) 0 (Demo.finished [])
                      initial_state)))).
Proof.
  assert (run_inputs (Demo.finished []) = Some ([], ["."], FILE_PATTERNS, []))
    as H1 by (vm_compute; reflexivity).
  split; [exact H1|].
  exact (ignoring_more (world := Demo.plain) 0 (Demo.finished []) []
           ["."] FILE_PATTERNS [] {["D002"]} initial_state H1 eq_refl
           plain_checks_truthful).
Defined.

(** X24 on the two files, in verbose mode. *)
Lemma verbose_narration_witness :
  run_inputs Demo.finished_verbosely =
    Some ([], ["."], FILE_PATTERNS, []) /\
  get_truthy Demo.finished_verbosely "verbose" = true /\
  snd (run (world := Demo.plain) 0 Demo.finished_verbosely initial_state) =
    inr 1%Z /\
  narrated
    (trace (fst (run (world := Demo.plain) 0 Demo.finished_verbosely
                   initial_state))) =
  [OScanning; OSelecting "a.rst"; OSelecting "b.txt";
   OValidating (Demo.the_files "a.rst");
   ORunning "CheckValidity"; ORunning "CheckTrailingWhitespace";
   ORunning "CheckIndentationNoTab"; ORunning "CheckCarriageReturn";
   ORunning "CheckMaxLineLength";
   OValidating (Demo.the_files "b.txt");
   OSkipExtension "CheckValidity" ".txt";
   ORunning "CheckTrailingWhitespace";
   ORunning "CheckIndentationNoTab"; ORunning "CheckCarriageReturn";
   ORunning "CheckMaxLineLength";
   OSeparator; OFilesScanned 2; OFilesIgnored 0; OTotalErrors 2;
   ODetailedHeader;
   ODetail "CheckCarriageReturn" 0; ODetail "CheckIndentationNoTab" 1;
   ODetail "CheckMaxLineLength" 0; ODetail "CheckTrailingWhitespace" 1;
   ODetail "CheckValidity" 0].
Proof.
  assert (run_inputs Demo.finished_verbosely =
          Some ([], ["."], FILE_PATTERNS, [])) as H1
    by (vm_compute; reflexivity).
  assert (get_truthy Demo.finished_verbosely "verbose" = true) as H2
    by (vm_compute; reflexivity).
  assert (snd (run (world := Demo.plain) 0 Demo.finished_verbosely
                 initial_state) = inr 1%Z) as H3
    by (vm_compute; reflexivity).
  split; [exact H1|]. split; [exact H2|]. split; [exact H3|].
  rewrite (verbose_narration (world := Demo.plain) 0 Demo.finished_verbosely
             [] ["."] FILE_PATTERNS [] initial_state 1 H1 H2 H3).
  vm_compute. reflexivity.
Defined.
